(** * Syrve-Validator: order aggregation and validation engine

    A shallow embedding of [script.py]: the per-day collection loop
    [fetch_orders], the phone pattern [PHONE_PATTERN] and the statistics
    of [summarize], together with the properties its specification states
    about them; then the functions around them, the requests to the API,
    the choice of the organisations, the report, the details of an order
    and [main], with what the code shows of their behaviour. *)

From Equations Require Import Equations.
From Stdlib Require Import ZArith Lia SpecFloat Ascii.
From stdpp Require Import base gmap strings list sorting.
Local Open Scope Z_scope.
Set Warnings "-register-all".

(** ** Python values and exceptions *)

(** The exceptions the embedded functions can let escape.  The classes of
    [requests] are siblings below [RequestException]: [HTTPError] is what
    [raise_for_status] raises on a 4xx/5xx answer, [ConnectionError] and
    [Timeout] are what [requests.post] raises when the server cannot be
    reached. *)
Inductive exn : Set :=
| HTTPError
| ConnectionError
| Timeout
| JSONDecodeError
| OverflowError
| AttributeError
| TypeError.

#[export] Instance exn_eq_dec : EqDecision exn.
Proof. solve_decision. Defined.

Inductive result (A : Type) : Type :=
| Ok (a : A)
| Raise (e : exn).
Arguments Ok {A} a.
Arguments Raise {A} e.

(** Sequencing: an exception raised by the first statement escapes. *)
#[export] Instance result_bind : MBind result := fun A B k m =>
  match m with
  | Ok a => k a
  | Raise e => Raise e
  end.
#[export] Instance result_ret : MRet result := fun A a => Ok a.

(** A value together with the equation that names it, for a case
    analysis that keeps the equation. *)
Definition inspect {A : Type} (x : A) : {y : A | x = y} := exist _ x eq_refl.

(** What [r.json()] can hold: the image of a JSON document in Python.
    A string is held as the bytes of its UTF-8 encoding, a dict is its
    list of items in insertion order, a float is an IEEE 754 binary64
    datum. *)
Inductive value : Type :=
| VNone
| VBool (b : bool)
| VInt (z : Z)
| VFloat (f : spec_float)
| VStr (s : string)
| VList (l : list value)
| VDict (d : list (string * value)).

(** [bool(v)]: the truth value Python gives to [v] in [not v] and [v or w]. *)
Definition float_is_zero (f : spec_float) : bool :=
  match f with
  | S754_zero _ => true
  | _ => false
  end.

Definition truthy (v : value) : bool :=
  match v with
  | VNone => false
  | VBool b => b
  | VInt z => negb (z =? 0)
  | VFloat f => negb (float_is_zero f)
  | VStr s => negb (String.eqb s EmptyString)
  | VList l => match l with [] => false | _ => true end
  | VDict d => match d with [] => false | _ => true end
  end.

(** [v == 0] for the integer literal [0]: numbers compare by value, and
    [False == 0] holds because [bool] is a subclass of [int]. *)
Definition eq_zero (v : value) : bool :=
  match v with
  | VBool b => negb b
  | VInt z => z =? 0
  | VFloat f => float_is_zero f
  | _ => false
  end.

(** Lookup in the items of a dict. *)
Fixpoint assoc (k : string) (d : list (string * value)) : option value :=
  match d with
  | [] => None
  | (k', v) :: d' => if String.eqb k k' then Some v else assoc k d'
  end.

(** [o.get(k)]: [None] for a missing key, [AttributeError] when [o] is not
    a dict (none of the other JSON images has a [get] attribute). *)
Definition get (o : value) (k : string) : result value :=
  match o with
  | VDict d => Ok (default VNone (assoc k d))
  | _ => Raise AttributeError
  end.

(** [o.get(k, dflt)] *)
Definition get_default (o : value) (k : string) (dflt : value) : result value :=
  match o with
  | VDict d => Ok (default dflt (assoc k d))
  | _ => Raise AttributeError
  end.

(** ** Timestamps *)

(** A [datetime] is the number of microseconds since 0001-01-01 00:00:00,
    the smallest one Python represents; the largest is
    9999-12-31 23:59:59.999999, and arithmetic that leaves the range raises
    [OverflowError]. *)
Definition datetime := Z.

Definition DAY : Z := 86400000000.
Definition DT_MAX : Z := 3652059 * DAY - 1.

Definition valid_dt (t : datetime) : Prop := 0 <= t <= DT_MAX.

(** [t + timedelta(...)] *)
Definition dt_add (t : datetime) (d : Z) : result datetime :=
  if (0 <=? t + d) && (t + d <=? DT_MAX) then Ok (t + d) else Raise OverflowError.

Definition microsecond (t : datetime) : Z := t mod 1000000.

Record DateWindow : Set := { win_start : datetime; win_end : datetime }.

Definition digit (d : Z) : ascii := ascii_of_N (Z.to_N (48 + d)).

(** [f"{ms:03d}"] for [0 <= ms < 1000] *)
Definition pad3 (ms : Z) : string :=
  String (digit (ms / 100)) (String (digit (ms / 10 mod 10)) (String (digit (ms mod 10)) EmptyString)).

(** The number of windows still to visit, the measure of the loop. *)
Definition remaining_windows (end_ cur : datetime) : nat :=
  Z.to_nat ((end_ - cur + DAY - 1) / DAY).

Lemma dt_add_day (cur c1 : datetime) :
  dt_add cur DAY = Ok c1 -> c1 = cur + DAY /\ cur + DAY <= DT_MAX.
Proof.
  unfold dt_add.
  destruct (0 <=? cur + DAY) eqn:H0; simpl; [|discriminate].
  destruct (cur + DAY <=? DT_MAX) eqn:H1; [|discriminate].
  intros [= <-]. split; [reflexivity | lia].
Qed.

Lemma remaining_windows_decrease (end_ cur : datetime) :
  cur < end_ ->
  (remaining_windows end_ (Z.min (cur + DAY) end_) < remaining_windows end_ cur)%nat.
Proof.
  intros Hlt. unfold remaining_windows.
  assert (HD : DAY = 86400000000) by reflexivity.
  assert (Hnn : 0 <= (end_ - Z.min (cur + DAY) end_ + DAY - 1) / DAY)
    by (apply Z.div_pos; lia).
  assert (Hdec : (end_ - Z.min (cur + DAY) end_ + DAY - 1) / DAY
                 < (end_ - cur + DAY - 1) / DAY).
  { destruct (Z.min_spec (cur + DAY) end_) as [[_ ->]|[_ ->]].
    - replace (end_ - cur + DAY - 1)
        with ((end_ - (cur + DAY) + DAY - 1) + 1 * DAY) by lia.
      rewrite Z.div_add by lia. lia.
    - replace (end_ - end_ + DAY - 1) with (DAY - 1) by lia.
      rewrite Z.div_small by lia.
      apply Z.div_str_pos. lia. }
  lia.
Qed.

Section FetchOrders.

(** [dt.strftime("%Y-%m-%d %H:%M:%S.")], the calendar rendering of the
    C library. *)
Variable strftime : datetime -> string.

(** [get_deliveries(token, url, org_id, s, e)] for the token, address
    and organisation of the run. *)
Variable get_deliveries : string -> string -> result (list value).

Definition format_dt (dt : datetime) : string :=
  let ms := microsecond dt / 1000 in
  (strftime dt ++ pad3 ms)%string.

(** The [while cur < end] loop of [fetch_orders].  Next to [all_orders]
    it records [calls], the windows [(cur, nxt)] for which the
    collaborator was asked. *)
Equations? fetch_loop (end_ cur : datetime) (all_orders : list value)
    (calls : list DateWindow) : result (list value) * list DateWindow
    by wf (remaining_windows end_ cur) lt :=
  fetch_loop end_ cur all_orders calls with Z_lt_dec cur end_ => {
    | right _ => (Ok all_orders, calls);
    | left _ with inspect (dt_add cur DAY) => {
      | exist _ (Raise e) _ => (Raise e, calls);
      | exist _ (Ok c1) Hadd =>
          let nxt := Z.min c1 end_ in
          let s := format_dt cur in
          let e := format_dt nxt in
          let calls' := calls ++ [{| win_start := cur; win_end := nxt |}] in
          match get_deliveries s e with
          | Ok batch => fetch_loop end_ nxt (all_orders ++ batch) calls'
          | Raise HTTPError => fetch_loop end_ nxt all_orders calls'
          | Raise ex => (Raise ex, calls')
          end } }.
Proof.
  all: apply dt_add_day in Hadd as [-> _]; subst nxt;
    now apply remaining_windows_decrease.
Qed.

(** [fetch_orders] after the two [strptime] calls and with the reading
    of the clock, [datetime.now()], passed in as [now]. *)
Definition fetch_orders (start end_ now : datetime)
    : result (list value) * list DateWindow :=
  let end_ := if now <? end_ then now else end_ in
  let cur := start in
  fetch_loop end_ cur [] [].

(** The call made for a window, and what it adds to [all_orders]. *)
Definition call (w : DateWindow) : result (list value) :=
  get_deliveries (format_dt (win_start w)) (format_dt (win_end w)).

Definition batch_of (w : DateWindow) : list value :=
  match call w with
  | Ok batch => batch
  | Raise _ => []
  end.

(** The outcomes after which the loop goes on: a batch, or the one
    exception class the [except] clause names. *)
Definition goes_on (r : result (list value)) : Prop :=
  match r with
  | Ok _ => True
  | Raise ex => ex = HTTPError
  end.

End FetchOrders.

(** The windows the loop visits when nothing interrupts it: the values of
    [(cur, nxt)] of its successive iterations. *)
Equations? windows (end_ cur : datetime) : list DateWindow
    by wf (remaining_windows end_ cur) lt :=
  windows end_ cur with Z_lt_dec cur end_ => {
    | right _ => [];
    | left _ =>
        let nxt := Z.min (cur + DAY) end_ in
        {| win_start := cur; win_end := nxt |} :: windows end_ nxt }.
Proof. subst nxt. now apply remaining_windows_decrease. Qed.

Definition in_window (t : datetime) (w : DateWindow) : Prop :=
  win_start w <= t < win_end w.

(** [chain a ws b]: the windows [ws] follow one another from [a] to [b]. *)
Fixpoint chain (a : datetime) (ws : list DateWindow) (b : datetime) : Prop :=
  match ws with
  | [] => a = b
  | w :: ws' => win_start w = a /\ chain (win_end w) ws' b
  end.

(** ** The phone pattern *)

(** The fragment of Python's regular expressions that [PHONE_PATTERN]
    is written in. *)
Inductive regex : Set :=
| Eps
| Lit (c : ascii)
| Digit
| Cat (r1 r2 : regex)
| Alt (r1 r2 : regex)
| NotAhead (r : regex)
| Repeat (n : nat) (r : regex)
| Bol
| Eol.

(** *** Characters *)

(** The pattern is a [str] pattern and the phones are [str] values, so
    the matcher goes through them character by character, where a
    character is a Unicode code point.  A string holds the UTF-8 encoding
    of the text: a character is one to four bytes of it. *)

(** The number of bytes of the character that starts with the byte
    [b0]; 0 when no character starts with it. *)
Definition width (b0 : ascii) : nat :=
  let n0 := N_of_ascii b0 in
  if (n0 <? 128)%N then 1
  else if (n0 <? 192)%N then 0
  else if (n0 <? 224)%N then 2
  else if (n0 <? 240)%N then 3
  else if (n0 <? 248)%N then 4
  else 0.

(** The six bits that a byte [10xxxxxx] carries. *)
Definition continuation (b : ascii) : option N :=
  let n := N_of_ascii b in
  if (128 <=? n)%N && (n <? 192)%N then Some (n - 128)%N else None.

(** The code point of which [p] is the encoding, in the shortest form
    only; the surrogates have one, as a [str] can hold them. *)
Definition code_point (p : list ascii) : option N :=
  match p with
  | [b0] =>
      let n0 := N_of_ascii b0 in
      if (n0 <? 128)%N then Some n0 else None
  | [b0; b1] =>
      let n0 := N_of_ascii b0 in
      if (192 <=? n0)%N && (n0 <? 224)%N then
        c1 ← continuation b1;
        let c := ((n0 - 192) * 64 + c1)%N in
        if (128 <=? c)%N then Some c else None
      else None
  | [b0; b1; b2] =>
      let n0 := N_of_ascii b0 in
      if (224 <=? n0)%N && (n0 <? 240)%N then
        c1 ← continuation b1;
        c2 ← continuation b2;
        let c := ((n0 - 224) * 4096 + c1 * 64 + c2)%N in
        if (2048 <=? c)%N then Some c else None
      else None
  | [b0; b1; b2; b3] =>
      let n0 := N_of_ascii b0 in
      if (240 <=? n0)%N && (n0 <? 248)%N then
        c1 ← continuation b1;
        c2 ← continuation b2;
        c3 ← continuation b3;
        let c := ((n0 - 240) * 262144 + c1 * 4096 + c2 * 64 + c3)%N in
        if (65536 <=? c)%N && (c <=? 1114111)%N then Some c else None
      else None
  | _ => None
  end.

(** The first character of [s], as its code point, and what follows
    it. *)
Definition next_char (s : list ascii) : option (N * list ascii) :=
  match s with
  | [] => None
  | b0 :: _ => c ← code_point (take (width b0) s); Some (c, drop (width b0) s)
  end.

(** The first [n] characters of [s], and what follows them. *)
Fixpoint next_chars (n : nat) (s : list ascii) : option (list N * list ascii) :=
  match n with
  | O => Some ([], s)
  | S n' =>
      '(c, s1) ← next_char s;
      '(cs, s2) ← next_chars n' s1;
      Some (c :: cs, s2)
  end.

(** The characters of [s], each as a string of its own: what
    [for c in s] goes through and [s[i]] picks from.  [n] bounds their
    number; a byte that starts no character, which no [str] has, stands
    for itself. *)
Fixpoint characters_from (n : nat) (s : list ascii) : list string :=
  match n, s with
  | S n', b0 :: _ =>
      let w := Nat.max 1 (width b0) in
      String.string_of_list_ascii (take w s) :: characters_from n' (drop w s)
  | _, _ => []
  end.

Definition characters (s : string) : list string :=
  characters_from (String.length s) (String.list_ascii_of_string s).

(** The code points of [s], when [s] is the encoding of a text; [n]
    bounds their number. *)
Fixpoint decode_from (n : nat) (s : list ascii) : option (list N) :=
  match s, n with
  | [], _ => Some []
  | _ :: _, O => None
  | _ :: _, S n' => '(c, s1) ← next_char s; cs ← decode_from n' s1; Some (c :: cs)
  end.

Definition decode (s : string) : option (list N) :=
  decode_from (String.length s) (String.list_ascii_of_string s).

(** [a < b] on [str]: lexicographic on the code points. *)
Fixpoint code_points_lt (a b : list N) : bool :=
  match a, b with
  | _, [] => false
  | [], _ :: _ => true
  | x :: a', y :: b' => (x <? y)%N || (x =? y)%N && code_points_lt a' b'
  end.

(** The same on the bytes. *)
Fixpoint bytes_lt (a b : list ascii) : bool :=
  match a, b with
  | _, [] => false
  | [], _ :: _ => true
  | x :: a', y :: b' =>
      (N_of_ascii x <? N_of_ascii y)%N || (N_of_ascii x =? N_of_ascii y)%N && bytes_lt a' b'
  end.

(** The digit zero of each of the decimal systems of Unicode 14.0, the
    character database of Python 3.11: the characters of category [Nd]
    are these and the nine that follow each. *)
Definition decimal_zeros : list N :=
  [48; 1632; 1776; 1984; 2406; 2534; 2662; 2790; 2918; 3046; 3174; 3302; 3430;
   3558; 3664; 3792; 3872; 4160; 4240; 6112; 6160; 6470; 6608; 6784; 6800; 6992;
   7088; 7232; 7248; 42528; 43216; 43264; 43472; 43504; 43600; 44016; 65296;
   66720; 68912; 69734; 69872; 69942; 70096; 70384; 70736; 70864; 71248; 71360;
   71472; 71904; 72016; 72784; 73040; 73120; 92768; 92864; 93008; 120782;
   120792; 120802; 120812; 120822; 123200; 123632; 125264; 130032]%N.

(** [\d] in a [str] pattern without [re.ASCII]: a decimal digit of any
    script. *)
Definition is_decimal (c : N) : bool :=
  existsb (fun z => (z <=? c)%N && (c <? z + 10)%N) decimal_zeros.

(** One of the ten ASCII digits, the digits of the specification. *)
Definition is_digit (c : ascii) : bool :=
  (48 <=? Z.of_N (N_of_ascii c)) && (Z.of_N (N_of_ascii c) <=? 57).

(** Where [$] matches without [re.MULTILINE]: at the end of the string
    and just before a newline that ends the string. *)
Definition at_end (s : list ascii) : bool :=
  match s with
  | [] => true
  | [c] => Ascii.eqb c "010"
  | _ => false
  end.

(** Backtracking matcher: [rmatch r i s k] tries [r] at offset [i], where
    [s] is what is left of the subject, and hands every way to match it
    to the continuation [k].  The literals of the pattern are ASCII
    characters, which are one byte each, and no byte of another
    character; [\d] takes one character, of whatever length. *)
Fixpoint rmatch (r : regex) (i : nat) (s : list ascii)
    (k : nat -> list ascii -> bool) : bool :=
  match r with
  | Eps => k i s
  | Lit c =>
      match s with
      | x :: s' => Ascii.eqb x c && k (S i) s'
      | [] => false
      end
  | Digit =>
      match next_char s with
      | Some (c, s') => is_decimal c && k (S i) s'
      | None => false
      end
  | Cat r1 r2 => rmatch r1 i s (fun i' s' => rmatch r2 i' s' k)
  | Alt r1 r2 => rmatch r1 i s k || rmatch r2 i s k
  | NotAhead r1 => negb (rmatch r1 i s (fun _ _ => true)) && k i s
  | Repeat n r1 =>
      (fix rep (n : nat) (i : nat) (s : list ascii) : bool :=
         match n with
         | O => k i s
         | S n' => rmatch r1 i s (fun i' s' => rep n' i' s')
         end) n i s
  | Bol => Nat.eqb i 0 && k i s
  | Eol => at_end s && k i s
  end.

(** [pattern.match(s)]: a match that starts at offset 0. *)
Definition re_match (r : regex) (s : string) : bool :=
  rmatch r 0 (String.list_ascii_of_string s) (fun _ _ => true).

(** A run of literal characters, and an alternation [s1|s2|...] of such
    runs. *)
Fixpoint lits (s : string) : regex :=
  match s with
  | EmptyString => Eps
  | String c s' => Cat (Lit c) (lits s')
  end.

Fixpoint alts (l : list string) : regex :=
  match l with
  | [] => NotAhead Eps
  | s :: l' => Alt (lits s) (alts l')
  end.

Definition operator_codes : list string :=
  ["39"; "50"; "63"; "66"; "67"; "68"; "73"; "91"; "92"; "93"; "95"; "96";
   "97"; "98"; "99"]%string.

Definition repeated_suffixes : list string :=
  ["0000000"; "1111111"; "2222222"; "3333333"; "4444444"; "5555555";
   "6666666"; "7777777"; "8888888"; "9999999"]%string.

(** [^\+380(39|...|99)(?!0000000|...|9999999)\d{7}$] *)
Definition PHONE_PATTERN : regex :=
  Cat Bol
 (Cat (lits "+380")
 (Cat (alts operator_codes)
 (Cat (NotAhead (alts repeated_suffixes))
 (Cat (Repeat 7 Digit)
      Eol)))).

(** [d] is [n] decimal digits, of whatever script. *)
Definition decimal_digits (n : nat) (d : string) : bool :=
  match next_chars n (String.list_ascii_of_string d) with
  | Some (cs, []) => forallb is_decimal cs
  | _ => false
  end.

(** A string of ASCII characters only. *)
Definition is_ascii (s : string) : bool :=
  forallb (fun b => (N_of_ascii b <? 128)%N) (String.list_ascii_of_string s).

(** The valid phones as the specification describes them: [+380], one
    of the operator codes, and seven digits that are not one digit seven
    times. *)
Definition well_formed_phone (s : string) : Prop :=
  exists op d,
    s = ("+380" ++ op ++ d)%string /\
    op ∈ operator_codes /\
    String.length d = 7%nat /\
    forallb is_digit (String.list_ascii_of_string d) = true /\
    (d ∉ repeated_suffixes).

(** ** The summary *)

Record SummaryRecord : Set := {
  total : nat;
  no_client : nat;
  no_phone : nat;
  invalid : list string;
  inv_count : nat;
  zero : nat;
  unique : nat;
  dup : list (string * nat)
}.

(** The local variables of [summarize] that its loop updates. *)
Record Locals : Set := {
  l_phones : list string;
  l_invalid : list string;
  l_no_client : nat;
  l_no_phone : nat;
  l_zero : nat
}.

Definition locals0 : Locals :=
  {| l_phones := []; l_invalid := []; l_no_client := 0; l_no_phone := 0;
     l_zero := 0 |}.

(** The body of [for o in orders].  [PHONE_PATTERN.match(ph)] raises
    [TypeError] when [ph] is not a string, so only strings ever stay in
    [phones] and [invalid]. *)
Definition summarize_body (st : Locals) (o : value) : result Locals :=
  order ← get o "order";
  let od := if truthy order then order else o in
  customer ← get od "customer";
  if negb (truthy customer) then
    Ok {| l_phones := l_phones st; l_invalid := l_invalid st;
          l_no_client := l_no_client st + 1; l_no_phone := l_no_phone st;
          l_zero := l_zero st |}
  else
    ph ← get od "phone";
    if negb (truthy ph) then
      Ok {| l_phones := l_phones st; l_invalid := l_invalid st;
            l_no_client := l_no_client st; l_no_phone := l_no_phone st + 1;
            l_zero := l_zero st |}
    else
      match ph with
      | VStr p =>
          let phones := l_phones st ++ [p] in
          let invalid :=
            if negb (re_match PHONE_PATTERN p) then l_invalid st ++ [p]
            else l_invalid st in
          sum ← get_default od "sum" (VInt 0);
          let zero := if eq_zero sum then (l_zero st + 1)%nat else l_zero st in
          Ok {| l_phones := phones; l_invalid := invalid;
                l_no_client := l_no_client st; l_no_phone := l_no_phone st;
                l_zero := zero |}
      | _ => Raise TypeError
      end.

(** [for x in l: body] over the loop's variables. *)
Fixpoint for_each {S A : Type} (body : S -> A -> result S) (st : S) (l : list A)
    : result S :=
  match l with
  | [] => Ok st
  | x :: l' => st' ← body st x; for_each body st' l'
  end.

(** [Counter(phones)]: a dict from each phone to the number of its
    occurrences, keys in the order of their first occurrence. *)
Fixpoint counter_add (p : string) (cnt : list (string * nat)) : list (string * nat) :=
  match cnt with
  | [] => [(p, 1%nat)]
  | (q, c) :: cnt' =>
      if String.eqb p q then (q, S c) :: cnt' else (q, c) :: counter_add p cnt'
  end.

Definition Counter (phones : list string) : list (string * nat) :=
  fold_left (fun cnt p => counter_add p cnt) phones [].

(** The strict order of [str]: lexicographic on the codes of the
    characters, which is the lexicographic order of the bytes of their
    UTF-8 encodings ([str_lt_code_points] below). *)
Definition str_lt : relation string := strict String.le.

(** [sorted(set(l))] *)
Definition sorted_set (l : list string) : list string :=
  merge_sort String.le (elements (list_to_set l : gset string)).

Definition summarize (orders : list value) : result SummaryRecord :=
  st ← for_each summarize_body locals0 orders;
  let cnt := Counter (l_phones st) in
  let dup := filter (fun pc => (1 < snd pc)%nat) cnt in
  Ok {| total := length orders;
        no_client := l_no_client st;
        no_phone := l_no_phone st;
        invalid := sorted_set (l_invalid st);
        inv_count := length (l_invalid st);
        zero := l_zero st;
        unique := length cnt;
        dup := dup |}.

(** ** The summary, as the specification describes it *)

(** The value of a field, absent ([None]) when the key is missing. *)
Definition field (od : value) (k : string) : value :=
  match od with
  | VDict d => default VNone (assoc k d)
  | _ => VNone
  end.

Definition is_dict (v : value) : bool :=
  match v with
  | VDict _ => true
  | _ => false
  end.

(** The record that is classified: the value of [order] when that field
    holds a truthy value, the record itself otherwise. *)
Definition view (o : value) : value :=
  if truthy (field o "order") then field o "order" else o.

(** "[sum] is exactly 0 (missing treated as 0)" *)
Definition sum_is_zero (od : value) : bool :=
  match od with
  | VDict d =>
      match assoc "sum" d with
      | None => true
      | Some v => eq_zero v
      end
  | _ => false
  end.

Inductive class : Set :=
| NoClient
| NoPhone
| Considered (phone : string) (zero_sum : bool).

Definition has_customer (od : value) : bool := truthy (field od "customer").
Definition has_phone (od : value) : bool := truthy (field od "phone").

(** The three cases of the specification, for a record already
    unwrapped; [None] for one that is not a JSON object or whose phone is
    neither absent nor a string. *)
Definition classify_record (od : value) : option class :=
  if negb (is_dict od) then None
  else if negb (has_customer od) then Some NoClient
  else if negb (has_phone od) then Some NoPhone
  else
    match field od "phone" with
    | VStr p => Some (Considered p (sum_is_zero od))
    | _ => None
    end.

Definition classify (o : value) : option class :=
  if is_dict o then classify_record (view o) else None.

(** The unwrapping in which the [order] field wins whenever the key is
    there, whatever it holds. *)
Definition order_if_present (o : value) : value :=
  match o with
  | VDict d =>
      match assoc "order" d with
      | Some v => v
      | None => o
      end
  | _ => o
  end.

Definition phone_of (o : value) : option string :=
  match classify o with
  | Some (Considered p _) => Some p
  | _ => None
  end.

(** The phones of the orders that have both a customer and a phone, with
    repetitions, in the order of the orders. *)
Definition phones_considered (orders : list value) : list string :=
  omap phone_of orders.

Definition phone_valid (p : string) : Prop := re_match PHONE_PATTERN p = true.

#[export] Instance phone_valid_dec (p : string) : Decision (phone_valid p).
Proof. unfold phone_valid. apply _. Defined.

Fixpoint count {A : Type} (f : A -> bool) (l : list A) : nat :=
  match l with
  | [] => 0
  | x :: l' => ((if f x then 1 else 0) + count f l')%nat
  end.

Definition is_no_client (o : value) : bool :=
  match classify o with Some NoClient => true | _ => false end.
Definition is_no_phone (o : value) : bool :=
  match classify o with Some NoPhone => true | _ => false end.
Definition is_zero_sum (o : value) : bool :=
  match classify o with Some (Considered _ z) => z | _ => false end.

(** The data model of the specification: an order is a JSON object, the
    value of a truthy [order] field is one too, and [phone] is a string
    or absent. *)
Definition well_typed (o : value) : Prop :=
  is_dict o = true /\ is_dict (view o) = true /\
  match field (view o) "phone" with
  | VStr _ | VNone => True
  | _ => False
  end.

(** What one iteration does to the variables of the loop. *)
Definition record (st : Locals) (c : class) : Locals :=
  match c with
  | NoClient =>
      {| l_phones := l_phones st; l_invalid := l_invalid st;
         l_no_client := l_no_client st + 1; l_no_phone := l_no_phone st;
         l_zero := l_zero st |}
  | NoPhone =>
      {| l_phones := l_phones st; l_invalid := l_invalid st;
         l_no_client := l_no_client st; l_no_phone := l_no_phone st + 1;
         l_zero := l_zero st |}
  | Considered p z =>
      {| l_phones := l_phones st ++ [p];
         l_invalid := if negb (re_match PHONE_PATTERN p) then l_invalid st ++ [p]
                      else l_invalid st;
         l_no_client := l_no_client st; l_no_phone := l_no_phone st;
         l_zero := if z then (l_zero st + 1)%nat else l_zero st |}
  end.

(** ** [summarize] on the heap *)

(** The same function with the objects it works on kept in a store, to
    see what it writes: a list or a dict is an object with an identity,
    and a variable or an item that holds one holds a reference to it. *)
Definition loc := positive.

Inductive pyval : Set :=
| PNone
| PBool (b : bool)
| PInt (z : Z)
| PFloat (f : spec_float)
| PStr (s : string)
| PRef (l : loc).

Inductive pyobj : Set :=
| OList (items : list pyval)
| ODict (items : list (string * pyval)).

Abbreviation heap := (gmap loc pyobj).

(** A statement: it reads and writes the heap, and returns or raises;
    [None] when a loop in it was not given steps enough. *)
Definition M (A : Type) : Type := heap -> option (result A * heap).

Definition m_ret {A : Type} (a : A) : M A := fun h => Some (Ok a, h).

Definition m_raise {A : Type} (e : exn) : M A := fun h => Some (Raise e, h).

Definition m_bind {A B : Type} (m : M A) (k : A -> M B) : M B :=
  fun h =>
    match m h with
    | Some (Ok a, h') => k a h'
    | Some (Raise e, h') => Some (Raise e, h')
    | None => None
    end.

(** A look at the heap that changes nothing. *)
Definition m_read {A : Type} (f : heap -> A) : M A := fun h => Some (Ok (f h), h).

Notation "'do' x <- m ; k" := (m_bind m (fun x => k))
  (at level 10, x name, m at level 100, k at level 200).

(** [[]]: a new, empty list. *)
Definition new_list : M loc :=
  fun h => let l := fresh (dom h) in Some (Ok l, <[l := OList []]> h).

(** [l.append(v)] *)
Definition append (l : loc) (v : pyval) : M unit :=
  fun h =>
    match h !! l with
    | Some (OList items) => Some (Ok tt, <[l := OList (items ++ [v])]> h)
    | _ => Some (Raise AttributeError, h)
    end.

Fixpoint passoc (k : string) (d : list (string * pyval)) : option pyval :=
  match d with
  | [] => None
  | (k', v) :: d' => if String.eqb k k' then Some v else passoc k d'
  end.

(** [o.get(k, dflt)]; [o.get(k)] is [o.get(k, None)]. *)
Definition h_get (o : pyval) (k : string) (dflt : pyval) : M pyval :=
  fun h =>
    match o with
    | PRef l =>
        match h !! l with
        | Some (ODict d) => Some (Ok (default dflt (passoc k d)), h)
        | _ => Some (Raise AttributeError, h)
        end
    | _ => Some (Raise AttributeError, h)
    end.

(** [bool(v)] *)
Definition truthy_in (h : heap) (v : pyval) : bool :=
  match v with
  | PNone => false
  | PBool b => b
  | PInt z => negb (z =? 0)
  | PFloat f => negb (float_is_zero f)
  | PStr s => negb (String.eqb s EmptyString)
  | PRef l =>
      match h !! l with
      | Some (OList []) | Some (ODict []) => false
      | _ => true
      end
  end.

Definition h_truthy (v : pyval) : M bool := m_read (fun h => truthy_in h v).

Definition p_eq_zero (v : pyval) : bool :=
  match v with
  | PBool b => negb b
  | PInt z => z =? 0
  | PFloat f => float_is_zero f
  | _ => false
  end.

(** The counters of [summarize]: [no_client], [no_phone] and [zero]. *)
Record Counters : Set := {
  c_no_client : nat;
  c_no_phone : nat;
  c_zero : nat
}.

(** The body of the loop, with [phones] and [invalid] the two lists the
    function created. *)
Definition summarize_body_h (phones invalid : loc) (c : Counters) (o : pyval)
    : M Counters :=
  do order <- h_get o "order" PNone;
  do t <- h_truthy order;
  let od := if t then order else o in
  do customer <- h_get od "customer" PNone;
  do t <- h_truthy customer;
  if negb t then
    m_ret {| c_no_client := c_no_client c + 1; c_no_phone := c_no_phone c;
             c_zero := c_zero c |}
  else
    do ph <- h_get od "phone" PNone;
    do t <- h_truthy ph;
    if negb t then
      m_ret {| c_no_client := c_no_client c; c_no_phone := c_no_phone c + 1;
               c_zero := c_zero c |}
    else
      do _ <- append phones ph;
      match ph with
      | PStr p =>
          do _ <- (if negb (re_match PHONE_PATTERN p) then append invalid ph
                   else m_ret tt);
          do sum <- h_get od "sum" (PInt 0);
          m_ret {| c_no_client := c_no_client c; c_no_phone := c_no_phone c;
                   c_zero := if p_eq_zero sum then (c_zero c + 1)%nat else c_zero c |}
      | _ => m_raise TypeError
      end.

(** [for o in orders: body], as the list iterator does it: at each step
    it looks up the item at its index in the list as it is then.  Only a
    list is iterated, which is what [main] passes. *)
Fixpoint for_in {S : Type} (steps : nat) (orders : loc) (i : nat)
    (body : S -> pyval -> M S) (st : S) : M S :=
  match steps with
  | O => fun _ => None
  | Datatypes.S steps' => fun h =>
      match h !! orders with
      | Some (OList items) =>
          match items !! i with
          | None => Some (Ok st, h)
          | Some o => m_bind (body st o) (for_in steps' orders (Datatypes.S i) body) h
          end
      | _ => Some (Raise TypeError, h)
      end
  end.

(** [len(l)] *)
Definition len (h : heap) (l : loc) : nat :=
  match h !! l with
  | Some (OList items) => length items
  | Some (ODict items) => length items
  | None => 0%nat
  end.

(** The strings of a list of the heap. *)
Definition strings_of (h : heap) (l : loc) : list string :=
  match h !! l with
  | Some (OList items) =>
      omap (fun v => match v with PStr s => Some s | _ => None end) items
  | _ => []
  end.

(** [summarize(orders)], for [orders] the list that [main] collected.
    The loop is given one step more than the list is long when the
    function is entered.  The summary is returned by value. *)
Definition summarize_h (orders : loc) : M SummaryRecord :=
  do steps <- m_read (fun h => Datatypes.S (len h orders));
  do phones <- new_list;
  do invalid <- new_list;
  let c0 := {| c_no_client := 0; c_no_phone := 0; c_zero := 0 |} in
  do c <- for_in steps orders 0 (summarize_body_h phones invalid) c0;
  do cnt <- m_read (fun h => Counter (strings_of h phones));
  let dup := filter (fun pc => (1 < snd pc)%nat) cnt in
  do total <- m_read (fun h => len h orders);
  do invalid_sorted <- m_read (fun h => sorted_set (strings_of h invalid));
  do inv_count <- m_read (fun h => len h invalid);
  m_ret {| total := total;
           no_client := c_no_client c;
           no_phone := c_no_phone c;
           invalid := invalid_sorted;
           inv_count := inv_count;
           zero := c_zero c;
           unique := length cnt;
           dup := dup |}.

(** [frames P m]: the statement [m] ends, and writes no location outside
    of [P]. *)
Definition frames {A : Type} (P : loc -> Prop) (m : M A) : Prop :=
  forall h, exists r h', m h = Some (r, h') /\ forall l, ~ P l -> h' !! l = h !! l.

(** [repr h v p]: in the heap [h], the value [p] stands for the JSON
    value [v]. *)
Fixpoint repr (h : heap) (v : value) (p : pyval) {struct v} : Prop :=
  match v, p with
  | VNone, PNone => True
  | VBool b, PBool b' => b = b'
  | VInt z, PInt z' => z = z'
  | VFloat f, PFloat f' => f = f'
  | VStr s, PStr s' => s = s'
  | VList vs, PRef l =>
      exists ps, h !! l = Some (OList ps) /\
        (fix all (vs : list value) (ps : list pyval) : Prop :=
           match vs, ps with
           | [], [] => True
           | v :: vs', p :: ps' => repr h v p /\ all vs' ps'
           | _, _ => False
           end) vs ps
  | VDict d, PRef l =>
      exists pd, h !! l = Some (ODict pd) /\
        (fix all (d : list (string * value)) (pd : list (string * pyval)) : Prop :=
           match d, pd with
           | [], [] => True
           | (k, v) :: d', (k', p) :: pd' => k = k' /\ repr h v p /\ all d' pd'
           | _, _ => False
           end) d pd
  | _, _ => False
  end.

(** What the variables of the loop of [summarize] and those of the same
    loop on the heap have to do with each other, for [h0] the heap at
    the call and [phones] and [invalid] the two lists created. *)
Definition related (h0 : heap) (phones invalid : loc)
    (st : Locals) (c : Counters) (h : heap) : Prop :=
  h0 ⊆ h /\
  h0 !! phones = None /\ h0 !! invalid = None /\ phones <> invalid /\
  h !! phones = Some (OList (PStr <$> l_phones st)) /\
  h !! invalid = Some (OList (PStr <$> l_invalid st)) /\
  c_no_client c = l_no_client st /\
  c_no_phone c = l_no_phone st /\
  c_zero c = l_zero st.

(** ** Test data *)

Definition phone1 : string := "+380501234567".

Definition newline : string := String "010" EmptyString.

(** The four orders of the example of the specification, as it writes
    them: the customers are empty objects. *)
Definition example_orders : list value :=
  [ VDict [("customer", VNone)];
    VDict [("customer", VDict []); ("phone", VNone)];
    VDict [("customer", VDict []); ("phone", VStr phone1); ("sum", VInt 0)];
    VDict [("customer", VDict []); ("phone", VStr phone1); ("sum", VInt 10)] ]%string.

(** The same orders around another customer. *)
Definition example_orders_with (customer : value) : list value :=
  [ VDict [("customer", VNone)];
    VDict [("customer", customer); ("phone", VNone)];
    VDict [("customer", customer); ("phone", VStr phone1); ("sum", VInt 0)];
    VDict [("customer", customer); ("phone", VStr phone1); ("sum", VInt 10)] ]%string.

Definition customer1 : value := VDict [("id", VStr "c1")]%string.

Definition order1 : value :=
  VDict [("customer", customer1); ("phone", VStr phone1); ("sum", VInt 10)]%string.

(** A number written with Arabic-Indic digits, and one with the same
    such digit seven times. *)
Definition phone_arabic : string := "+38050١٢٣٤٥٦٧".

Definition phone_arabic_repeated : string := "+38050١١١١١١١".

(** Orders with one invalid phone twice, another invalid phone, and valid
    phones. *)
Definition example_invalid_orders : list value :=
  [ VDict [("customer", customer1); ("phone", VStr "12345")];
    VDict [("customer", customer1); ("phone", VStr "+380501111111"); ("sum", VInt 0)];
    order1;
    VDict [("order", VDict [("customer", customer1); ("phone", VStr "12345")])];
    VDict [("customer", customer1); ("phone", VStr phone_arabic)] ]%string.

(** A record whose [order] field is there and empty. *)
Definition order_with_empty_wrapper : value :=
  VDict [("order", VDict []); ("customer", customer1); ("phone", VStr phone1);
         ("sum", VInt 10)]%string.

(** A stand-in for [strftime]: the number of the day, on three digits. *)
Definition day_stamp (t : datetime) : string := (pad3 (t / DAY) ++ ".")%string.

(** Collaborators that fail for the window that starts on day 0 and
    return one order for any other. *)
Definition refused_on_day0 (s e : string) : result (list value) :=
  if String.eqb s "000.000" then Raise HTTPError else Ok [order1].

Definition unreachable_on_day0 (s e : string) : result (list value) :=
  if String.eqb s "000.000" then Raise ConnectionError else Ok [order1].

(** A heap with a list of two orders that share their customer. *)
Definition example_heap : heap :=
  list_to_map
    [ (1%positive, OList [PRef 2%positive; PRef 3%positive]);
      (2%positive, ODict [("customer", PRef 4%positive); ("phone", PStr phone1);
                          ("sum", PInt 0)]);
      (3%positive, ODict [("order", PRef 5%positive)]);
      (4%positive, ODict [("id", PStr "c1")]);
      (5%positive, ODict [("customer", PRef 4%positive); ("phone", PStr "12345")]) ]%string.

(** ** The requests to the API *)

(** A request as [requests.post] and [requests.get] send it: the
    address, the JSON document of the body, if any, and the headers. *)
Inductive method : Set := GET | POST.

Record request : Type := {
  req_method : method;
  req_url : string;
  req_json : option value;
  req_headers : list (string * string)
}.

(** The answer: its status and, when the body is a JSON document, the
    image of that document. *)
Record response : Type := {
  status_code : Z;
  content : option value
}.

(** [r.raise_for_status()]: [HTTPError] for a 4xx or a 5xx status. *)
Definition raise_for_status (r : response) : result unit :=
  if (400 <=? status_code r) && (status_code r <? 600) then Raise HTTPError
  else Ok tt.

(** [r.json()] *)
Definition json (r : response) : result value :=
  match content r with
  | Some v => Ok v
  | None => Raise JSONDecodeError
  end.

(** [iter(v)], what [for x in v] and [l += v] go through: the items of a
    list, the keys of a dict, the characters of a string; the other
    values are not iterable. *)
Definition iter (v : value) : result (list value) :=
  match v with
  | VList l => Ok l
  | VDict d => Ok (map (fun kv => VStr (fst kv)) d)
  | VStr s => Ok (map VStr (characters s))
  | _ => Raise TypeError
  end.

(** What can end a run besides the exceptions above: the exceptions of
    the setup stage and of subscripts, and the exit of the interpreter
    with a message.  A failure is named by the class that is raised:
    [ValueError] is the one that [strptime] and [int] raise themselves;
    the [JSONDecodeError] of [requests], which Python derives from
    [ValueError], is [Exn JSONDecodeError].  No [except] clause of the
    program names [ValueError], so the course of a run does not depend
    on this kinship; [Fail ValueError] stands for the exception of these
    two calls, not for every instance of the class. *)
Inductive failure : Set :=
| Exn (e : exn)
| RuntimeError
| KeyError
| IndexError
| ValueError
| SystemExit (msg : string).

Inductive outcome (A : Type) : Type :=
| Done (a : A)
| Fail (f : failure).
Arguments Done {A} a.
Arguments Fail {A} f.

#[export] Instance outcome_bind : MBind outcome := fun A B k m =>
  match m with
  | Done a => k a
  | Fail f => Fail f
  end.
#[export] Instance outcome_ret : MRet outcome := fun A a => Done a.

Definition lift {A : Type} (r : result A) : outcome A :=
  match r with
  | Ok a => Done a
  | Raise e => Fail (Exn e)
  end.

Section Api.

(** The server and the network, as one call of [requests] sees them. *)
Variable http : request -> result response.

(** [format(v, "")], what an f-string puts for [{v}]. *)
Variable fmt : value -> string.

Definition bearer (token : value) : string * string :=
  ("Authorization", "Bearer " ++ fmt token)%string.

Definition json_content : string * string := ("Content-Type", "application/json")%string.

Definition token_request (login url : string) : request :=
  {| req_method := POST; req_url := url;
     req_json := Some (VDict [("apiLogin", VStr login)]%string);
     req_headers := [json_content] |}.

Definition get_access_token (login url : string) : outcome value :=
  r ← lift (http (token_request login url));
  _ ← lift (raise_for_status r);
  data ← lift (json r);
  token ← lift (get data "token");
  if negb (truthy token) then Fail RuntimeError else Done token.

Definition organizations_request (token : value) (url : string) : request :=
  {| req_method := GET; req_url := url; req_json := None;
     req_headers := [bearer token] |}.

Definition get_organizations (token : value) (url : string) : result value :=
  r ← http (organizations_request token url);
  _ ← raise_for_status r;
  data ← json r;
  get_default data "organizations" (VList []).

Definition deliveries_request (token : value) (url : string) (org_id : value)
    (start end_ : string) : request :=
  let payload :=
    VDict [("organizationIds", VList [org_id]);
           ("deliveryDateFrom", VStr start);
           ("deliveryDateTo", VStr end_);
           ("statuses", VList [VStr "Closed"])]%string in
  {| req_method := POST; req_url := url; req_json := Some payload;
     req_headers := [bearer token; json_content] |}.

(** [orders += batch.get("orders", [])] *)
Definition add_batch (orders : list value) (batch : value) : result (list value) :=
  more ← get_default batch "orders" (VList []);
  items ← iter more;
  Ok (orders ++ items).

(** A batch whose [orders] are a list, or missing. *)
Definition orders_of_batch (batch : value) (orders : list value) : Prop :=
  exists d, batch = VDict d /\
    (assoc "orders" d = Some (VList orders) \/ assoc "orders" d = None /\ orders = []).

Definition get_deliveries (token : value) (url : string) (org_id : value)
    (start end_ : string) : result (list value) :=
  r ← http (deliveries_request token url org_id start end_);
  _ ← raise_for_status r;
  data ← json r;
  batches ← get_default data "ordersByOrganizations" (VList []);
  batches ← iter batches;
  for_each add_batch [] batches.

End Api.

(** What [get_deliveries] does with the document of the answer: the
    statements after [data = r.json()]. *)
Definition flatten (data : value) : result (list value) :=
  batches ← get_default data "ordersByOrganizations" (VList []);
  batches ← iter batches;
  for_each add_batch [] batches.


(** The orders that the collection gets for a window: none from an
    answer with an error status, those of the batches from a document of
    the form above. *)
Definition window_orders (http : request -> result response) (req : request)
    (orders : list value) : Prop :=
  exists r, http req = Ok r /\
    (400 <= status_code r < 600 /\ orders = [] \/
     ~ 400 <= status_code r < 600 /\
     exists d, content r = Some (VDict d) /\
       (assoc "ordersByOrganizations" d = None /\ orders = [] \/
        exists batches oss,
          assoc "ordersByOrganizations" d = Some (VList batches) /\
          Forall2 orders_of_batch batches oss /\ orders = concat oss)).

(** *** A server for the examples *)

Definition example_document : value :=
  VDict [("correlationId", VStr "c1");
         ("ordersByOrganizations",
          VList [VDict [("organizationId", VStr "org1");
                        ("orders", VList [order1; order1])];
                 VDict [("organizationId", VStr "org2")]])]%string.

Definition example_org1 : value := VDict [("id", VStr "org1"); ("name", VStr "One")]%string.

Definition example_org2 : value := VDict [("id", VStr "org2")]%string.

Definition example_orgs : list value := [example_org1; example_org2].

Definition example_organizations : value := VList example_orgs.

(** It answers by the address alone. *)
Definition example_server (req : request) : result response :=
  if String.eqb (req_url req) "token" then
    Ok {| status_code := 200; content := Some (VDict [("token", VStr "t1")]%string) |}
  else if String.eqb (req_url req) "no-token" then
    Ok {| status_code := 200; content := Some (VDict [("token", VStr EmptyString)]%string) |}
  else if String.eqb (req_url req) "orgs" then
    Ok {| status_code := 200;
          content := Some (VDict [("organizations", example_organizations)]%string) |}
  else if String.eqb (req_url req) "deliveries" then
    Ok {| status_code := 200; content := Some example_document |}
  else if String.eqb (req_url req) "null" then
    Ok {| status_code := 200;
          content := Some (VDict [("ordersByOrganizations", VNone)]%string) |}
  else if String.eqb (req_url req) "down" then Raise ConnectionError
  else Ok {| status_code := 404; content := None |}.

(** A stand-in for [format]: a string as it is. *)
Definition example_fmt (v : value) : string :=
  match v with
  | VStr s => s
  | _ => "?"
  end.

(** ** The terminal *)

(** A function that prints: its outcome and what it has written, one
    string for each call of [print] and for the prompt of [input].  Text
    outside of ASCII is written as its UTF-8 bytes. *)
Definition IO (A : Type) : Type := (outcome A * list string)%type.

#[export] Instance io_ret : MRet IO := fun A a => (Done a, []).
#[export] Instance io_bind : MBind IO := fun A B k m =>
  match m with
  | (Done a, out) => let (r, out') := k a in (r, out ++ out')
  | (Fail f, out) => (Fail f, out)
  end.

Definition print (s : string) : IO unit := (Done tt, [s]).

(** An expression that prints nothing. *)
Definition eval {A : Type} (m : outcome A) : IO A := (m, []).

(** [for i, x in enumerate(l, i): body] *)
Fixpoint for_enumerate {A : Type} (body : Z -> A -> IO unit) (i : Z) (l : list A)
    : IO unit :=
  match l with
  | [] => mret tt
  | x :: l' => _ ← body i x; for_enumerate body (i + 1) l'
  end.

(** ** Subscripts *)

(** [o[k]] for a string [k]: only a dict has string keys. *)
Definition getitem (o : value) (k : string) : outcome value :=
  match o with
  | VDict d =>
      match assoc k d with
      | Some v => Done v
      | None => Fail KeyError
      end
  | _ => Fail (Exn TypeError)
  end.

(** The item of a sequence at the index [idx], counted from the end when
    [idx] is negative. *)
Definition list_index {A : Type} (l : list A) (idx : Z) : option A :=
  let n := Z.of_nat (length l) in
  let i := if idx <? 0 then idx + n else idx in
  if (0 <=? i) && (i <? n) then l !! Z.to_nat i else None.

(** [o[idx]] for an integer [idx]: an item of a list, a character of a
    string; a dict from JSON has no integer key. *)
Definition subscript (o : value) (idx : Z) : outcome value :=
  match o with
  | VList l =>
      match list_index l idx with
      | Some v => Done v
      | None => Fail IndexError
      end
  | VStr s =>
      match list_index (characters s) idx with
      | Some c => Done (VStr c)
      | None => Fail IndexError
      end
  | VDict _ => Fail KeyError
  | _ => Fail (Exn TypeError)
  end.

(** [s.split(sep)] for a separator of one ASCII character. *)
Fixpoint split (sep : ascii) (s : string) : list string :=
  match s with
  | EmptyString => [EmptyString]
  | String c s' =>
      if Ascii.eqb c sep then EmptyString :: split sep s'
      else
        match split sep s' with
        | p :: ps => String c p :: ps
        | [] => [String c EmptyString]
        end
  end.

(** ** The choice of the organisations *)

Section SelectOrgs.

(** [format(v, "")], what an f-string puts for [{v}]. *)
Variable fmt : value -> string.

(** [int(p.strip())]; [None] when it raises [ValueError]. *)
Variable int_of : string -> option Z.

(** The line of the listing for the organisation [o]. *)
Definition org_line (i : Z) (o : value) : outcome string :=
  name ← lift (get o "name");
  shown ← (if truthy name then Done name else getitem o "id");
  id ← getitem o "id";
  Done (" " ++ fmt (VInt i) ++ ". " ++ fmt shown ++ " (" ++ fmt id ++ ")")%string.

(** The body of the listing loop. *)
Definition show_org (i : Z) (o : value) : IO unit :=
  line ← eval (org_line i o);
  print line.

(** The body of the [try]: [int(p.strip()) - 1] and [orgs[idx]]. *)
Definition pick (orgs : value) (p : string) : outcome value :=
  match int_of p with
  | None => Fail ValueError
  | Some k => subscript orgs (k - 1)
  end.

(** The [for p in inp.split(',')] loop: what [sel] holds after it. *)
Definition selection (orgs : value) (inp : string) : list value :=
  fold_left
    (fun sel p =>
       match pick orgs p with
       | Done o => sel ++ [o]
       | Fail _ => sel
       end)
    (split "," inp) [].

(** [select_orgs(orgs)], for the line [inp] that [input] returns. *)
Definition select_orgs (orgs : value) (inp : string) : IO (list value) :=
  _ ← print (newline ++ "Организации:");
  os ← eval (lift (iter orgs));
  _ ← for_enumerate show_org 1 os;
  _ ← print "Выберите через запятую: ";
  let sel := selection orgs inp in
  if negb (match sel with [] => false | _ => true end) then
    eval (Fail (SystemExit "Ничего не выбрано"))
  else mret sel.

End SelectOrgs.

(** A stand-in for [int]: one decimal digit, with a sign or without. *)
Definition example_int (p : string) : option Z :=
  match p with
  | String c EmptyString =>
      if is_digit c then Some (Z.of_N (N_of_ascii c) - 48) else None
  | String "-" (String c EmptyString) =>
      if is_digit c then Some (48 - Z.of_N (N_of_ascii c)) else None
  | _ => None
  end.

(** An organisation that the listing can show: an object with an [id]. *)
Definition listed (o : value) : Prop :=
  match o with
  | VDict d => is_Some (assoc "id" d)
  | _ => False
  end.

#[export] Instance listed_dec (o : value) : Decision (listed o).
Proof. destruct o; simpl; apply _. Defined.

(** ** The report and the details *)

(** [for x in l: body] for a body that prints. *)
Fixpoint for_io {A : Type} (body : A -> IO unit) (l : list A) : IO unit :=
  match l with
  | [] => mret tt
  | x :: l' => _ ← body x; for_io body l'
  end.

(** The strings of a list that holds nothing else. *)
Fixpoint strs (l : list value) : option (list string) :=
  match l with
  | [] => Some []
  | VStr s :: l' => ss ← strs l'; Some (s :: ss)
  | _ => None
  end.

(** [sep.join(l)]: [TypeError] for an item that is not a string. *)
Definition join (sep : string) (l : list value) : outcome string :=
  match strs l with
  | Some ss => Done (String.concat sep ss)
  | None => Fail (Exn TypeError)
  end.

Definition FIELDS : list (string * string) :=
  [("number", "Номер");
   ("phone", "Телефон");
   ("status", "Статус");
   ("whenCreated", "Создан");
   ("whenConfirmed", "Подтвержден");
   ("whenPrinted", "Напечатан");
   ("whenCookingCompleted", "Готов");
   ("whenSended", "Отправлен");
   ("whenDelivered", "Доставлен");
   ("whenClosed", "Закрыт");
   ("sum", "Сумма");
   ("deliveryDuration", "Длительность (мин)");
   ("deliveryZone", "Зона");
   ("comment", "Комментарий")]%string.

Section Report.

(** [format(v, "")], what an f-string puts for [{v}]. *)
Variable fmt : value -> string.

(** [int(s.strip())]; [None] when it raises [ValueError]. *)
Variable int_of : string -> option Z.

Definition fmt_nat (n : nat) : string := fmt (VInt (Z.of_nat n)).

Definition report_org (o : value) : IO unit :=
  name ← eval (lift (get o "name"));
  id ← eval (getitem o "id");
  print (" - " ++ fmt name ++ " [" ++ fmt id ++ "]")%string.

Definition print_report (sumry : SummaryRecord) (frm to : string) (orgs : list value)
    : IO unit :=
  _ ← print (newline ++ "=== Отчет " ++ frm ++ " — " ++ to ++ " ===")%string;
  _ ← for_io report_org orgs;
  _ ← print ("Всего: " ++ fmt_nat (total sumry)
             ++ ", без клиента: " ++ fmt_nat (no_client sumry)
             ++ ", без телефона: " ++ fmt_nat (no_phone sumry))%string;
  _ ← print ("Нулевых сумм: " ++ fmt_nat (zero sumry)
             ++ ", уникальных тел: " ++ fmt_nat (unique sumry))%string;
  _ ← print ("Неверных номеров: " ++ fmt_nat (inv_count sumry))%string;
  _ ← for_io (fun tel => print ("  ! " ++ tel)%string) (invalid sumry);
  _ ← print ("Дубли (>1): " ++ fmt_nat (length (dup sumry)))%string;
  for_io (fun pc => print ("  * " ++ fst pc ++ ": " ++ fmt_nat (snd pc))%string)
    (dup sumry).

(** The bodies of the loops of [print_details]. *)
Definition show_field (od : value) (kl : string * string) : IO unit :=
  val ← eval (lift (get od (fst kl)));
  print (snd kl ++ ": " ++ fmt val)%string.

Definition show_item (it : value) : IO unit :=
  product ← eval (getitem it "product");
  name ← eval (getitem product "name");
  qty ← eval (getitem it "amount");
  total ← eval (getitem it "resultSum");
  print (" - " ++ fmt name ++ " x" ++ fmt qty ++ " = " ++ fmt total)%string.

Definition show_discount (d : value) : IO unit :=
  discount_type ← eval (getitem d "discountType");
  name ← eval (getitem discount_type "name");
  sum ← eval (getitem d "sum");
  print ("Скидка: " ++ fmt name ++ " " ++ fmt sum)%string.

Definition print_details (obj : value) : IO unit :=
  order ← eval (lift (get obj "order"));
  let od := if truthy order then order else VDict [] in
  _ ← print (newline ++ "=== Детали ===")%string;
  _ ← for_io (show_field od) FIELDS;
  cust ← eval (lift (get od "customer"));
  _ ← (if truthy cust then
         name ← eval (lift (get cust "name"));
         surname ← eval (lift (get cust "surname"));
         id ← eval (lift (get cust "id"));
         print ("Клиент: " ++ fmt name ++ " " ++ fmt surname
                ++ " (id=" ++ fmt id ++ ")")%string
       else mret tt);
  dp ← eval (lift (get od "deliveryPoint"));
  _ ← (if truthy dp then
         addr ← eval (lift (get_default dp "address" (VDict [])));
         street ← eval (lift (get_default addr "street" (VDict [])));
         street ← eval (lift (get street "name"));
         house ← eval (lift (get addr "house"));
         flat ← eval (lift (get addr "flat"));
         full_addr ← eval (join " " (List.filter truthy [street; house; flat]));
         print ("Адрес: " ++ full_addr)%string
       else mret tt);
  _ ← print "Позиции:";
  items ← eval (lift (get_default od "items" (VList [])));
  items ← eval (lift (iter items));
  _ ← for_io show_item items;
  pays ← eval (lift (get od "payments"));
  _ ← (if truthy pays then
         p ← eval (subscript pays 0);
         payment_type ← eval (getitem p "paymentType");
         name ← eval (getitem payment_type "name");
         sum ← eval (getitem p "sum");
         print ("Оплата: " ++ fmt name ++ " " ++ fmt sum)%string
       else mret tt);
  discs ← eval (lift (get od "discounts"));
  if truthy discs then
    discs ← eval (lift (iter discs));
    for_io show_discount discs
  else mret tt.

(** [try: body except: pass]: whatever [body] raises is dropped, what it
    has written stays. *)
Definition try_pass (body : IO unit) : IO unit :=
  let (_, out) := body in (Done tt, out).

(** The body of the listing loop of [select_and_show]. *)
Definition show_order (i : Z) (o : value) : IO unit :=
  order ← eval (lift (get o "order"));
  let od := if truthy order then order else o in
  number ← eval (lift (get od "number"));
  created ← eval (lift (get od "whenCreated"));
  print (fmt (VInt i) ++ ". №" ++ fmt number ++ " — " ++ fmt created)%string.

(** [select_and_show(orders)], for the line [inp] that [input] returns
    when it is called. *)
Definition select_and_show (orders : list value) (inp : string) : IO unit :=
  if negb (match orders with [] => false | _ => true end) then mret tt
  else
    _ ← for_enumerate show_order 1 orders;
    _ ← print "Детали №: ";
    try_pass
      (k ← eval (match int_of inp with
                 | Some k => Done k
                 | None => Fail ValueError
                 end);
       o ← eval (subscript (VList orders) (k - 1));
       print_details o).

End Report.

(** ** The run *)

(** The arguments of the command line, as [parse_args] returns them. *)
Record Args : Set := {
  args_login : string;
  args_f : string;
  args_t : string;
  args_token_url : string;
  args_orgs_url : string;
  args_deliv_url : string
}.

Section Main.

(** The server and the network during the [n]-th call of a function
    that sends requests: the call for the token, that for the
    organisations, then one call of [fetch_orders] for each selected
    organisation. *)
Variable http : nat -> request -> result response.
Variable fmt : value -> string.
Variable int_of : string -> option Z.

(** [datetime.strptime(s, '%Y-%m-%d %H:%M:%S.%f')]; [None] when it raises
    [ValueError]. *)
Variable strptime : string -> option datetime.
Variable strftime : datetime -> string.

(** [datetime.now()] in the [i]-th call of [fetch_orders]. *)
Variable clock : nat -> datetime.

Definition parse (s : string) : outcome datetime :=
  match strptime s with
  | Some t => Done t
  | None => Fail ValueError
  end.

(** [fetch_orders(token, url, org_id, frm, to)] as [main] calls it for
    the [i]-th selected organisation: the two [strptime], the clock, and
    the loop with [get_deliveries] as its collaborator. *)
Definition fetch_orders_for (i : nat) (token : value) (url : string) (org_id : value)
    (frm to : string) : outcome (list value) :=
  start ← parse frm;
  end_ ← parse to;
  lift (fst (fetch_orders strftime (get_deliveries (http (2 + i)) fmt token url org_id)
               start end_ (clock i))).

(** The [for o in sel] loop of [main], from the [i]-th organisation on. *)
Fixpoint collect (token : value) (args : Args) (i : nat) (sel : list value)
    (all_orders : list value) : outcome (list value) :=
  match sel with
  | [] => Done all_orders
  | o :: sel' =>
      org_id ← getitem o "id";
      more ← fetch_orders_for i token (args_deliv_url args) org_id
               (args_f args) (args_t args);
      collect token args (S i) sel' (all_orders ++ more)
  end.

(** [main()] for the arguments [args] and the lines [answer1] and
    [answer2] that the two calls of [input] return. *)
Definition main (args : Args) (answer1 answer2 : string) : IO unit :=
  token ← eval (get_access_token (http 0) (args_login args) (args_token_url args));
  orgs ← eval (lift (get_organizations (http 1) fmt token (args_orgs_url args)));
  sel ← select_orgs fmt int_of orgs answer1;
  all_orders ← eval (collect token args 0 sel []);
  sumry ← eval (lift (summarize all_orders));
  _ ← print_report fmt sumry (args_f args) (args_t args) sel;
  select_and_show fmt int_of all_orders answer2.

End Main.

(** *** A run for the examples *)

Definition example_args : Args :=
  {| args_login := "login"; args_f := "from"; args_t := "to";
     args_token_url := "token"; args_orgs_url := "orgs";
     args_deliv_url := "deliveries" |}.

(** A stand-in for [strptime] that reads two strings. *)
Definition example_strptime (s : string) : option datetime :=
  if String.eqb s "from" then Some 0
  else if String.eqb s "to" then Some (2 * DAY)
  else None.

Definition example_main (args : Args) (answer1 answer2 : string) : IO unit :=
  main (fun _ => example_server) example_fmt example_int example_strptime day_stamp
    (fun _ => 10 * DAY) args answer1 answer2.

(** The two orders of [example_heap] as JSON values, and a heap that
    holds them with nothing shared. *)
Definition example_heap_orders : list value :=
  [ VDict [("customer", customer1); ("phone", VStr phone1); ("sum", VInt 0)];
    VDict [("order", VDict [("customer", customer1); ("phone", VStr "12345")])] ]%string.

Definition example_heap_unshared : heap :=
  list_to_map
    [ (7%positive, OList [PRef 2%positive; PRef 3%positive]);
      (2%positive, ODict [("customer", PRef 4%positive); ("phone", PStr phone1);
                          ("sum", PInt 0)]);
      (3%positive, ODict [("order", PRef 5%positive)]);
      (4%positive, ODict [("id", PStr "c1")]);
      (5%positive, ODict [("customer", PRef 6%positive); ("phone", PStr "12345")]);
      (6%positive, ODict [("id", PStr "c1")]) ]%string.

(** * Properties *)

(** ** The collection loop *)

Lemma windows_eq (end_ cur : datetime) :
  windows end_ cur =
  if Z_lt_dec cur end_ then
    {| win_start := cur; win_end := Z.min (cur + DAY) end_ |}
      :: windows end_ (Z.min (cur + DAY) end_)
  else [].
Proof.
  rewrite windows_equation_1.
  destruct (Z_lt_dec cur end_); reflexivity.
Qed.

(** Induction along the loop: from a later [cur] to an earlier one. *)
Lemma loop_ind (end_ : datetime) (P : datetime -> Prop) :
  (forall cur, (cur < end_ -> P (Z.min (cur + DAY) end_)) -> P cur) ->
  forall cur, P cur.
Proof.
  intros Hstep cur.
  remember (remaining_windows end_ cur) as n eqn:Hn.
  revert cur Hn.
  induction n as [n IH] using lt_wf_ind.
  intros cur ->. apply Hstep. intros Hlt.
  eapply IH; [|reflexivity].
  now apply remaining_windows_decrease.
Qed.

Lemma windows_chain (end_ cur : datetime) :
  cur <= end_ -> chain cur (windows end_ cur) end_.
Proof.
  pattern cur. apply (loop_ind end_). clear cur.
  intros cur IH Hle. rewrite windows_eq.
  destruct (Z_lt_dec cur end_) as [Hlt|Hge]; simpl.
  - split; [reflexivity|]. apply IH; lia.
  - lia.
Qed.

Lemma windows_span (end_ cur : datetime) :
  Forall (fun w => win_start w < win_end w <= win_start w + DAY) (windows end_ cur).
Proof.
  pattern cur. apply (loop_ind end_). clear cur.
  intros cur IH. rewrite windows_eq.
  destruct (Z_lt_dec cur end_) as [Hlt|Hge]; [|constructor].
  constructor; [|now apply IH].
  simpl. unfold DAY. lia.
Qed.

(** What a chain of non-empty windows is: a partition of [a, b). *)
Lemma chain_bounds (ws : list DateWindow) :
  forall a b, chain a ws b ->
  Forall (fun w => win_start w < win_end w) ws ->
  a <= b /\ Forall (fun w => a <= win_start w /\ win_end w <= b) ws.
Proof.
  induction ws as [|w ws IH]; simpl; intros a b Hc Hpos.
  - split; [lia | constructor].
  - destruct Hc as [<- Hc]. apply Forall_cons in Hpos as [Hw Hpos].
    destruct (IH _ _ Hc Hpos) as [Hle Hall].
    split; [lia|]. constructor; [lia|].
    eapply Forall_impl; [exact Hall|]. simpl. intros; lia.
Qed.

Lemma chain_cover (ws : list DateWindow) :
  forall a b, chain a ws b ->
  Forall (fun w => win_start w < win_end w) ws ->
  forall t, a <= t < b <-> exists w, w ∈ ws /\ in_window t w.
Proof.
  induction ws as [|w ws IH]; simpl; intros a b Hc Hpos t.
  - split; [lia|]. intros (w & Hin & _). inversion Hin.
  - destruct Hc as [<- Hc]. apply Forall_cons in Hpos as [Hw Hpos].
    destruct (chain_bounds _ _ _ Hc Hpos) as [Hle _].
    specialize (IH _ _ Hc Hpos t). split.
    + intros Ht. destruct (Z_lt_dec t (win_end w)) as [Hlt|Hge].
      * exists w. split; [left | unfold in_window; lia].
      * destruct IH as [IH _]. destruct IH as (w' & Hin & Hw'); [lia|].
        exists w'. split; [now right | assumption].
    + intros (w' & Hin & Hw'). apply elem_of_cons in Hin as [->|Hin].
      * unfold in_window in Hw'. lia.
      * destruct IH as [_ IH]. specialize (IH (ex_intro _ w' (conj Hin Hw'))). lia.
Qed.

Lemma chain_disjoint (ws : list DateWindow) :
  forall a b, chain a ws b ->
  Forall (fun w => win_start w < win_end w) ws ->
  forall t (i j : nat) w1 w2,
    ws !! i = Some w1 -> ws !! j = Some w2 ->
    in_window t w1 -> in_window t w2 -> i = j.
Proof.
  induction ws as [|w ws IH]; simpl; intros a b Hc Hpos t i j w1 w2 Hi Hj H1 H2.
  - discriminate.
  - destruct Hc as [<- Hc]. apply Forall_cons in Hpos as [Hw Hpos].
    destruct (chain_bounds _ _ _ Hc Hpos) as [_ Hall].
    rewrite Forall_forall in Hall.
    unfold in_window in *.
    destruct i as [|i], j as [|j]; simpl in *.
    + reflexivity.
    + injection Hi as ->. apply list_elem_of_lookup_2 in Hj.
      apply Hall in Hj. lia.
    + injection Hj as ->. apply list_elem_of_lookup_2 in Hi.
      apply Hall in Hi. lia.
    + f_equal. eapply IH; eauto.
Qed.

Lemma chain_adjacent (ws : list DateWindow) :
  forall a b (i : nat) w1 w2, chain a ws b ->
  ws !! i = Some w1 -> ws !! S i = Some w2 -> win_end w1 = win_start w2.
Proof.
  induction ws as [|w ws IH]; simpl; intros a b i w1 w2 Hc Hi Hj.
  - discriminate.
  - destruct Hc as [<- Hc]. destruct i as [|i]; simpl in *.
    + injection Hi as ->. destruct ws as [|w' ws]; [discriminate|].
      simpl in *. injection Hj as ->. symmetry. apply Hc.
    + eapply IH; eauto.
Qed.

Lemma chain_head (ws : list DateWindow) (a b : datetime) (w : DateWindow) :
  chain a ws b -> head ws = Some w -> win_start w = a.
Proof. destruct ws; simpl; [discriminate|]. intros [H _] [= <-]. exact H. Qed.

Lemma chain_last (ws : list DateWindow) :
  forall a b w, chain a ws b -> last ws = Some w -> win_end w = b.
Proof.
  induction ws as [|w0 ws IH]; simpl; intros a b w Hc Hl; [discriminate|].
  destruct Hc as [_ Hc]. destruct ws as [|w1 ws].
  - injection Hl as <-. exact Hc.
  - eapply IH; eauto.
Qed.

Section FetchOrdersFacts.

Variable strftime : datetime -> string.
Variable get_deliveries : string -> string -> result (list value).

Lemma fetch_orders_eq (start end_ now : datetime) :
  fetch_orders strftime get_deliveries start end_ now =
  fetch_loop strftime get_deliveries (Z.min end_ now) start [] [].
Proof.
  unfold fetch_orders. cbv zeta.
  destruct (Z.ltb_spec now end_); f_equal; lia.
Qed.

Local Abbreviation fetch_loop := (fetch_loop strftime get_deliveries).
Local Abbreviation fetch_orders := (fetch_orders strftime get_deliveries).
Local Abbreviation call := (call strftime get_deliveries).
Local Abbreviation batch_of := (batch_of strftime get_deliveries).

Lemma fetch_loop_eq (end_ cur : datetime) (all_orders : list value)
    (calls : list DateWindow) :
  fetch_loop end_ cur all_orders calls =
  if Z_lt_dec cur end_ then
    match dt_add cur DAY with
    | Raise e => (Raise e, calls)
    | Ok c1 =>
        let w := {| win_start := cur; win_end := Z.min c1 end_ |} in
        match call w with
        | Ok batch => fetch_loop end_ (win_end w) (all_orders ++ batch) (calls ++ [w])
        | Raise HTTPError => fetch_loop end_ (win_end w) all_orders (calls ++ [w])
        | Raise ex => (Raise ex, calls ++ [w])
        end
    end
  else (Ok all_orders, calls).
Proof.
  rewrite fetch_loop_equation_1.
  destruct (Z_lt_dec cur end_) as [Hlt|Hge]; simpl; [|reflexivity].
  unfold inspect.
  generalize (@eq_refl _ (dt_add cur DAY)).
  generalize (dt_add cur DAY) at 2 3.
  intros [c1|e] Heq; rewrite Heq; reflexivity.
Qed.

Lemma dt_add_day_ok (cur : datetime) :
  0 <= cur -> cur + DAY <= DT_MAX -> dt_add cur DAY = Ok (cur + DAY).
Proof.
  intros H0 H1. unfold dt_add.
  replace (0 <=? cur + DAY) with true by (symmetry; apply Z.leb_le; unfold DAY; lia).
  replace (cur + DAY <=? DT_MAX) with true by (symmetry; apply Z.leb_le; lia).
  reflexivity.
Qed.

(** When every call returns or raises [HTTPError], the loop visits all
    of [windows] and adds up the batches of the calls that returned. *)
Lemma fetch_loop_windows (end_ cur : datetime) :
  forall all_orders calls,
  0 <= cur -> end_ + DAY <= DT_MAX + 1 ->
  Forall (fun w => goes_on (call w)) (windows end_ cur) ->
  fetch_loop end_ cur all_orders calls =
  (Ok (all_orders ++ concat (map batch_of (windows end_ cur))),
   calls ++ windows end_ cur).
Proof.
  pattern cur. apply (loop_ind end_). clear cur.
  intros cur IH all_orders calls H0 Hmax Hgo.
  rewrite fetch_loop_eq. rewrite windows_eq in Hgo |- *.
  destruct (Z_lt_dec cur end_) as [Hlt|Hge].
  2: now rewrite !app_nil_r.
  specialize (IH Hlt).
  rewrite dt_add_day_ok by lia. cbv zeta.
  apply Forall_cons in Hgo as [Hw Hgo].
  assert (Hnxt : 0 <= Z.min (cur + DAY) end_) by (unfold DAY; lia).
  simpl map. simpl concat. unfold batch_of at 1.
  simpl win_end.
  destruct (call _) as [batch|ex].
  - rewrite IH by assumption.
    now rewrite <- !app_assoc.
  - simpl in Hw. subst ex.
    rewrite IH by assumption.
    now rewrite <- !app_assoc.
Qed.

(** An exception the [except] clause does not name leaves the loop at the
    first window whose call raises it. *)
Lemma fetch_loop_abort (end_ cur : datetime) :
  forall all_orders calls,
  0 <= cur -> end_ + DAY <= DT_MAX + 1 ->
  Exists (fun w => ~ goes_on (call w)) (windows end_ cur) ->
  exists ex w calls',
    fetch_loop end_ cur all_orders calls = (Raise ex, calls') /\
    w ∈ windows end_ cur /\ call w = Raise ex /\ ex <> HTTPError.
Proof.
  pattern cur. apply (loop_ind end_). clear cur.
  intros cur IH all_orders calls H0 Hmax Hex.
  rewrite fetch_loop_eq. rewrite windows_eq in Hex |- *.
  destruct (Z_lt_dec cur end_) as [Hlt|Hge]; [|inversion Hex].
  specialize (IH Hlt).
  rewrite dt_add_day_ok by lia. cbv zeta.
  assert (Hnxt : 0 <= Z.min (cur + DAY) end_) by (unfold DAY; lia).
  simpl win_end.
  set (w := {| win_start := cur; win_end := Z.min (cur + DAY) end_ |}) in *.
  assert (Hrec : forall acc, Exists (fun w => ~ goes_on (call w))
                   (windows end_ (Z.min (cur + DAY) end_)) ->
     exists ex w' calls',
       fetch_loop end_ (Z.min (cur + DAY) end_) acc (calls ++ [w]) = (Raise ex, calls') /\
       w' ∈ w :: windows end_ (Z.min (cur + DAY) end_) /\
       call w' = Raise ex /\ ex <> HTTPError).
  { intros acc Hex'.
    destruct (IH acc (calls ++ [w]) Hnxt Hmax Hex') as (ex & w' & calls' & Hr & Hin & Hc & Hne).
    exists ex, w', calls'. repeat split; try assumption. now right. }
  destruct (call w) as [batch|ex] eqn:Hcall.
  - apply Exists_cons in Hex as [Hbad|Hex].
    + rewrite Hcall in Hbad. simpl in Hbad. tauto.
    + now apply Hrec.
  - destruct (decide (ex = HTTPError)) as [->|Hne].
    + apply Exists_cons in Hex as [Hbad|Hex].
      * rewrite Hcall in Hbad. simpl in Hbad. tauto.
      * now apply Hrec.
    + exists ex, w, (calls ++ [w]).
      repeat split; [|left|assumption|assumption].
      destruct ex; try reflexivity. congruence.
Qed.

(** A loop that ends without an exception has gone through all of
    [windows]. *)
Lemma fetch_loop_ok_windows (end_ cur : datetime) :
  forall all_orders calls orders ws,
  fetch_loop end_ cur all_orders calls = (Ok orders, ws) ->
  ws = calls ++ windows end_ cur.
Proof.
  pattern cur. apply (loop_ind end_). clear cur.
  intros cur IH all_orders calls orders ws.
  rewrite fetch_loop_eq, windows_eq.
  destruct (Z_lt_dec cur end_) as [Hlt|Hge].
  2: { intros [= _ <-]. now rewrite app_nil_r. }
  specialize (IH Hlt).
  destruct (dt_add cur DAY) as [c1|e] eqn:Hadd; [|discriminate].
  apply dt_add_day in Hadd as [-> _]. cbv zeta. simpl win_end.
  destruct (call _) as [batch|ex].
  - intros Hrun. apply IH in Hrun. now rewrite Hrun, <- app_assoc.
  - destruct ex; try discriminate.
    intros Hrun. apply IH in Hrun. now rewrite Hrun, <- app_assoc.
Qed.

(** C1.  When [start] lies before the end clamped to [now], the windows
    that the loop of [fetch_orders] has asked for when it returns
    partition [start, min end now): the first starts at [start], each
    starts where the one before it ends, the last ends at the clamped
    end, none is empty or longer than 24 hours, and every instant of the
    range lies in exactly one of them.  And the loop does return when
    each call returns or raises [HTTPError] and the clock is a day or
    more before the last [datetime] there is. *)
Theorem fetch_orders_windows_partition (start end_ now : datetime) :
  start < Z.min end_ now ->
  (valid_dt start -> now + DAY <= DT_MAX ->
   (forall s e, goes_on (get_deliveries s e)) ->
   exists orders ws, fetch_orders start end_ now = (Ok orders, ws)) /\
  (forall orders ws,
    fetch_orders start end_ now = (Ok orders, ws) ->
    (exists w, head ws = Some w /\ win_start w = start) /\
    (exists w, last ws = Some w /\ win_end w = Z.min end_ now) /\
    (forall (i : nat) w1 w2,
        ws !! i = Some w1 -> ws !! S i = Some w2 -> win_end w1 = win_start w2) /\
    Forall (fun w => win_start w < win_end w <= win_start w + DAY) ws /\
    (forall t, start <= t < Z.min end_ now <-> exists w, w ∈ ws /\ in_window t w) /\
    (forall t (i j : nat) w1 w2,
        ws !! i = Some w1 -> ws !! j = Some w2 ->
        in_window t w1 -> in_window t w2 -> i = j)).
Proof.
  intros Hlt.
  set (e := Z.min end_ now) in *.
  split.
  { intros [Hs0 _] Hnow Hgo. rewrite fetch_orders_eq. fold e.
    rewrite fetch_loop_windows; [eauto | lia | subst e; lia |].
    apply Forall_forall. intros w _. apply Hgo. }
  intros orders ws Hrun.
  rewrite fetch_orders_eq in Hrun. fold e in Hrun.
  apply fetch_loop_ok_windows in Hrun. simpl in Hrun.
  assert (Hchain : chain start ws e) by (rewrite Hrun; apply windows_chain; lia).
  assert (Hspan := windows_span e start). rewrite <- Hrun in Hspan.
  assert (Hpos : Forall (fun w => win_start w < win_end w) ws).
  { eapply Forall_impl; [exact Hspan|]. simpl. intros; lia. }
  assert (Hne : ws <> []).
  { rewrite Hrun, windows_eq. destruct (Z_lt_dec start e); [discriminate | lia]. }
  split.
  { destruct ws as [|w ws']; [congruence|]. exists w. split; [reflexivity|].
    now apply (chain_head _ _ _ _ Hchain). }
  split.
  { destruct (last ws) as [w|] eqn:Hl.
    - exists w. split; [reflexivity|]. exact (chain_last _ _ _ _ Hchain Hl).
    - apply last_None in Hl. congruence. }
  split.
  { intros i w1 w2. now apply (chain_adjacent ws start e). }
  split; [exact Hspan|].
  split.
  - intros t. now apply chain_cover.
  - now apply (chain_disjoint ws start e).
Qed.

(** C9.  When [start] is not before the end clamped to [now], the loop
    body never runs: no window is asked for and [fetch_orders] returns
    the empty list of orders, raising nothing. *)
Theorem fetch_orders_empty_range (start end_ now : datetime) :
  Z.min end_ now <= start ->
  fetch_orders start end_ now = (Ok [], []).
Proof.
  intros Hle. rewrite fetch_orders_eq, fetch_loop_eq.
  destruct (Z_lt_dec _ _) as [Hlt|_]; [lia | reflexivity].
Qed.

(** C5, as the code has it.  A window whose call raises [HTTPError] adds
    no orders and the loop goes on: when no call raises anything else,
    the result is the batches of the calls that returned, in the order of
    the windows.  Any other exception of the collaborator, a failed
    connection or a timeout among them, is not caught: it leaves
    [fetch_orders] and no orders are returned. *)
Theorem fetch_orders_http_error_isolated (start end_ now : datetime) :
  valid_dt start -> now + DAY <= DT_MAX ->
  let ws := windows (Z.min end_ now) start in
  (Forall (fun w => goes_on (call w)) ws ->
   fetch_orders start end_ now = (Ok (concat (map batch_of ws)), ws)) /\
  (forall w ex, w ∈ ws -> call w = Raise ex -> ex <> HTTPError ->
   exists ex' w' calls,
     fetch_orders start end_ now = (Raise ex', calls) /\
     w' ∈ ws /\ call w' = Raise ex' /\ ex' <> HTTPError).
Proof.
  intros [Hs0 _] Hnow ws.
  split.
  - intros Hgo. rewrite fetch_orders_eq.
    rewrite fetch_loop_windows; [reflexivity | lia | lia | exact Hgo].
  - intros w ex Hin Hcall Hne. rewrite fetch_orders_eq.
    apply fetch_loop_abort; [lia | lia |].
    apply Exists_exists. exists w. split; [exact Hin|].
    rewrite Hcall. simpl. exact Hne.
Qed.

End FetchOrdersFacts.

Lemma goes_on_refused (s e : string) : goes_on (refused_on_day0 s e).
Proof. unfold refused_on_day0. destruct (String.eqb s "000.000"); simpl; auto. Qed.

Lemma fetch_orders_windows_partition_witness :
  0 < Z.min (2 * DAY + 5) (10 * DAY) /\
  valid_dt 0 /\ 10 * DAY + DAY <= DT_MAX /\
  exists orders ws,
    fetch_orders day_stamp refused_on_day0 0 (2 * DAY + 5) (10 * DAY) = (Ok orders, ws) /\
    Forall (fun w => win_start w < win_end w <= win_start w + DAY) ws.
Proof.
  assert (H0 : valid_dt 0) by (vm_compute; split; discriminate).
  assert (H1 : 10 * DAY + DAY <= DT_MAX) by (vm_compute; discriminate).
  assert (H2 : 0 < Z.min (2 * DAY + 5) (10 * DAY)) by (vm_compute; reflexivity).
  split; [exact H2|]. split; [exact H0|]. split; [exact H1|].
  destruct (fetch_orders_windows_partition day_stamp refused_on_day0
              0 (2 * DAY + 5) (10 * DAY) H2) as [Hreturns Hparts].
  destruct (Hreturns H0 H1 goes_on_refused) as (orders & ws & Hrun).
  exists orders, ws. split; [exact Hrun|].
  now destruct (Hparts orders ws Hrun) as (_ & _ & _ & Hspan & _).
Defined.

Lemma fetch_orders_empty_range_witness :
  Z.min 5 100 <= 7 /\
  fetch_orders day_stamp unreachable_on_day0 7 5 100 = (Ok [], []).
Proof.
  assert (H : Z.min 5 100 <= 7) by (vm_compute; discriminate).
  split; [exact H|].
  exact (fetch_orders_empty_range day_stamp unreachable_on_day0 7 5 100 H).
Defined.

(** A failed connection in the first of two windows: the second call
    would return an order, but the exception leaves [fetch_orders] and
    nothing is returned. *)
Lemma connection_error_is_not_swallowed :
  let w0 := {| win_start := 0; win_end := DAY |} in
  let w1 := {| win_start := DAY; win_end := 2 * DAY |} in
  windows (Z.min (2 * DAY) (10 * DAY)) 0 = [w0; w1] /\
  call day_stamp unreachable_on_day0 w0 = Raise ConnectionError /\
  call day_stamp unreachable_on_day0 w1 = Ok [order1] /\
  fetch_orders day_stamp unreachable_on_day0 0 (2 * DAY) (10 * DAY)
    = (Raise ConnectionError, [w0]) /\
  fetch_orders day_stamp unreachable_on_day0 0 (2 * DAY) (10 * DAY)
    <> (Ok [order1], [w0; w1]).
Proof. vm_compute. repeat split. discriminate. Qed.

Lemma fetch_orders_http_error_isolated_witness :
  let w0 := {| win_start := 0; win_end := DAY |} in
  let w1 := {| win_start := DAY; win_end := 2 * DAY |} in
  valid_dt 0 /\ 10 * DAY + DAY <= DT_MAX /\
  call day_stamp refused_on_day0 w0 = Raise HTTPError /\
  fetch_orders day_stamp refused_on_day0 0 (2 * DAY) (10 * DAY)
    = (Ok [order1], [w0; w1]).
Proof.
  intros w0 w1.
  assert (H0 : valid_dt 0) by (vm_compute; split; discriminate).
  assert (H1 : 10 * DAY + DAY <= DT_MAX) by (vm_compute; discriminate).
  split; [exact H0|]. split; [exact H1|]. split; [reflexivity|].
  destruct (fetch_orders_http_error_isolated day_stamp refused_on_day0
              0 (2 * DAY) (10 * DAY) H0 H1) as [Hok _].
  rewrite Hok.
  - vm_compute. reflexivity.
  - replace (windows (Z.min (2 * DAY) (10 * DAY)) 0) with [w0; w1]
      by (vm_compute; reflexivity).
    repeat constructor.
Defined.

(** ** The phone pattern *)

Local Abbreviation chars := String.list_ascii_of_string.

Lemma chars_app (s1 s2 : string) : chars (s1 ++ s2) = chars s1 ++ chars s2.
Proof. induction s1 as [|c s1 IH]; simpl; [reflexivity|]. now rewrite IH. Qed.

Lemma chars_inj (s1 s2 : string) : chars s1 = chars s2 -> s1 = s2.
Proof.
  intros H. rewrite <- (String.string_of_list_ascii_of_string s1), H.
  apply String.string_of_list_ascii_of_string.
Qed.

Lemma chars_length (s : string) : length (chars s) = String.length s.
Proof. induction s as [|c s IH]; simpl; [reflexivity|]. now rewrite IH. Qed.

Lemma string_app_assoc (s1 s2 s3 : string) :
  (s1 ++ (s2 ++ s3))%string = ((s1 ++ s2) ++ s3)%string.
Proof. apply chars_inj. rewrite !chars_app. apply app_assoc. Qed.

Lemma string_app_empty (s : string) : (s ++ EmptyString)%string = s.
Proof. apply chars_inj. rewrite chars_app. apply app_nil_r. Qed.

Lemma rmatch_lits (t : string) :
  forall i s k,
  rmatch (lits t) i s k = true <->
  exists s', s = chars t ++ s' /\ k (i + length (chars t))%nat s' = true.
Proof.
  induction t as [|c t IH]; intros i s k; simpl.
  - rewrite Nat.add_0_r. split; [eauto|]. now intros (s' & -> & H).
  - destruct s as [|x s].
    + split; [discriminate|]. intros (s' & [=] & _).
    + rewrite andb_true_iff, IH, Ascii.eqb_eq. split.
      * intros (-> & s' & -> & H). exists s'. split; [reflexivity|].
        now rewrite <- Nat.add_succ_comm.
      * intros (s' & [= -> ->] & H). split; [reflexivity|]. exists s'.
        split; [reflexivity|]. now rewrite Nat.add_succ_comm.
Qed.

Lemma rmatch_alts (l : list string) :
  forall i s k,
  rmatch (alts l) i s k = true <->
  exists t s', t ∈ l /\ s = chars t ++ s' /\ k (i + length (chars t))%nat s' = true.
Proof.
  induction l as [|t l IH]; intros i s k; simpl.
  - split; [discriminate|]. intros (t & s' & Hin & _). inversion Hin.
  - rewrite orb_true_iff, IH.
    change (rmatch (Cat (Lit ?c) ?r)) with (rmatch (lits (String c r))).
    split.
    + intros [H|(t' & s' & Hin & Hs & Hk)].
      * apply (rmatch_lits t) in H as (s' & Hs & Hk).
        exists t, s'. split; [left | now split].
      * exists t', s'. split; [now right | now split].
    + intros (t' & s' & Hin & Hs & Hk).
      apply elem_of_cons in Hin as [->|Hin].
      * left. apply (rmatch_lits t). eauto.
      * right. eauto 6.
Qed.

(** A byte is a decimal digit exactly when it is an ASCII digit. *)
Lemma is_decimal_byte (b : ascii) : is_decimal (N_of_ascii b) = is_digit b.
Proof. destruct b as [[] [] [] [] [] [] [] []]; vm_compute; reflexivity. Qed.

Lemma code_point_width (p : list ascii) (c : N) :
  code_point p = Some c -> exists b0 p', p = b0 :: p' /\ length p = width b0.
Proof.
  unfold code_point, width.
  destruct p as [|b0 [|b1 [|b2 [|b3 [|b4 p]]]]]; try discriminate;
    intros H; exists b0; eexists; (split; [reflexivity|]); simpl length;
    repeat match type of H with
           | context [(?a <=? ?b)%N] => destruct (N.leb_spec a b); simpl in H
           | context [(?a <? ?b)%N] => destruct (N.ltb_spec a b); simpl in H
           end; try discriminate;
    repeat match goal with
           | |- context [(?a <? ?b)%N] => destruct (N.ltb_spec a b)
           end; try reflexivity; lia.
Qed.

Lemma next_char_app (s s1 : list ascii) (c : N) :
  next_char s = Some (c, s1) -> exists p, s = p ++ s1 /\ code_point p = Some c.
Proof.
  destruct s as [|b0 s]; [discriminate|]. unfold next_char.
  destruct (code_point (take (width b0) (b0 :: s))) as [c'|] eqn:Hp; [|discriminate].
  intros [= <- <-]. exists (take (width b0) (b0 :: s)).
  split; [now rewrite take_drop | exact Hp].
Qed.

(** What follows a character does not change how it is read. *)
Lemma next_char_code_point (p t : list ascii) (c : N) :
  code_point p = Some c -> next_char (p ++ t) = Some (c, t).
Proof.
  intros Hp. destruct (code_point_width p c Hp) as (b0 & p' & -> & Hlen).
  change (next_char ((b0 :: p') ++ t))
    with (c ← code_point (take (width b0) ((b0 :: p') ++ t));
          Some (c, drop (width b0) ((b0 :: p') ++ t))).
  rewrite <- Hlen, take_app_length, drop_app_length, Hp. reflexivity.
Qed.

Lemma next_char_ascii (b : ascii) (t : list ascii) :
  (N_of_ascii b < 128)%N -> next_char (b :: t) = Some (N_of_ascii b, t).
Proof.
  intros Hb. apply (next_char_code_point [b] t). simpl.
  destruct (N.ltb_spec (N_of_ascii b) 128); [reflexivity | lia].
Qed.

Lemma next_chars_app (n : nat) :
  forall s s' cs,
  next_chars n s = Some (cs, s') <->
  exists d, s = d ++ s' /\ next_chars n d = Some (cs, []).
Proof.
  induction n as [|n IH]; intros s s' cs; simpl.
  - split.
    + intros [= <- <-]. exists []. auto.
    + intros (d & -> & [= <- ->]). reflexivity.
  - split.
    + destruct (next_char s) as [[c s1]|] eqn:Hc; simpl; [|discriminate].
      destruct (next_chars n s1) as [[cs1 s2]|] eqn:Hcs; simpl; [|discriminate].
      intros [= <- <-].
      apply next_char_app in Hc as (p & -> & Hp).
      apply IH in Hcs as (d & -> & Hd).
      exists (p ++ d). split; [now rewrite app_assoc|].
      rewrite (next_char_code_point p d c Hp). simpl. rewrite Hd. reflexivity.
    + intros (d & -> & Hd).
      destruct (next_char d) as [[c d1]|] eqn:Hc; simpl in Hd; [|discriminate].
      destruct (next_chars n d1) as [[cs1 d2]|] eqn:Hcs; simpl in Hd; [|discriminate].
      injection Hd as <- ->.
      apply next_char_app in Hc as (p & -> & Hp).
      rewrite <- app_assoc, (next_char_code_point p (d1 ++ s') c Hp). simpl.
      assert (Hn : next_chars n (d1 ++ s') = Some (cs1, s')).
      { apply IH. exists d1. auto. }
      rewrite Hn. reflexivity.
Qed.

Local Abbreviation ascii_bytes d :=
  (forallb (fun b => (N_of_ascii b <? 128)%N) d = true).

(** In ASCII a character is a byte. *)
Lemma next_chars_ascii (n : nat) :
  forall d cs, ascii_bytes d ->
  (next_chars n d = Some (cs, []) <-> length d = n /\ cs = map N_of_ascii d).
Proof.
  induction n as [|n IH]; intros d cs Hd; simpl.
  - split.
    + intros [= <- ->]. auto.
    + intros [Hlen ->]. apply nil_length_inv in Hlen. now subst d.
  - destruct d as [|b d].
    + simpl. split; [discriminate | intros [[=] _]].
    + simpl in Hd. apply andb_true_iff in Hd as [Hb Hd]. apply N.ltb_lt in Hb.
      rewrite (next_char_ascii b d Hb). simpl.
      destruct (next_chars n d) as [[cs1 d2]|] eqn:Hcs; simpl.
      * split.
        -- intros [= <- ->]. apply IH in Hcs as [<- ->]; auto.
        -- intros [[= Hlen] ->].
           assert (H : next_chars n d = Some (map N_of_ascii d, [])) by (apply IH; auto).
           congruence.
      * split; [discriminate|]. intros [[= Hlen] ->].
        assert (H : next_chars n d = Some (map N_of_ascii d, [])) by (apply IH; auto).
        congruence.
Qed.

Lemma forallb_is_decimal_bytes (d : list ascii) :
  forallb is_decimal (map N_of_ascii d) = forallb is_digit d.
Proof.
  induction d as [|b d IH]; simpl; [reflexivity|]. now rewrite is_decimal_byte, IH.
Qed.

(** Among ASCII strings, [n] decimal digits are [n] ASCII digits. *)
Lemma decimal_digits_ascii (n : nat) (d : string) :
  is_ascii d = true ->
  (decimal_digits n d = true <->
   String.length d = n /\ forallb is_digit (chars d) = true).
Proof.
  unfold is_ascii, decimal_digits. intros Hd.
  rewrite <- chars_length, <- forallb_is_decimal_bytes.
  pose proof (next_chars_ascii n (chars d)) as Hn.
  destruct (next_chars n (chars d)) as [[cs rest]|].
  - destruct rest as [|b rest].
    + destruct (proj1 (Hn cs Hd) eq_refl) as [Hlen ->]. tauto.
    + split; [discriminate|]. intros [Hlen _].
      assert (H : Some (cs, b :: rest) = Some (map N_of_ascii (chars d), []))
        by (apply Hn; auto).
      discriminate.
  - split; [discriminate|]. intros [Hlen _].
    assert (H : None = Some (map N_of_ascii (chars d), [])) by (apply Hn; auto).
    discriminate.
Qed.

Lemma rmatch_repeat_digit (n : nat) :
  forall i s k,
  rmatch (Repeat n Digit) i s k = true <->
  exists cs s', next_chars n s = Some (cs, s') /\ forallb is_decimal cs = true /\
                k (i + n)%nat s' = true.
Proof.
  induction n as [|n IH]; intros i s k.
  - simpl. rewrite Nat.add_0_r. split.
    + intros H. exists [], s. now repeat split.
    + now intros (cs & s' & [= <- <-] & _ & H).
  - change (rmatch (Repeat (S n) Digit) i s k)
      with (match next_char s with
            | Some (c, s') => is_decimal c && rmatch (Repeat n Digit) (S i) s' k
            | None => false
            end).
    change (next_chars (S n) s)
      with ('(c, s1) ← next_char s; '(cs, s2) ← next_chars n s1; Some (c :: cs, s2)).
    destruct (next_char s) as [[c s1]|]; cbn [mbind option_bind].
    2: { split; [discriminate | intros (cs & s' & [=] & _)]. }
    rewrite andb_true_iff, IH. split.
    + intros (Hc & cs & s' & Hcs & Hd & Hk).
      exists (c :: cs), s'. rewrite Hcs. cbn [mbind option_bind forallb].
      rewrite Hc, Hd.
      repeat split. now rewrite <- Nat.add_succ_comm.
    + intros (cs & s' & Hcs & Hd & Hk).
      destruct (next_chars n s1) as [[cs1 s2]|]; cbn [mbind option_bind] in Hcs;
        [|discriminate].
      injection Hcs as <- <-. simpl in Hd. apply andb_true_iff in Hd as [Hc Hd].
      split; [exact Hc|]. exists cs1, s2.
      repeat split; try assumption. now rewrite Nat.add_succ_comm.
Qed.

Lemma at_end_spec (s : list ascii) :
  at_end s = true <-> s = [] \/ s = ["010"%char].
Proof.
  destruct s as [|c [|c' s]]; simpl.
  - tauto.
  - rewrite Ascii.eqb_eq. split; [intros ->; now right | now intros [[=]|[= ->]]].
  - split; [discriminate | now intros [[=]|[=]]].
Qed.

Lemma repeated_suffixes_ascii (t : string) :
  t ∈ repeated_suffixes -> ascii_bytes (chars t) /\ length (chars t) = 7%nat.
Proof.
  intros Ht. unfold repeated_suffixes in Ht.
  repeat (apply elem_of_cons in Ht as [->|Ht]; [split; reflexivity|]).
  inversion Ht.
Qed.

(** What [PHONE_PATTERN] matches: [+380], an operator code, seven
    decimal digits that are not one ASCII digit seven times, and then the
    end of the string or one newline that ends it. *)
Lemma phone_pattern_spec (s : string) :
  re_match PHONE_PATTERN s = true <->
  exists op d tail,
    s = ("+380" ++ op ++ d ++ tail)%string /\
    op ∈ operator_codes /\
    decimal_digits 7 d = true /\
    (d ∉ repeated_suffixes) /\
    (tail = EmptyString \/ tail = newline).
Proof.
  unfold re_match, PHONE_PATTERN.
  change (rmatch (Cat Bol ?r) 0 ?s ?k) with (rmatch r 0 s k).
  change (rmatch (Cat (lits ?t) ?r) ?i ?s ?k)
    with (rmatch (lits t) i s (fun i' s' => rmatch r i' s' k)).
  rewrite rmatch_lits.
  split.
  - intros (s1 & Hs & H).
    change (rmatch (Cat (alts ?l) ?r) ?i ?s ?k)
      with (rmatch (alts l) i s (fun i' s' => rmatch r i' s' k)) in H.
    apply rmatch_alts in H as (op & s2 & Hop & Hs1 & H).
    change (rmatch (Cat (NotAhead ?a) ?r) ?i ?s ?k)
      with (negb (rmatch a i s (fun _ _ => true)) && rmatch r i s k) in H.
    apply andb_true_iff in H as [Hnot H].
    change (rmatch (Cat (Repeat ?n Digit) Eol) ?i ?s ?k)
      with (rmatch (Repeat n Digit) i s (fun i' s' => at_end s' && k i' s')) in H.
    apply rmatch_repeat_digit in H as (cs & s3 & Hcs & Hd & H).
    apply next_chars_app in Hcs as (d & Hs2 & Hcs).
    rewrite andb_true_r in H. apply at_end_spec in H.
    exists op, (String.string_of_list_ascii d), (String.string_of_list_ascii s3).
    split; [|split; [exact Hop|split; [|split]]].
    + apply chars_inj. rewrite !chars_app, !String.list_ascii_of_string_of_list_ascii.
      now rewrite Hs, Hs1, Hs2.
    + unfold decimal_digits.
      now rewrite String.list_ascii_of_string_of_list_ascii, Hcs.
    + intros Hin. apply negb_true_iff, not_true_iff_false in Hnot. apply Hnot.
      apply rmatch_alts. exists (String.string_of_list_ascii d), s3.
      split; [exact Hin|]. split; [|reflexivity].
      now rewrite String.list_ascii_of_string_of_list_ascii.
    + destruct H as [->| ->]; [now left | now right].
  - intros (op & d & tail & -> & Hop & Hd & Hrep & Htail).
    unfold decimal_digits in Hd.
    destruct (next_chars 7 (chars d)) as [[cs [|b rest]]|] eqn:Hcs; try discriminate.
    exists (chars (op ++ d ++ tail)). split; [now rewrite chars_app|].
    change (rmatch (Cat (alts ?l) ?r) ?i ?s ?k)
      with (rmatch (alts l) i s (fun i' s' => rmatch r i' s' k)).
    apply rmatch_alts. exists op, (chars (d ++ tail)).
    split; [exact Hop|]. split; [now rewrite chars_app|].
    assert (Hnext : next_chars 7 (chars (d ++ tail)) = Some (cs, chars tail)).
    { rewrite chars_app. apply next_chars_app. exists (chars d). auto. }
    change (rmatch (Cat (NotAhead ?a) ?r) ?i ?s ?k)
      with (negb (rmatch a i s (fun _ _ => true)) && rmatch r i s k).
    apply andb_true_iff. split.
    + apply negb_true_iff, not_true_iff_false. intros H.
      apply rmatch_alts in H as (t & s' & Ht & Hs & _).
      apply Hrep.
      destruct (repeated_suffixes_ascii t Ht) as [Hascii Hlen].
      assert (Ht7 : next_chars 7 (chars t ++ s') = Some (map N_of_ascii (chars t), s')).
      { apply next_chars_app. exists (chars t). split; [reflexivity|].
        now apply next_chars_ascii. }
      rewrite Hs, Ht7 in Hnext. injection Hnext as _ ->.
      rewrite chars_app in Hs. apply app_inv_tail in Hs.
      apply chars_inj in Hs. now subst t.
    + change (rmatch (Cat (Repeat ?n Digit) Eol) ?i ?s ?k)
        with (rmatch (Repeat n Digit) i s (fun i' s' => at_end s' && k i' s')).
      apply rmatch_repeat_digit. exists cs, (chars tail).
      split; [exact Hnext|]. split; [exact Hd|].
      rewrite andb_true_r. apply at_end_spec.
      destruct Htail as [->| ->]; [now left | now right].
Qed.

Lemma is_ascii_app (s1 s2 : string) :
  is_ascii (s1 ++ s2) = is_ascii s1 && is_ascii s2.
Proof. unfold is_ascii. now rewrite chars_app, forallb_app. Qed.

(** Among ASCII strings, those that [PHONE_PATTERN] matches are those of
    the form the specification gives and those followed by one
    newline. *)
Lemma phone_pattern_well_formed (s : string) :
  is_ascii s = true ->
  (re_match PHONE_PATTERN s = true <->
   well_formed_phone s \/
   exists s', s = (s' ++ newline)%string /\ well_formed_phone s').
Proof.
  intros Hs. rewrite phone_pattern_spec. unfold well_formed_phone. split.
  - intros (op & d & tail & -> & Hop & Hd & Hrep & Htail).
    assert (Hda : is_ascii d = true).
    { rewrite !is_ascii_app, !andb_true_iff in Hs. tauto. }
    apply (decimal_digits_ascii 7 d Hda) in Hd as [Hlen Hd].
    destruct Htail as [->| ->].
    + left. exists op, d. rewrite string_app_empty. tauto.
    + right. exists ("+380" ++ op ++ d)%string. split.
      * now rewrite !string_app_assoc.
      * exists op, d. tauto.
  - assert (Hdigits : forall d, String.length d = 7%nat ->
              forallb is_digit (chars d) = true -> decimal_digits 7 d = true).
    { intros d Hlen Hd. apply decimal_digits_ascii; [|auto].
      unfold is_ascii. clear Hlen. induction (chars d) as [|b l IH]; [reflexivity|].
      simpl in *. apply andb_true_iff in Hd as [Hb Hd]. rewrite (IH Hd), andb_true_r.
      unfold is_digit in Hb. apply andb_true_iff in Hb as [_ Hb].
      apply N.ltb_lt. lia. }
    intros [(op & d & -> & Hop & Hlen & Hd & Hrep)
           |(s' & -> & op & d & -> & Hop & Hlen & Hd & Hrep)].
    + exists op, d, EmptyString. rewrite string_app_empty. auto 6.
    + exists op, d, newline. rewrite !string_app_assoc. auto 6.
Qed.

(** C2.  The four numbers of the specification are judged as it says,
    but the match is not against the full string: [$] also matches
    before a newline that ends the string, so a valid number followed by
    a newline is accepted, which is not of the form the specification
    gives. *)
Theorem phone_pattern_accepts_trailing_newline :
  re_match PHONE_PATTERN (phone1 ++ newline) = true /\
  ~ well_formed_phone (phone1 ++ newline) /\
  re_match PHONE_PATTERN "+380501234567" = true /\
  re_match PHONE_PATTERN "+380501111111" = false /\
  re_match PHONE_PATTERN "+380001234567" = false /\
  re_match PHONE_PATTERN "380501234567" = false.
Proof.
  split; [vm_compute; reflexivity|].
  split; [|repeat split; vm_compute; reflexivity].
  intros (op & d & Hs & Hop & Hlen & _).
  apply (f_equal String.length) in Hs.
  rewrite <- !chars_length, !chars_app, !length_app, !chars_length, Hlen in Hs.
  unfold operator_codes in Hop.
  repeat (apply elem_of_cons in Hop as [->|Hop]; [discriminate|]).
  inversion Hop.
Qed.

(** ** Code points and bytes *)

Lemma N_of_ascii_inj (x y : ascii) : N_of_ascii x = N_of_ascii y -> x = y.
Proof.
  intros H. rewrite <- (ascii_N_embedding x), <- (ascii_N_embedding y). now rewrite H.
Qed.

Lemma compare_bytes_lt (a : string) :
  forall b, String.compare a b = Lt <-> bytes_lt (chars a) (chars b) = true.
Proof.
  induction a as [|x a IH]; intros [|y b]; simpl; try (split; (reflexivity || discriminate)).
  unfold Ascii.compare.
  destruct (N.compare_spec (N_of_ascii x) (N_of_ascii y)) as [Heq|Hlt|Hgt].
  - rewrite IH. destruct (N.ltb_spec (N_of_ascii x) (N_of_ascii y)); [lia|].
    destruct (N.eqb_spec (N_of_ascii x) (N_of_ascii y)); [|lia]. reflexivity.
  - destruct (N.ltb_spec (N_of_ascii x) (N_of_ascii y)); [|lia]. split; reflexivity.
  - destruct (N.ltb_spec (N_of_ascii x) (N_of_ascii y)); [lia|].
    destruct (N.eqb_spec (N_of_ascii x) (N_of_ascii y)); [lia|]. split; discriminate.
Qed.

Lemma str_lt_compare (a b : string) : str_lt a b <-> String.compare a b = Lt.
Proof.
  unfold str_lt, strict, String.le, String.leb.
  rewrite (String.compare_antisym b a).
  destruct (String.compare a b); simpl; split; try tauto; try discriminate.
Qed.

Lemma bytes_lt_app (p : list ascii) : forall a b, bytes_lt (p ++ a) (p ++ b) = bytes_lt a b.
Proof.
  induction p as [|x p IH]; intros a b; simpl; [reflexivity|].
  rewrite N.ltb_irrefl, N.eqb_refl. apply IH.
Qed.

Lemma bytes_lt_asym : forall a b, bytes_lt a b = true -> bytes_lt b a = false.
Proof.
  induction a as [|x a IH]; intros [|y b]; simpl; try (reflexivity || discriminate).
  destruct (N.ltb_spec (N_of_ascii x) (N_of_ascii y)),
           (N.ltb_spec (N_of_ascii y) (N_of_ascii x)),
           (N.eqb_spec (N_of_ascii x) (N_of_ascii y)),
           (N.eqb_spec (N_of_ascii y) (N_of_ascii x));
    simpl; try lia; try discriminate; try reflexivity. apply IH.
Qed.

Ltac code_point_cases H :=
  unfold code_point, continuation in H; cbn [mbind option_bind] in H;
  repeat match type of H with
         | context [(?a <=? ?b)%N] => destruct (N.leb_spec a b); cbn [andb mbind option_bind] in H
         | context [(?a <? ?b)%N] => destruct (N.ltb_spec a b); cbn [andb mbind option_bind] in H
         end; try discriminate; injection H as H.

(** The encoding is one to one. *)
Lemma code_point_inj (p q : list ascii) (c : N) :
  code_point p = Some c -> code_point q = Some c -> p = q.
Proof.
  intros Hp Hq.
  destruct p as [|p0 [|p1 [|p2 [|p3 [|p4 p]]]]]; try discriminate;
  destruct q as [|q0 [|q1 [|q2 [|q3 [|q4 q]]]]]; try discriminate;
  code_point_cases Hp; code_point_cases Hq;
  first [exfalso; lia | repeat f_equal; apply N_of_ascii_inj; lia].
Qed.

(** It keeps the order, whatever follows the characters. *)
Lemma code_point_lt (p q : list ascii) (c d : N) (t u : list ascii) :
  code_point p = Some c -> code_point q = Some d -> (c < d)%N ->
  bytes_lt (p ++ t) (q ++ u) = true.
Proof.
  intros Hp Hq Hlt.
  destruct p as [|p0 [|p1 [|p2 [|p3 [|p4 p]]]]]; try discriminate;
  destruct q as [|q0 [|q1 [|q2 [|q3 [|q4 q]]]]]; try discriminate;
  code_point_cases Hp; code_point_cases Hq;
  cbn [app bytes_lt];
  repeat match goal with
         | |- context [(?a <? ?b)%N] => destruct (N.ltb_spec a b); cbn [orb andb]
         | |- context [(?a =? ?b)%N] => destruct (N.eqb_spec a b); cbn [orb andb]
         end; try reflexivity; lia.
Qed.

Lemma decode_from_cons (n : nat) (x : ascii) (a : list ascii) (ca : list N) :
  decode_from n (x :: a) = Some ca ->
  exists n' p a1 c ca1,
    n = S n' /\ x :: a = p ++ a1 /\ code_point p = Some c /\
    decode_from n' a1 = Some ca1 /\ ca = c :: ca1.
Proof.
  destruct n as [|n]; [discriminate|]. cbn [decode_from].
  destruct (next_char (x :: a)) as [[c a1]|] eqn:Hc; cbn [mbind option_bind];
    [|discriminate].
  destruct (decode_from n a1) as [ca1|] eqn:Ha1; cbn [mbind option_bind];
    [|discriminate].
  intros [= <-]. apply next_char_app in Hc as (p & Hpa & Hp).
  exists n, p, a1, c, ca1. auto.
Qed.

Lemma decode_from_nil (n : nat) (ca : list N) : decode_from n [] = Some ca -> ca = [].
Proof. destruct n; now intros [= <-]. Qed.

Lemma decode_from_order (n : nat) :
  forall a ca, decode_from n a = Some ca ->
  forall m b cb, decode_from m b = Some cb ->
  bytes_lt a b = code_points_lt ca cb.
Proof.
  induction n as [|n IH]; intros a ca Ha m b cb Hb.
  - destruct a as [|x a]; [|discriminate]. injection Ha as <-.
    destruct b as [|y b].
    + apply decode_from_nil in Hb as ->. reflexivity.
    + apply decode_from_cons in Hb as (_ & _ & _ & d & cb1 & _ & _ & _ & _ & ->).
      reflexivity.
  - destruct a as [|x a].
    { apply decode_from_nil in Ha as ->. destruct b as [|y b].
      - apply decode_from_nil in Hb as ->. reflexivity.
      - apply decode_from_cons in Hb as (_ & _ & _ & d & cb1 & _ & _ & _ & _ & ->).
        reflexivity. }
    apply decode_from_cons in Ha as (n' & p & a1 & c & ca1 & [= <-] & -> & Hp & Ha1 & ->).
    destruct b as [|y b].
    { apply decode_from_nil in Hb as ->.
      destruct (code_point_width p c Hp) as (p0 & p' & -> & _). reflexivity. }
    apply decode_from_cons in Hb as (m' & q & b1 & d & cb1 & -> & -> & Hq & Hb1 & ->).
    cbn [code_points_lt].
    destruct (N.lt_trichotomy c d) as [Hlt|[<-|Hgt]].
    + rewrite (code_point_lt p q c d a1 b1 Hp Hq Hlt).
      destruct (N.ltb_spec c d); [reflexivity | lia].
    + rewrite (code_point_inj q p c Hq Hp), bytes_lt_app.
      rewrite N.ltb_irrefl, N.eqb_refl. cbn [orb andb]. exact (IH a1 ca1 Ha1 m' b1 cb1 Hb1).
    + rewrite (bytes_lt_asym _ _ (code_point_lt q p d c b1 a1 Hq Hp Hgt)).
      destruct (N.ltb_spec c d); [lia|]. destruct (N.eqb_spec c d); [lia | reflexivity].
Qed.

(** Comparing the bytes of two strings compares their code points: the
    order of [sorted] is [str_lt]. *)
Lemma str_lt_code_points (a b : string) (ca cb : list N) :
  decode a = Some ca -> decode b = Some cb ->
  (str_lt a b <-> code_points_lt ca cb = true).
Proof.
  unfold decode. intros Ha Hb.
  rewrite str_lt_compare, compare_bytes_lt.
  now rewrite (decode_from_order _ _ _ Ha _ _ _ Hb).
Qed.

(** Two strings are the same when their code points are: [set] keeps one
    of them. *)
Lemma decode_inj (a b : string) (c : list N) :
  decode a = Some c -> decode b = Some c -> a = b.
Proof.
  unfold decode. intros Ha Hb. apply chars_inj.
  revert Ha Hb. generalize (String.length a) (String.length b) (chars a) (chars b).
  clear a b. intros n. revert c. induction n as [|n IH]; intros c m a b Ha Hb.
  - destruct a as [|x a]; [|discriminate]. injection Ha as <-.
    destruct b as [|y b]; [reflexivity|].
    apply decode_from_cons in Hb as (_ & _ & _ & d & cb1 & _ & _ & _ & _ & [=]).
  - destruct a as [|x a].
    { apply decode_from_nil in Ha as ->. destruct b as [|y b]; [reflexivity|].
      apply decode_from_cons in Hb as (_ & _ & _ & d & cb1 & _ & _ & _ & _ & [=]). }
    apply decode_from_cons in Ha as (n' & p & a1 & c0 & ca1 & [= <-] & -> & Hp & Ha1 & ->).
    destruct b as [|y b]; [apply decode_from_nil in Hb; discriminate|].
    apply decode_from_cons in Hb as (m' & q & b1 & d & cb1 & -> & -> & Hq & Hb1 & [= <- <-]).
    rewrite (code_point_inj q p c0 Hq Hp). f_equal. exact (IH ca1 m' a1 b1 Ha1 Hb1).
Qed.

(** ** The loop of [summarize] *)

Lemma summarize_body_classify (st : Locals) (o : value) :
  match classify o with
  | Some c => summarize_body st o = Ok (record st c)
  | None => exists e, summarize_body st o = Raise e
  end.
Proof.
  unfold classify, classify_record, has_customer, has_phone, summarize_body, view.
  destruct o as [| | | | |l|d]; simpl; try (eexists; reflexivity).
  destruct (truthy (default VNone (assoc "order" d))) eqn:Horder.
  - destruct (default VNone (assoc "order" d)) as [| | | | |l'|d'] eqn:Hod;
      simpl; try (eexists; reflexivity).
    destruct (truthy (default VNone (assoc "customer" d'))); simpl; [|reflexivity].
    destruct (truthy (default VNone (assoc "phone" d'))) eqn:Hph; simpl; [|reflexivity].
    destruct (default VNone (assoc "phone" d')); simpl; try (eexists; reflexivity).
    destruct (assoc "sum" d'); reflexivity.
  - simpl.
    destruct (truthy (default VNone (assoc "customer" d))); simpl; [|reflexivity].
    destruct (truthy (default VNone (assoc "phone" d))) eqn:Hph; simpl; [|reflexivity].
    destruct (default VNone (assoc "phone" d)); simpl; try (eexists; reflexivity).
    destruct (assoc "sum" d); reflexivity.
Qed.

Lemma well_typed_classified (o : value) :
  well_typed o -> is_Some (classify o).
Proof.
  intros (Ho & Hod & Hph). unfold classify, classify_record, has_customer, has_phone.
  rewrite Ho, Hod. simpl.
  destruct (truthy (field (view o) "customer")); simpl; [|eauto].
  destruct (field (view o) "phone"); simpl; try contradiction; eauto.
  destruct (negb _); eauto.
Qed.

Lemma phones_considered_cons (o : value) (orders : list value) :
  phones_considered (o :: orders) =
  match classify o with
  | Some (Considered p _) => [p]
  | _ => []
  end ++ phones_considered orders.
Proof.
  unfold phones_considered. simpl. unfold phone_of at 1.
  destruct (classify o) as [[]|]; reflexivity.
Qed.

(** The loop, one order after the other. *)
Lemma for_each_summarize (orders : list value) :
  forall st st',
  for_each summarize_body st orders = Ok st' ->
  Forall (fun o => is_Some (classify o)) orders /\
  l_no_client st' = (l_no_client st + count is_no_client orders)%nat /\
  l_no_phone st' = (l_no_phone st + count is_no_phone orders)%nat /\
  l_phones st' = l_phones st ++ phones_considered orders /\
  l_invalid st' =
    l_invalid st ++ filter (fun p => ~ phone_valid p) (phones_considered orders) /\
  l_zero st' = (l_zero st + count is_zero_sum orders)%nat.
Proof.
  induction orders as [|o orders IH]; intros st st' Hrun; simpl in Hrun.
  - injection Hrun as <-. simpl. rewrite !app_nil_r.
    repeat split; try lia. constructor.
  - pose proof (summarize_body_classify st o) as Hbody.
    destruct (classify o) as [c|] eqn:Hc.
    2: { destruct Hbody as [e He]. rewrite He in Hrun. discriminate. }
    rewrite Hbody in Hrun. simpl in Hrun.
    apply IH in Hrun as (Hall & Hnc & Hnp & Hph & Hinv & Hz).
    split; [constructor; eauto|].
    rewrite Hnc, Hnp, Hph, Hinv, Hz.
    assert (E1 : is_no_client o = match c with NoClient => true | _ => false end)
      by (unfold is_no_client; now rewrite Hc).
    assert (E2 : is_no_phone o = match c with NoPhone => true | _ => false end)
      by (unfold is_no_phone; now rewrite Hc).
    assert (E3 : is_zero_sum o = match c with Considered _ z => z | _ => false end)
      by (unfold is_zero_sum; now rewrite Hc).
    rewrite phones_considered_cons, Hc. simpl count. rewrite E1, E2, E3. clear.
    destruct c as [| |p z]; simpl.
    + repeat split; lia.
    + repeat split; lia.
    + rewrite <- !app_assoc. simpl.
      rewrite filter_cons.
      destruct (decide (~ phone_valid p)) as [Hbad|Hgood].
      * replace (re_match PHONE_PATTERN p) with false
          by (unfold phone_valid in Hbad; now destruct (re_match PHONE_PATTERN p)).
        simpl. rewrite <- !app_assoc. simpl.
        repeat split; try lia. destruct z; lia.
      * replace (re_match PHONE_PATTERN p) with true
          by (unfold phone_valid in Hgood; destruct (re_match PHONE_PATTERN p);
              [reflexivity | exfalso; apply Hgood; discriminate]).
        simpl. repeat split; try lia. destruct z; lia.
Qed.

Lemma for_each_total (orders : list value) :
  Forall (fun o => is_Some (classify o)) orders ->
  forall st, exists st', for_each summarize_body st orders = Ok st'.
Proof.
  induction 1 as [|o orders [c Hc] _ IH]; simpl; intros st; [eauto|].
  pose proof (summarize_body_classify st o) as Hbody.
  rewrite Hc in Hbody. rewrite Hbody. simpl. apply IH.
Qed.

Lemma summarize_inv (orders : list value) (r : SummaryRecord) :
  summarize orders = Ok r ->
  exists st, for_each summarize_body locals0 orders = Ok st /\
    total r = length orders /\ no_client r = l_no_client st /\
    no_phone r = l_no_phone st /\ invalid r = sorted_set (l_invalid st) /\
    inv_count r = length (l_invalid st) /\ zero r = l_zero st /\
    unique r = length (Counter (l_phones st)) /\
    dup r = filter (fun pc => (1 < snd pc)%nat) (Counter (l_phones st)).
Proof.
  unfold summarize.
  destruct (for_each summarize_body locals0 orders) as [st|e]; simpl; [|discriminate].
  intros [= <-]. exists st. simpl. repeat split.
Qed.

Lemma summarize_total (orders : list value) :
  Forall well_typed orders -> exists r, summarize orders = Ok r.
Proof.
  intros Hwt.
  destruct (for_each_total orders) with (st := locals0) as [st Hst].
  { eapply Forall_impl; [exact Hwt|]. apply well_typed_classified. }
  unfold summarize. rewrite Hst. simpl. eauto.
Qed.

Lemma count_partition (orders : list value) :
  Forall (fun o => is_Some (classify o)) orders ->
  (count is_no_client orders + count is_no_phone orders
   + length (phones_considered orders))%nat = length orders.
Proof.
  induction 1 as [|o orders [c Hc] _ IH]; simpl; [reflexivity|].
  unfold phones_considered in *. simpl omap.
  unfold is_no_client at 1, is_no_phone at 1, phone_of at 1. rewrite Hc.
  destruct c; simpl; lia.
Qed.

(** Case analysis along [classify] for an order that it classifies. *)
Ltac classify_cases o :=
  unfold classify, classify_record;
  destruct (is_dict o); [|intros [? [=]]];
  destruct (is_dict (view o)); simpl; [|intros [? [=]]];
  destruct (has_customer (view o)); simpl; [|reflexivity];
  destruct (has_phone (view o)); simpl; [|reflexivity];
  destruct (field (view o) "phone"); try (intros [? [=]]); reflexivity.

Lemma phones_considered_length (orders : list value) :
  Forall (fun o => is_Some (classify o)) orders ->
  length (phones_considered orders) =
  count (fun o => has_customer (view o) && has_phone (view o)) orders.
Proof.
  induction 1 as [|o orders Ho _ IH]; [reflexivity|].
  rewrite phones_considered_cons, length_app, IH. simpl. f_equal.
  revert Ho. classify_cases o.
Qed.

Lemma count_ext {A : Type} (f g : A -> bool) (l : list A) :
  Forall (fun x => f x = g x) l -> count f l = count g l.
Proof. induction 1 as [|x l Hx _ IH]; simpl; [reflexivity|]. now rewrite Hx, IH. Qed.

Lemma count_app {A : Type} (f : A -> bool) (l1 l2 : list A) :
  count f (l1 ++ l2) = (count f l1 + count f l2)%nat.
Proof. induction l1 as [|x l1 IH]; simpl; [reflexivity|]. rewrite IH. lia. Qed.

Lemma is_zero_sum_spec (o : value) :
  is_Some (classify o) ->
  is_zero_sum o = has_customer (view o) && has_phone (view o) && sum_is_zero (view o).
Proof. unfold is_zero_sum. classify_cases o. Qed.

Lemma is_no_client_spec (o : value) :
  is_Some (classify o) -> is_no_client o = negb (has_customer (view o)).
Proof. unfold is_no_client. classify_cases o. Qed.

Lemma is_no_phone_spec (o : value) :
  is_Some (classify o) ->
  is_no_phone o = has_customer (view o) && negb (has_phone (view o)).
Proof. unfold is_no_phone. classify_cases o. Qed.

(** ** The order of strings *)

Lemma sorted_nodup_strict (l : list string) :
  StronglySorted String.le l -> NoDup l -> StronglySorted str_lt l.
Proof.
  induction 1 as [|x l Hl IH Hx]; intros Hnd; constructor.
  - apply IH. now apply NoDup_cons in Hnd as [_ ?].
  - apply NoDup_cons in Hnd as [Hnotin _].
    rewrite Forall_forall in Hx |- *. intros y Hy.
    apply strict_spec_alt. split; [now apply Hx|]. intros ->. contradiction.
Qed.

Lemma sorted_set_spec (l : list string) :
  StronglySorted str_lt (sorted_set l) /\ NoDup (sorted_set l) /\
  forall p, p ∈ sorted_set l <-> p ∈ l.
Proof.
  unfold sorted_set.
  assert (Hnd : NoDup (merge_sort String.le (elements (list_to_set l : gset string)))).
  { rewrite merge_sort_Permutation. apply NoDup_elements. }
  split; [|split].
  - apply sorted_nodup_strict; [|exact Hnd].
    apply StronglySorted_merge_sort; apply _.
  - exact Hnd.
  - intros p. rewrite merge_sort_Permutation, elem_of_elements.
    apply elem_of_list_to_set.
Qed.

(** ** The statistics *)

(** C3.  Whenever [summarize] returns a record, [total] is the length of
    the input and [no_client + no_phone + len(phones)] equals [total],
    where the phones considered are one entry for each order whose view
    has both a customer and a phone; and it returns a record for every
    sequence of orders of the data model. *)
Theorem summarize_counts_add_up (orders : list value) :
  (Forall well_typed orders -> exists r, summarize orders = Ok r) /\
  (forall r, summarize orders = Ok r ->
     total r = length orders /\
     length (phones_considered orders) =
       count (fun o => has_customer (view o) && has_phone (view o)) orders /\
     (no_client r + no_phone r + length (phones_considered orders))%nat = total r).
Proof.
  split; [apply summarize_total|].
  intros r Hr.
  apply summarize_inv in Hr as (st & Hst & Ht & Hnc & Hnp & _).
  apply for_each_summarize in Hst as (Hall & Hnc' & Hnp' & _).
  split; [exact Ht|]. split; [now apply phones_considered_length|].
  rewrite Ht, Hnc, Hnp, Hnc', Hnp'. simpl.
  now apply count_partition.
Qed.

Lemma example_orders_well_typed : Forall well_typed (example_orders_with customer1).
Proof. repeat constructor. Qed.

Lemma summarize_counts_add_up_witness :
  Forall well_typed (example_orders_with customer1) /\
  exists r, summarize (example_orders_with customer1) = Ok r /\
    (no_client r + no_phone r
     + length (phones_considered (example_orders_with customer1)))%nat = total r.
Proof.
  split; [exact example_orders_well_typed|].
  destruct (summarize_counts_add_up (example_orders_with customer1)) as [Htot Hinv].
  destruct (Htot example_orders_well_typed) as [r Hr].
  exists r. split; [exact Hr|]. exact (proj2 (proj2 (Hinv r Hr))).
Defined.

(** C6.  Whenever [summarize] returns a record, [invalid] is sorted,
    strictly, in the order of [str], so that no phone is in it twice; it
    holds exactly the phones of the considered orders that
    [PHONE_PATTERN] does not match; and [inv_count] is the number of
    their occurrences, each counted as often as it occurs. *)
Theorem summarize_invalid_sorted_distinct (orders : list value) :
  (Forall well_typed orders -> exists r, summarize orders = Ok r) /\
  (forall r, summarize orders = Ok r ->
     StronglySorted str_lt (invalid r) /\
     NoDup (invalid r) /\
     (forall p, p ∈ invalid r <-> p ∈ phones_considered orders /\ ~ phone_valid p) /\
     inv_count r = length (filter (fun p => ~ phone_valid p) (phones_considered orders))).
Proof.
  split; [apply summarize_total|].
  intros r Hr.
  apply summarize_inv in Hr as (st & Hst & _ & _ & _ & Hinv & Hcnt & _).
  apply for_each_summarize in Hst as (_ & _ & _ & _ & Hl & _).
  simpl in Hl. rewrite Hinv, Hcnt, Hl.
  destruct (sorted_set_spec (filter (fun p => ~ phone_valid p) (phones_considered orders)))
    as (Hs & Hnd & Hin).
  split; [exact Hs|]. split; [exact Hnd|]. split; [|reflexivity].
  intros p. rewrite Hin, list_elem_of_filter. tauto.
Qed.

Lemma summarize_invalid_sorted_distinct_witness :
  Forall well_typed example_invalid_orders /\
  phones_considered example_invalid_orders =
    ["12345"; "+380501111111"; phone1; "12345"; phone_arabic]%string /\
  exists r, summarize example_invalid_orders = Ok r /\
    invalid r = ["+380501111111"; "12345"]%string /\
    inv_count r = 3%nat /\
    StronglySorted str_lt (invalid r) /\
    NoDup (invalid r) /\
    (forall p, p ∈ invalid r <->
               p ∈ phones_considered example_invalid_orders /\ ~ phone_valid p) /\
    inv_count r = length (filter (fun p => ~ phone_valid p)
                            (phones_considered example_invalid_orders)).
Proof.
  assert (Hwt : Forall well_typed example_invalid_orders) by (repeat constructor).
  split; [exact Hwt|]. split; [reflexivity|].
  destruct (summarize_invalid_sorted_distinct example_invalid_orders) as [Htot Hinv].
  destruct (Htot Hwt) as [r Hr].
  exists r. split; [exact Hr|].
  pose proof Hr as Hc. vm_compute in Hc. injection Hc as <-.
  split; [reflexivity|]. split; [reflexivity|].
  exact (Hinv _ Hr).
Defined.

Lemma summarize_zero (orders : list value) (r : SummaryRecord) :
  summarize orders = Ok r ->
  Forall (fun o => is_Some (classify o)) orders /\
  zero r = count (fun o => has_customer (view o) && has_phone (view o)
                           && sum_is_zero (view o)) orders.
Proof.
  intros Hr.
  apply summarize_inv in Hr as (st & Hst & _ & _ & _ & _ & _ & Hz & _).
  apply for_each_summarize in Hst as (Hall & _ & _ & _ & _ & Hl).
  split; [exact Hall|].
  rewrite Hz, Hl. simpl. apply count_ext.
  eapply Forall_impl; [exact Hall|]. apply is_zero_sum_spec.
Qed.

(** C7.  Whenever [summarize] returns a record, [zero] is the number of
    orders whose view has a customer, has a phone and has a [sum] equal
    to 0, a missing [sum] counting as 0; an order without customer or
    without phone adds nothing to it, whatever its [sum]: the summary of
    the input without that order has the same [zero]. *)
Theorem summarize_zero_needs_customer_and_phone (orders : list value) :
  (Forall well_typed orders -> exists r, summarize orders = Ok r) /\
  (forall r, summarize orders = Ok r ->
     zero r = count (fun o => has_customer (view o) && has_phone (view o)
                              && sum_is_zero (view o)) orders) /\
  (forall l1 o l2 r,
     orders = l1 ++ o :: l2 ->
     has_customer (view o) && has_phone (view o) = false ->
     summarize orders = Ok r ->
     exists r', summarize (l1 ++ l2) = Ok r' /\ zero r' = zero r).
Proof.
  split; [apply summarize_total|]. split.
  - intros r Hr. now apply summarize_zero in Hr as [_ ?].
  - intros l1 o l2 r -> Ho Hr.
    apply summarize_zero in Hr as [Hall Hz].
    apply Forall_app in Hall as [H1 H2]. apply Forall_cons in H2 as [_ H2].
    destruct (for_each_total (l1 ++ l2)) with (st := locals0) as [st Hst].
    { apply Forall_app. now split. }
    assert (Hr' : exists r', summarize (l1 ++ l2) = Ok r').
    { unfold summarize. rewrite Hst. simpl. eauto. }
    destruct Hr' as [r' Hr']. exists r'. split; [exact Hr'|].
    apply summarize_zero in Hr' as [_ Hz'].
    rewrite Hz, Hz', !count_app. simpl. rewrite Ho. simpl. reflexivity.
Qed.

Lemma summarize_zero_needs_customer_and_phone_witness :
  has_customer (view (VDict [("sum", VInt 0)]%string))
    && has_phone (view (VDict [("sum", VInt 0)]%string)) = false /\
  exists r r',
    summarize ([order1] ++ VDict [("sum", VInt 0)]%string :: [order1]) = Ok r /\
    summarize ([order1] ++ [order1]) = Ok r' /\ zero r' = zero r.
Proof.
  split; [reflexivity|].
  destruct (summarize_zero_needs_customer_and_phone
              ([order1] ++ VDict [("sum", VInt 0)]%string :: [order1]))
    as (_ & _ & Hdrop).
  eexists.
  destruct (Hdrop [order1] (VDict [("sum", VInt 0)]%string) [order1] _
              eq_refl eq_refl eq_refl) as (r' & Hr' & Hz).
  exists r'. split; [reflexivity|]. split; assumption.
Defined.

Lemma summarize_body_view (st : Locals) (o o' : value) :
  is_dict o = true -> is_dict o' = true -> view o = view o' ->
  summarize_body st o = summarize_body st o'.
Proof.
  destruct o as [| | | | | |d], o' as [| | | | | |d']; try discriminate.
  intros _ _ Hview. unfold summarize_body. simpl get. simpl mbind.
  unfold view, field in Hview. cbv zeta. now rewrite Hview.
Qed.

Lemma for_each_view (orders : list value) :
  forall orders' st,
  Forall (fun o => is_dict o = true) orders ->
  Forall (fun o => is_dict o = true) orders' ->
  map view orders = map view orders' ->
  for_each summarize_body st orders = for_each summarize_body st orders'.
Proof.
  induction orders as [|o orders IH]; intros [|o' orders'] st Hd Hd' Hmap;
    try discriminate; [reflexivity|].
  apply Forall_cons in Hd as [Ho Hd]. apply Forall_cons in Hd' as [Ho' Hd'].
  injection Hmap as Hv Hmap. simpl.
  rewrite (summarize_body_view st o o' Ho Ho' Hv).
  destruct (summarize_body st o') as [st'|e]; simpl; [|reflexivity].
  now apply IH.
Qed.

(** C8, as the code has it.  The record that [summarize] classifies is
    the value of the [order] field when that field is present and truthy,
    and the record itself when the field is missing or holds a falsy
    value ([None], an empty object, ...): the counters are counts over
    these views, and two sequences of records with the same views have
    the same summary. *)
Theorem summarize_classifies_view (orders : list value) :
  (forall d v, assoc "order" d = Some v -> truthy v = true -> view (VDict d) = v) /\
  (forall d v, assoc "order" d = Some v -> truthy v = false -> view (VDict d) = VDict d) /\
  (forall d, assoc "order" d = None -> view (VDict d) = VDict d) /\
  (forall r, summarize orders = Ok r ->
     no_client r = count (fun o => negb (has_customer (view o))) orders /\
     no_phone r =
       count (fun o => has_customer (view o) && negb (has_phone (view o))) orders) /\
  (forall orders',
     Forall (fun o => is_dict o = true) orders ->
     Forall (fun o => is_dict o = true) orders' ->
     map view orders = map view orders' ->
     summarize orders = summarize orders').
Proof.
  split; [|split; [|split; [|split]]].
  - intros d v Hv Ht. unfold view, field. rewrite Hv. simpl. now rewrite Ht.
  - intros d v Hv Ht. unfold view, field. rewrite Hv. simpl. now rewrite Ht.
  - intros d Hv. unfold view, field. now rewrite Hv.
  - intros r Hr.
    apply summarize_inv in Hr as (st & Hst & _ & Hnc & Hnp & _).
    apply for_each_summarize in Hst as (Hall & Hnc' & Hnp' & _).
    rewrite Hnc, Hnp, Hnc', Hnp'. simpl. split; apply count_ext.
    + eapply Forall_impl; [exact Hall|]. apply is_no_client_spec.
    + eapply Forall_impl; [exact Hall|]. apply is_no_phone_spec.
  - intros orders' Hd Hd' Hmap. unfold summarize.
    rewrite (for_each_view orders orders' locals0 Hd Hd' Hmap).
    assert (Hlen : length orders = length orders').
    { rewrite <- (length_map view orders), Hmap. apply length_map. }
    now rewrite Hlen.
Qed.

(** A record whose [order] field is present and empty: were the field
    to take precedence, the empty record would be classified, as an
    order without customer; [summarize] classifies the record itself. *)
Lemma empty_order_field_does_not_take_precedence :
  order_if_present order_with_empty_wrapper = VDict [] /\
  classify_record (VDict []) = Some NoClient /\
  summarize [VDict []] =
    Ok {| total := 1; no_client := 1; no_phone := 0; invalid := [];
          inv_count := 0; zero := 0; unique := 0; dup := [] |} /\
  summarize [order_with_empty_wrapper] =
    Ok {| total := 1; no_client := 0; no_phone := 0; invalid := [];
          inv_count := 0; zero := 0; unique := 1; dup := [] |}.
Proof. vm_compute. repeat split. Qed.

Lemma summarize_classifies_view_witness :
  view order_with_empty_wrapper = order_with_empty_wrapper /\
  summarize [VDict [("order", order1)]%string] = summarize [order1].
Proof.
  destruct (summarize_classifies_view [VDict [("order", order1)]%string])
    as (_ & Hfalsy & _ & _ & Hsame).
  split.
  - apply (Hfalsy _ (VDict [])); reflexivity.
  - apply Hsame; repeat constructor.
Defined.

(** ** The examples of the specification *)

(** C4, as the code has it.  An empty object is falsy, so the orders of
    the example as written all count as orders without a customer; the
    figures of the example are those of the same orders around a
    customer that is truthy. *)
Theorem summarize_example (customer : value) :
  truthy customer = true ->
  summarize (example_orders_with customer) =
    Ok {| total := 4; no_client := 1; no_phone := 1; invalid := [];
          inv_count := 0; zero := 1; unique := 1; dup := [(phone1, 2%nat)] |} /\
  summarize example_orders =
    Ok {| total := 4; no_client := 4; no_phone := 0; invalid := [];
          inv_count := 0; zero := 0; unique := 0; dup := [] |}.
Proof.
  intros Hc. split; [|vm_compute; reflexivity].
  unfold summarize, example_orders_with, summarize_body. simpl.
  rewrite !Hc. simpl. vm_compute. reflexivity.
Qed.

(** The example as the specification writes it does not give the figures
    it states. *)
Lemma summarize_example_as_written :
  ~ exists r, summarize example_orders = Ok r /\
      no_client r = 1%nat /\ no_phone r = 1%nat /\ total r = 4%nat /\
      unique r = 1%nat /\ dup r = [(phone1, 2%nat)] /\ zero r = 1%nat /\
      inv_count r = 0%nat.
Proof.
  intros (r & Hr & Hnc & _). vm_compute in Hr. injection Hr as <-.
  discriminate.
Qed.

Lemma summarize_example_witness :
  truthy customer1 = true /\
  summarize (example_orders_with customer1) =
    Ok {| total := 4; no_client := 1; no_phone := 1; invalid := [];
          inv_count := 0; zero := 1; unique := 1; dup := [(phone1, 2%nat)] |}.
Proof.
  split; [reflexivity|].
  exact (proj1 (summarize_example customer1 eq_refl)).
Defined.

(** ** What [summarize] writes *)

Lemma frames_ret {A : Type} (P : loc -> Prop) (a : A) : frames P (m_ret a).
Proof. intros h. exists (Ok a), h. now split. Qed.

Lemma frames_raise {A : Type} (P : loc -> Prop) (e : exn) :
  frames P (m_raise e : M A).
Proof. intros h. exists (Raise e), h. now split. Qed.

Lemma frames_read {A : Type} (P : loc -> Prop) (f : heap -> A) :
  frames P (m_read f).
Proof. intros h. exists (Ok (f h)), h. now split. Qed.

Lemma frames_bind {A B : Type} (P : loc -> Prop) (m : M A) (k : A -> M B) :
  frames P m -> (forall a, frames P (k a)) -> frames P (m_bind m k).
Proof.
  intros Hm Hk h. unfold m_bind.
  destruct (Hm h) as (r & h1 & -> & H1).
  destruct r as [a|e].
  - destruct (Hk a h1) as (r' & h2 & -> & H2).
    exists r', h2. split; [reflexivity|].
    intros l Hl. now rewrite H2, H1.
  - exists (Raise e), h1. now split.
Qed.

Lemma frames_get (P : loc -> Prop) (o : pyval) (k : string) (dflt : pyval) :
  frames P (h_get o k dflt).
Proof.
  intros h. unfold h_get.
  destruct o as [| | | | |l]; try (eexists _, h; now split).
  destruct (h !! l) as [[|d]|]; eexists _, h; now split.
Qed.

Lemma frames_append (P : loc -> Prop) (l : loc) (v : pyval) :
  P l -> frames P (append l v).
Proof.
  intros Hl h. unfold append.
  destruct (h !! l) as [[items|d]|] eqn:Hh; try (eexists _, h; now split).
  eexists _, _. split; [reflexivity|].
  intros l' Hl'. apply lookup_insert_ne. now intros ->.
Qed.

Lemma frames_body (phones invalid : loc) (c : Counters) (o : pyval) :
  frames (fun l => l = phones \/ l = invalid) (summarize_body_h phones invalid c o).
Proof.
  unfold summarize_body_h, h_truthy.
  apply frames_bind; [apply frames_get|]. intros order.
  apply frames_bind; [apply frames_read|]. intros t.
  apply frames_bind; [apply frames_get|]. intros customer.
  apply frames_bind; [apply frames_read|]. intros t'.
  destruct (negb t'); [apply frames_ret|].
  apply frames_bind; [apply frames_get|]. intros ph.
  apply frames_bind; [apply frames_read|]. intros t''.
  destruct (negb t''); [apply frames_ret|].
  apply frames_bind; [apply frames_append; now left|]. intros _.
  destruct ph; try apply frames_raise.
  apply frames_bind.
  { destruct (negb _); [apply frames_append; now right | apply frames_ret]. }
  intros _.
  apply frames_bind; [apply frames_get|]. intros sum.
  apply frames_ret.
Qed.

(** The loop ends within the steps it is given when its body leaves the
    list alone. *)
Lemma for_in_frames {S : Type} (P : loc -> Prop) (orders : loc)
    (body : S -> pyval -> M S) :
  (forall st o, frames P (body st o)) -> ~ P orders ->
  forall (steps i : nat) (st : S) (h : heap),
  match h !! orders with
  | Some (OList items) => (i <= length items < steps + i)%nat
  | _ => (0 < steps)%nat
  end ->
  exists r h', for_in steps orders i body st h = Some (r, h') /\
    forall l, ~ P l -> h' !! l = h !! l.
Proof.
  intros Hbody Horders steps.
  induction steps as [|steps IH]; intros i st h Hlen.
  - destruct (h !! orders) as [[items|d]|]; lia.
  - simpl. destruct (h !! orders) as [[items|d]|] eqn:Hh;
      try (eexists _, h; now split).
    destruct (items !! i) as [o|] eqn:Hi; [|eexists _, h; now split].
    apply lookup_lt_Some in Hi.
    unfold m_bind.
    destruct (Hbody st o h) as (r & h1 & -> & H1).
    destruct r as [st'|e]; [|exists (Raise e), h1; now split].
    destruct (IH (Datatypes.S i) st' h1) as (r' & h2 & -> & H2).
    { rewrite (H1 orders Horders), Hh. lia. }
    exists r', h2. split; [reflexivity|].
    intros l Hl. now rewrite H2, H1.
Qed.

(** A JSON value that a heap holds is held by every heap that extends
    it. *)
Lemma repr_mono (h h' : heap) :
  h ⊆ h' -> forall v p, repr h v p -> repr h' v p.
Proof.
  intros Hsub. fix IH 1.
  intros [|b|z|f|s|vs|d] [|b'|z'|f'|s'|l]; simpl; try tauto.
  - intros (ps & Hl & Hall). exists ps.
    split; [now apply (lookup_weaken h)|].
    clear Hl. revert ps Hall.
    induction vs as [|v vs IHvs]; intros [|p ps]; try tauto.
    intros [Hv Hall]. split; [now apply IH | now apply IHvs].
  - intros (pd & Hl & Hall). exists pd.
    split; [now apply (lookup_weaken h)|].
    clear Hl. revert pd Hall.
    induction d as [|[k v] d IHd]; intros [|[k' p] pd]; try tauto.
    intros (Hk & Hv & Hall). split; [exact Hk|].
    split; [now apply IH | now apply IHd].
Qed.

(** C10.  [summarize] returns or raises, and either way every object
    that was there when it was called -- the list of orders, each record
    in it and whatever they refer to -- is afterwards what it was, so
    that a reference stands for the same JSON value after the call as
    before: the function appends to the two lists it creates and to
    nothing else. *)
Theorem summarize_leaves_input_unchanged (orders : loc) (h : heap) :
  exists r h', summarize_h orders h = Some (r, h') /\
    (forall l o, h !! l = Some o -> h' !! l = Some o) /\
    (forall v p, repr h v p -> repr h' v p).
Proof.
  cut (exists r h', summarize_h orders h = Some (r, h') /\
         forall l o, h !! l = Some o -> h' !! l = Some o).
  { intros (r & h' & Hrun & Hkeep). exists r, h'.
    split; [exact Hrun|]. split; [exact Hkeep|].
    apply repr_mono. now apply map_subseteq_spec. }
  unfold summarize_h.
  unfold m_bind at 1. unfold m_read at 1.
  unfold m_bind at 1. unfold new_list at 1. cbv zeta.
  set (phones := fresh (dom h)).
  set (h1 := <[phones := OList []]> h).
  unfold m_bind at 1. unfold new_list at 1. cbv zeta.
  set (invalid := fresh (dom h1)).
  set (h2 := <[invalid := OList []]> h1).
  assert (Hphones : h !! phones = None).
  { apply not_elem_of_dom. apply is_fresh. }
  assert (Hinvalid : h1 !! invalid = None).
  { apply not_elem_of_dom. apply is_fresh. }
  assert (Hne : invalid <> phones).
  { intros Heq. rewrite Heq in Hinvalid. subst h1.
    rewrite lookup_insert_eq in Hinvalid. discriminate. }
  assert (Hold : forall l o, h !! l = Some o -> h2 !! l = Some o /\
                   l <> phones /\ l <> invalid).
  { intros l o Hl.
    assert (l <> phones) by (intros ->; congruence).
    assert (Hl1 : h1 !! l = Some o) by (subst h1; now rewrite lookup_insert_ne).
    assert (l <> invalid) by (intros ->; congruence).
    repeat split; try assumption. subst h2. now rewrite lookup_insert_ne. }
  set (P := fun l : loc => l = phones \/ l = invalid).
  set (c0 := {| c_no_client := 0; c_no_phone := 0; c_zero := 0 |}).
  assert (Hloop : exists r h3,
            for_in (Datatypes.S (len h orders)) orders 0
              (summarize_body_h phones invalid) c0 h2 = Some (r, h3) /\
            forall l, ~ P l -> h3 !! l = h2 !! l).
  { destruct (h !! orders) as [o|] eqn:Ho.
    - destruct (Hold _ _ Ho) as (Ho2 & Hn1 & Hn2).
      apply for_in_frames.
      + intros st x. apply frames_body.
      + unfold P. tauto.
      + rewrite Ho2. unfold len. rewrite Ho. destruct o; lia.
    - destruct (decide (P orders)) as [HP|HP].
      + exists (Ok c0), h2. split; [|reflexivity].
        assert (Hemp : h2 !! orders = Some (OList [])).
        { subst h2 h1. destruct HP as [->| ->].
          - rewrite lookup_insert_ne by congruence. apply lookup_insert_eq.
          - apply lookup_insert_eq. }
        simpl. now rewrite Hemp.
      + apply for_in_frames.
        * intros st x. apply frames_body.
        * exact HP.
        * assert (Hnone : h2 !! orders = None).
          { subst h2 h1. unfold P in HP.
            rewrite !lookup_insert_ne by (intros ->; tauto). exact Ho. }
          rewrite Hnone. lia. }
  destruct Hloop as (r & h3 & Hrun & Hframe).
  unfold m_bind at 1. rewrite Hrun.
  assert (Hkeep : forall l o, h !! l = Some o -> h3 !! l = Some o).
  { intros l o Hl. destruct (Hold _ _ Hl) as (Hl2 & Hn1 & Hn2).
    rewrite Hframe; [exact Hl2 | unfold P; tauto]. }
  destruct r as [c|e].
  - eexists _, h3. split; [reflexivity | exact Hkeep].
  - exists (Raise e), h3. split; [reflexivity | exact Hkeep].
Qed.

Lemma summarize_leaves_input_unchanged_witness :
  exists r h', summarize_h 1%positive example_heap = Some (r, h') /\
    h' !! 1%positive = Some (OList [PRef 2%positive; PRef 3%positive]) /\
    h' !! 4%positive = Some (ODict [("id", PStr "c1")]%string).
Proof.
  destruct (summarize_leaves_input_unchanged 1%positive example_heap)
    as (r & h' & Hrun & Hkeep).
  exists r, h'. split; [exact Hrun|].
  split; apply (proj1 Hkeep); reflexivity.
Defined.

(** ** The two models of [summarize] agree *)

Lemma m_bind_ok {A B : Type} (m : M A) (k : A -> M B) (h h' : heap) (a : A) :
  m h = Some (Ok a, h') -> m_bind m k h = k a h'.
Proof. unfold m_bind. now intros ->. Qed.

Lemma m_bind_raise {A B : Type} (m : M A) (k : A -> M B) (h h' : heap) (e : exn) :
  m h = Some (Raise e, h') -> m_bind m k h = Some (Raise e, h').
Proof. unfold m_bind. now intros ->. Qed.

Lemma m_bind_read {A B : Type} (f : heap -> A) (k : A -> M B) (h : heap) :
  m_bind (m_read f) k h = k (f h) h.
Proof. reflexivity. Qed.

Lemma m_bind_ret {A B : Type} (a : A) (k : A -> M B) (h : heap) :
  m_bind (m_ret a) k h = k a h.
Proof. reflexivity. Qed.

Section Refinement.

(** The heap at the call, the list of orders in it and the JSON values
    they stand for. *)
Variable h0 : heap.

Lemma repr_truthy (v : value) (p : pyval) (h : heap) :
  repr h0 v p -> h0 ⊆ h -> truthy_in h p = truthy v.
Proof.
  intros Hr Hsub.
  destruct v as [|b|z|f|s|vs|d], p as [|b'|z'|f'|s'|l]; simpl in Hr;
    try contradiction; try (subst; reflexivity).
  - destruct Hr as (ps & Hl & Hall).
    simpl. rewrite (lookup_weaken _ _ _ _ Hl Hsub).
    destruct vs, ps; try contradiction; reflexivity.
  - destruct Hr as (pd & Hl & Hall).
    simpl. rewrite (lookup_weaken _ _ _ _ Hl Hsub).
    destruct d as [|[k v] d], pd as [|[k' p] pd]; try contradiction; reflexivity.
Qed.

Lemma repr_eq_zero (v : value) (p : pyval) :
  repr h0 v p -> p_eq_zero p = eq_zero v.
Proof.
  destruct v, p; simpl; try contradiction; try reflexivity; now intros ->.
Qed.

Lemma repr_get (v dv : value) (p dp : pyval) (k : string) (h : heap) :
  repr h0 v p -> repr h0 dv dp -> h0 ⊆ h ->
  match get_default v k dv with
  | Ok v' => exists p', h_get p k dp h = Some (Ok p', h) /\ repr h0 v' p'
  | Raise e => h_get p k dp h = Some (Raise e, h)
  end.
Proof.
  intros Hr Hd Hsub.
  destruct v as [|b|z|f|s|vs|d], p as [|b'|z'|f'|s'|l]; simpl in Hr;
    try contradiction; try reflexivity.
  - destruct Hr as (ps & Hl & _). simpl.
    now rewrite (lookup_weaken _ _ _ _ Hl Hsub).
  - destruct Hr as (pd & Hl & Hall). simpl.
    rewrite (lookup_weaken _ _ _ _ Hl Hsub).
    eexists. split; [reflexivity|].
    clear Hl. revert pd Hall.
    induction d as [|[k1 v1] d IH]; intros [|[k2 p2] pd] Hall;
      try contradiction; simpl; [exact Hd|].
    destruct Hall as (<- & Hv & Hall).
    destruct (String.eqb k k1); [exact Hv | now apply IH].
Qed.

Lemma repr_str (v : value) (s : string) : repr h0 v (PStr s) -> v = VStr s.
Proof. destruct v; simpl; try contradiction. now intros ->. Qed.

Lemma repr_not_str (v : value) (p : pyval) :
  repr h0 v p -> (forall s, p <> PStr s) -> forall s, v <> VStr s.
Proof.
  intros Hr Hp s ->. destruct p; simpl in Hr; try contradiction.
  now apply (Hp s0).
Qed.

Variables phones invalid : loc.

Local Abbreviation related := (related h0 phones invalid).

Lemma body_refines (st : Locals) (c : Counters) (h : heap) (o : value) (po : pyval) :
  related st c h -> repr h0 o po ->
  match summarize_body st o with
  | Ok st' => exists c' h',
      summarize_body_h phones invalid c po h = Some (Ok c', h') /\ related st' c' h'
  | Raise e => exists h',
      summarize_body_h phones invalid c po h = Some (Raise e, h') /\ h0 ⊆ h'
  end.
Proof.
  intros (Hsub & Hp0 & Hi0 & Hne & Hph & Hinv & Hc1 & Hc2 & Hc3) Ho.
  unfold summarize_body, summarize_body_h, h_truthy.
  change (get o "order") with (get_default o "order" VNone).
  pose proof (repr_get o VNone po PNone "order" h Ho I Hsub) as Hg.
  destruct (get_default o "order" VNone) as [order|e]; simpl mbind.
  2: { exists h. rewrite (m_bind_raise _ _ _ _ _ Hg). now split. }
  destruct Hg as (porder & Hg & Horder).
  rewrite !(m_bind_ok _ _ _ _ _ Hg); cbv beta; rewrite !m_bind_read; cbv beta.
  rewrite (repr_truthy _ _ _ Horder Hsub). cbv zeta.
  set (od := if truthy order then order else o).
  set (pod := if truthy order then porder else po).
  assert (Hod : repr h0 od pod) by (subst od pod; now destruct (truthy order)).
  clearbody od pod.
  change (get od "customer") with (get_default od "customer" VNone).
  pose proof (repr_get od VNone pod PNone "customer" h Hod I Hsub) as Hg1.
  destruct (get_default od "customer" VNone) as [customer|e]; simpl mbind.
  2: { exists h. rewrite (m_bind_raise _ _ _ _ _ Hg1). now split. }
  destruct Hg1 as (pcustomer & Hg1 & Hcustomer).
  rewrite !(m_bind_ok _ _ _ _ _ Hg1); cbv beta; rewrite !m_bind_read; cbv beta.
  rewrite (repr_truthy _ _ _ Hcustomer Hsub).
  destruct (truthy customer); cbn [negb].
  2: { eexists _, h. split; [reflexivity|]. rewrite Hc1. now repeat split. }
  change (get od "phone") with (get_default od "phone" VNone).
  pose proof (repr_get od VNone pod PNone "phone" h Hod I Hsub) as Hg2.
  destruct (get_default od "phone" VNone) as [ph|e]; simpl mbind.
  2: { exists h. rewrite (m_bind_raise _ _ _ _ _ Hg2). now split. }
  destruct Hg2 as (pph & Hg2 & Hphone).
  rewrite !(m_bind_ok _ _ _ _ _ Hg2); cbv beta; rewrite !m_bind_read; cbv beta.
  rewrite (repr_truthy _ _ _ Hphone Hsub).
  destruct (truthy ph); cbn [negb].
  2: { eexists _, h. split; [reflexivity|]. rewrite Hc2. now repeat split. }
  set (h1 := <[phones := OList ((PStr <$> l_phones st) ++ [pph])]> h).
  assert (Happ : append phones pph h = Some (Ok tt, h1))
    by (unfold append; now rewrite Hph).
  rewrite !(m_bind_ok _ _ _ _ _ Happ). cbv beta.
  assert (Hsub1 : h0 ⊆ h1) by (subst h1; now apply insert_subseteq_r).
  destruct pph as [| | | |p|l].
  5: { (* the phone is a string *)
    apply repr_str in Hphone as ->.
    assert (Hinv1 : h1 !! invalid = Some (OList (PStr <$> l_invalid st))).
    { subst h1. now rewrite lookup_insert_ne. }
    assert (Hph1 : h1 !! phones = Some (OList (PStr <$> (l_phones st ++ [p])))).
    { subst h1. rewrite lookup_insert_eq, fmap_app. reflexivity. }
    pose proof (repr_get od (VInt 0) pod (PInt 0) "sum") as Hg3.
    destruct (get_default od "sum" (VInt 0)) as [sum|e] eqn:Hsum.
    2: { exfalso. specialize (Hg3 h Hod eq_refl Hsub).
         unfold h_get in Hg2, Hg3. destruct pod; try discriminate.
         destruct (h !! l) as [[|]|]; discriminate. }
    simpl mbind.
    destruct (negb (re_match PHONE_PATTERN p)).
    - set (h2 := <[invalid := OList ((PStr <$> l_invalid st) ++ [PStr p])]> h1).
      assert (Happ2 : append invalid (PStr p) h1 = Some (Ok tt, h2))
        by (unfold append; now rewrite Hinv1).
      rewrite (m_bind_ok _ _ _ _ _ Happ2). cbv beta.
      assert (Hsub2 : h0 ⊆ h2) by (subst h2; now apply insert_subseteq_r).
      destruct (Hg3 h2 Hod eq_refl Hsub2) as (psum & Hg3' & Hs).
      rewrite (m_bind_ok _ _ _ _ _ Hg3').
      eexists _, h2. split; [reflexivity|].
      rewrite (repr_eq_zero _ _ Hs), Hc3.
      repeat split; try assumption; simpl.
      + subst h2. now rewrite lookup_insert_ne.
      + subst h2. rewrite lookup_insert_eq, fmap_app. reflexivity.
    - rewrite m_bind_ret. cbv beta.
      destruct (Hg3 h1 Hod eq_refl Hsub1) as (psum & Hg3' & Hs).
      rewrite (m_bind_ok _ _ _ _ _ Hg3').
      eexists _, h1. split; [reflexivity|].
      rewrite (repr_eq_zero _ _ Hs), Hc3.
      repeat split; try assumption. }
  all: assert (Hns : forall s, ph <> VStr s)
         by (eapply repr_not_str; [exact Hphone | discriminate]).
  all: destruct ph as [| | | |s| |]; try (exfalso; now apply (Hns s)).
  all: try (simpl in Hphone; contradiction).
  all: exists h1; split; [reflexivity | exact Hsub1].
Qed.

Variable orders : loc.
Variable ps : list pyval.
Variable vs : list value.
Hypothesis Horders : h0 !! orders = Some (OList ps).
Hypothesis Hrepr : Forall2 (fun p v => repr h0 v p) ps vs.

Lemma for_in_refines (steps : nat) :
  forall (i : nat) (st : Locals) (c : Counters) (h : heap),
  related st c h -> (i <= length ps < steps + i)%nat ->
  match for_each summarize_body st (drop i vs) with
  | Ok st' => exists c' h',
      for_in steps orders i (summarize_body_h phones invalid) c h = Some (Ok c', h')
      /\ related st' c' h'
  | Raise e => exists h',
      for_in steps orders i (summarize_body_h phones invalid) c h = Some (Raise e, h')
      /\ h0 ⊆ h'
  end.
Proof.
  induction steps as [|steps IH]; intros i st c h Hrel Hlen; [lia|].
  assert (Hsub : h0 ⊆ h) by apply Hrel.
  simpl for_in. rewrite (lookup_weaken _ _ _ _ Horders Hsub).
  destruct (ps !! i) as [po|] eqn:Hi.
  - destruct (Forall2_lookup_l _ _ _ _ _ Hrepr Hi) as (o & Ho & Hpo).
    rewrite (drop_S _ _ _ Ho). simpl for_each.
    pose proof (body_refines st c h o po Hrel Hpo) as Hbody.
    destruct (summarize_body st o) as [st1|e]; simpl mbind.
    + destruct Hbody as (c1 & h1 & Hrun & Hrel1).
      rewrite (m_bind_ok _ _ _ _ _ Hrun).
      apply IH; [exact Hrel1|]. apply lookup_lt_Some in Hi. lia.
    + destruct Hbody as (h1 & Hrun & Hsub1).
      exists h1. now rewrite (m_bind_raise _ _ _ _ _ Hrun).
  - apply lookup_ge_None in Hi.
    rewrite drop_ge by (rewrite <- (Forall2_length _ _ _ Hrepr); lia).
    exists c, h. now split.
Qed.

End Refinement.

Lemma strings_of_strings (h : heap) (l : loc) (ss : list string) :
  h !! l = Some (OList (PStr <$> ss)) -> strings_of h l = ss /\ len h l = length ss.
Proof.
  intros Hl. unfold strings_of, len. rewrite Hl, length_fmap. split; [|reflexivity].
  clear Hl. induction ss as [|s ss IH]; csimpl; [reflexivity|]. now rewrite IH.
Qed.

(** On a list of orders that stand for the JSON values [vs], [summarize]
    on the heap returns or raises what [summarize] does on [vs]. *)
Theorem summarize_h_refines (h0 : heap) (orders : loc) (ps : list pyval)
    (vs : list value) :
  h0 !! orders = Some (OList ps) ->
  Forall2 (fun p v => repr h0 v p) ps vs ->
  exists h', summarize_h orders h0 = Some (summarize vs, h').
Proof.
  intros Horders Hrepr. unfold summarize_h.
  rewrite m_bind_read. cbv beta.
  unfold len at 1. rewrite Horders.
  set (phones := fresh (dom h0)).
  set (h1 := <[phones := OList []]> h0).
  rewrite (m_bind_ok new_list _ h0 h1 phones eq_refl). cbv beta.
  set (invalid := fresh (dom h1)).
  set (h2 := <[invalid := OList []]> h1).
  rewrite (m_bind_ok new_list _ h1 h2 invalid eq_refl). cbv beta zeta.
  assert (Hphones : h0 !! phones = None) by apply not_elem_of_dom, is_fresh.
  assert (Hinvalid : h1 !! invalid = None) by apply not_elem_of_dom, is_fresh.
  assert (Hsub1 : h0 ⊆ h1) by (subst h1; now apply insert_subseteq).
  assert (Hne : phones <> invalid).
  { intros Heq. rewrite <- Heq in Hinvalid. subst h1.
    rewrite lookup_insert_eq in Hinvalid. discriminate. }
  set (c0 := {| c_no_client := 0; c_no_phone := 0; c_zero := 0 |}).
  assert (Hrel : related h0 phones invalid locals0 c0 h2).
  { repeat split; try assumption; try reflexivity.
    - subst h2. transitivity h1; [exact Hsub1 | now apply insert_subseteq].
    - eapply lookup_weaken_None; eassumption.
    - subst h2 h1. rewrite lookup_insert_ne by congruence. apply lookup_insert_eq.
    - subst h2. apply lookup_insert_eq. }
  pose proof (for_in_refines h0 phones invalid orders ps vs Horders Hrepr
                (S (length ps)) 0 locals0 c0 h2 Hrel) as Hloop.
  rewrite drop_0 in Hloop. unfold summarize.
  destruct (for_each summarize_body locals0 vs) as [st|e]; simpl mbind.
  - destruct Hloop as (c & h3 & Hrun & Hrel3); [lia|].
    destruct Hrel3 as (Hsub3 & _ & _ & _ & Hph & Hinv & Hc1 & Hc2 & Hc3).
    rewrite (m_bind_ok _ _ _ _ _ Hrun). cbv beta.
    rewrite !m_bind_read. cbv beta. unfold m_ret.
    destruct (strings_of_strings _ _ _ Hph) as [-> _].
    destruct (strings_of_strings _ _ _ Hinv) as [-> ->].
    unfold len. rewrite (lookup_weaken _ _ _ _ Horders Hsub3).
    rewrite (Forall2_length _ _ _ Hrepr), Hc1, Hc2, Hc3.
    now exists h3.
  - destruct Hloop as (h3 & Hrun & _); [lia|].
    exists h3. now rewrite (m_bind_raise _ _ _ _ _ Hrun).
Qed.


(** * Further properties *)

(** ** The requests of the collection loop *)

Lemma remaining_windows_step (end_ cur : datetime) :
  cur < end_ ->
  remaining_windows end_ cur = S (remaining_windows end_ (Z.min (cur + DAY) end_)).
Proof.
  intros Hlt. unfold remaining_windows.
  assert (HD : 0 < DAY) by reflexivity.
  destruct (Z.min_spec (cur + DAY) end_) as [[Hm ->]|[Hm ->]].
  - replace (end_ - cur + DAY - 1)
      with ((end_ - (cur + DAY) + DAY - 1) + 1 * DAY) by lia.
    rewrite Z.div_add by lia.
    assert (0 <= (end_ - (cur + DAY) + DAY - 1) / DAY) by (apply Z.div_pos; lia).
    lia.
  - replace (end_ - end_ + DAY - 1) with (DAY - 1) by lia.
    rewrite (Z.div_small (DAY - 1)) by lia.
    replace (end_ - cur + DAY - 1) with ((end_ - cur - 1) + 1 * DAY) by lia.
    rewrite Z.div_add by lia.
    rewrite (Z.div_small (end_ - cur - 1)) by lia.
    reflexivity.
Qed.

Lemma windows_length (end_ cur : datetime) :
  length (windows end_ cur) = remaining_windows end_ cur.
Proof.
  pattern cur. apply (loop_ind end_). clear cur.
  intros cur IH. rewrite windows_eq.
  destruct (Z_lt_dec cur end_) as [Hlt|Hge].
  - simpl. rewrite IH by assumption. symmetry. now apply remaining_windows_step.
  - simpl. unfold remaining_windows.
    assert (HD : 0 < DAY) by reflexivity.
    assert ((end_ - cur + DAY - 1) / DAY <= 0); [|lia].
    apply Z.lt_succ_r. apply Z.div_lt_upper_bound; lia.
Qed.

Lemma windows_full_days (end_ cur : datetime) :
  forall (i : nat) w,
  windows end_ cur !! i = Some w -> (S i < length (windows end_ cur))%nat ->
  win_end w = win_start w + DAY.
Proof.
  pattern cur. apply (loop_ind end_). clear cur.
  intros cur IH i w. rewrite windows_eq.
  destruct (Z_lt_dec cur end_) as [Hlt|Hge]; [|discriminate].
  destruct i as [|i]; simpl.
  - intros [= <-] Hlen. simpl.
    destruct (Z.min_spec (cur + DAY) end_) as [[Hm ->]|[Hm Heq]]; [reflexivity|].
    rewrite Heq in Hlen. rewrite windows_eq in Hlen.
    destruct (Z_lt_dec end_ end_); [lia | simpl in Hlen; lia].
  - intros Hi Hlen. apply (IH Hlt i w Hi). lia.
Qed.

Section FetchOrdersRequests.

Variable strftime : datetime -> string.
Variable get_deliveries : string -> string -> result (list value).

(** However the loop ends, what it has asked for is the first windows
    of [windows]. *)
Lemma fetch_loop_prefix (end_ cur : datetime) :
  forall all_orders calls r ws,
  fetch_loop strftime get_deliveries end_ cur all_orders calls = (r, ws) ->
  exists k, ws = calls ++ take k (windows end_ cur).
Proof.
  pattern cur. apply (loop_ind end_). clear cur.
  intros cur IH all_orders calls r ws.
  rewrite fetch_loop_eq, windows_eq.
  destruct (Z_lt_dec cur end_) as [Hlt|Hge].
  2: { intros [= _ <-]. exists 0%nat. now rewrite app_nil_r. }
  specialize (IH Hlt).
  destruct (dt_add cur DAY) as [c1|e] eqn:Hadd.
  2: { intros [= _ <-]. exists 0%nat. now rewrite app_nil_r. }
  apply dt_add_day in Hadd as [-> _]. cbv zeta. simpl win_end.
  set (w := {| win_start := cur; win_end := Z.min (cur + DAY) end_ |}).
  assert (Hrec : forall acc, fetch_loop strftime get_deliveries end_
                   (Z.min (cur + DAY) end_) acc (calls ++ [w]) = (r, ws) ->
                 exists k, ws = calls ++ take k (w :: windows end_ (Z.min (cur + DAY) end_))).
  { intros acc Hrun. apply IH in Hrun as [k ->]. exists (S k).
    now rewrite <- app_assoc. }
  destruct (call strftime get_deliveries w) as [batch|ex]; [apply Hrec|].
  destruct ex; try apply Hrec; intros [= _ <-]; exists 1%nat; reflexivity.
Qed.

(** X1.  When [fetch_orders] returns, it has called the collaborator
    once for each started day of the range from [start] to the end
    clamped to [now]: the number of days, rounded up. *)
Theorem fetch_orders_request_count (start end_ now : datetime)
    (orders : list value) (ws : list DateWindow) :
  fetch_orders strftime get_deliveries start end_ now = (Ok orders, ws) ->
  length ws = Z.to_nat ((Z.min end_ now - start + DAY - 1) / DAY) /\
  (forall n : nat, Z.min end_ now - start = Z.of_nat n * DAY ->
                   length ws = n).
Proof.
  intros Hrun. rewrite fetch_orders_eq in Hrun.
  apply fetch_loop_ok_windows in Hrun. simpl in Hrun. subst ws.
  rewrite windows_length. unfold remaining_windows. split; [reflexivity|].
  intros n ->.
  assert (HD : 0 < DAY) by reflexivity.
  replace (Z.of_nat n * DAY + DAY - 1) with ((DAY - 1) + Z.of_nat n * DAY) by lia.
  rewrite Z.div_add, (Z.div_small (DAY - 1)) by lia. lia.
Qed.

(** X2.  When [fetch_orders] returns, every window it has asked for but
    the last is exactly 24 hours long. *)
Theorem fetch_orders_full_days (start end_ now : datetime)
    (orders : list value) (ws : list DateWindow) :
  fetch_orders strftime get_deliveries start end_ now = (Ok orders, ws) ->
  forall (i : nat) w, ws !! i = Some w -> (S i < length ws)%nat ->
  win_end w = win_start w + DAY.
Proof.
  intros Hrun. rewrite fetch_orders_eq in Hrun.
  apply fetch_loop_ok_windows in Hrun. simpl in Hrun. subst ws.
  apply windows_full_days.
Qed.

(** X3.  However [fetch_orders] ends, by returning or by an exception,
    the windows it has asked for are non-empty, lie between [start] and
    the end clamped to [now], and are the first ones of the partition of
    that range, in its order: nothing after [now] is asked for, and no
    window twice. *)
Theorem fetch_orders_requests_within_range (start end_ now : datetime) :
  let ws := snd (fetch_orders strftime get_deliveries start end_ now) in
  ws `prefix_of` windows (Z.min end_ now) start /\
  Forall (fun w => start <= win_start w /\ win_start w < win_end w /\
                   win_end w <= Z.min end_ now /\ win_end w <= now) ws.
Proof.
  intros ws.
  destruct (fetch_orders strftime get_deliveries start end_ now) as [r ws0] eqn:Hrun.
  subst ws. simpl.
  rewrite fetch_orders_eq in Hrun.
  apply fetch_loop_prefix in Hrun as [k ->]. simpl.
  set (e := Z.min end_ now).
  assert (Hpre : take k (windows e start) `prefix_of` windows e start).
  { apply prefix_take. }
  split; [exact Hpre|].
  assert (Hall : Forall (fun w => start <= win_start w /\ win_start w < win_end w /\
                           win_end w <= e /\ win_end w <= now) (windows e start)).
  { destruct (Z_lt_dec start e) as [Hlt|Hge].
    - assert (Hchain : chain start (windows e start) e) by (apply windows_chain; lia).
      pose proof (windows_span e start) as Hspan.
      assert (Hpos : Forall (fun w => win_start w < win_end w) (windows e start)).
      { eapply Forall_impl; [exact Hspan|]. simpl. intros; lia. }
      destruct (chain_bounds _ _ _ Hchain Hpos) as [_ Hb].
      rewrite Forall_forall in Hb, Hpos |- *. intros w Hw.
      specialize (Hb w Hw). specialize (Hpos w Hw). subst e. lia.
    - rewrite windows_eq. destruct (Z_lt_dec start e); [contradiction | constructor]. }
  eapply Forall_take in Hall. exact Hall.
Qed.

End FetchOrdersRequests.

Lemma fetch_orders_request_count_witness :
  fetch_orders day_stamp refused_on_day0 0 (2 * DAY + 5) (10 * DAY)
    = (Ok [order1; order1],
       [ {| win_start := 0; win_end := DAY |};
         {| win_start := DAY; win_end := 2 * DAY |};
         {| win_start := 2 * DAY; win_end := 2 * DAY + 5 |} ]) /\
  length [ {| win_start := 0; win_end := DAY |};
           {| win_start := DAY; win_end := 2 * DAY |};
           {| win_start := 2 * DAY; win_end := 2 * DAY + 5 |} ]
    = Z.to_nat ((Z.min (2 * DAY + 5) (10 * DAY) - 0 + DAY - 1) / DAY).
Proof.
  assert (Hrun : fetch_orders day_stamp refused_on_day0 0 (2 * DAY + 5) (10 * DAY)
    = (Ok [order1; order1],
       [ {| win_start := 0; win_end := DAY |};
         {| win_start := DAY; win_end := 2 * DAY |};
         {| win_start := 2 * DAY; win_end := 2 * DAY + 5 |} ]))
    by (vm_compute; reflexivity).
  split; [exact Hrun|].
  exact (proj1 (fetch_orders_request_count day_stamp refused_on_day0
                  0 (2 * DAY + 5) (10 * DAY) _ _ Hrun)).
Defined.

Lemma fetch_orders_full_days_witness :
  fetch_orders day_stamp refused_on_day0 0 (2 * DAY + 5) (10 * DAY)
    = (Ok [order1; order1],
       [ {| win_start := 0; win_end := DAY |};
         {| win_start := DAY; win_end := 2 * DAY |};
         {| win_start := 2 * DAY; win_end := 2 * DAY + 5 |} ]) /\
  win_end {| win_start := DAY; win_end := 2 * DAY |}
    = win_start {| win_start := DAY; win_end := 2 * DAY |} + DAY.
Proof.
  assert (Hrun : fetch_orders day_stamp refused_on_day0 0 (2 * DAY + 5) (10 * DAY)
    = (Ok [order1; order1],
       [ {| win_start := 0; win_end := DAY |};
         {| win_start := DAY; win_end := 2 * DAY |};
         {| win_start := 2 * DAY; win_end := 2 * DAY + 5 |} ]))
    by (vm_compute; reflexivity).
  split; [exact Hrun|].
  apply (fetch_orders_full_days day_stamp refused_on_day0
           0 (2 * DAY + 5) (10 * DAY) _ _ Hrun 1%nat).
  - reflexivity.
  - simpl. lia.
Defined.

(** ** The rendering of timestamps *)

Lemma digit_inj (a b : Z) :
  0 <= a < 10 -> 0 <= b < 10 -> digit a = digit b -> a = b.
Proof.
  unfold digit. intros Ha Hb H.
  apply (f_equal N_of_ascii) in H.
  rewrite !N_ascii_embedding in H by lia.
  lia.
Qed.

Lemma pad3_inj (a b : Z) :
  0 <= a < 1000 -> 0 <= b < 1000 -> pad3 a = pad3 b -> a = b.
Proof.
  unfold pad3. intros Ha Hb [= H1 H2 H3].
  apply digit_inj in H1; [|split; [apply Z.div_pos|apply Z.div_lt_upper_bound]; lia ..].
  apply digit_inj in H2; [|apply Z.mod_pos_bound; lia ..].
  apply digit_inj in H3; [|apply Z.mod_pos_bound; lia ..].
  rewrite (Z.div_mod a 10), (Z.div_mod b 10) by lia.
  rewrite (Z.div_mod (a / 10) 10), (Z.div_mod (b / 10) 10) by lia.
  rewrite !Z.div_div by lia. change (10 * 10) with 100.
  rewrite H1, H2, H3. reflexivity.
Qed.

Lemma millisecond_of (t : datetime) : microsecond t / 1000 = t / 1000 mod 1000.
Proof.
  unfold microsecond.
  change 1000000 with (1000 * 1000).
  rewrite Z.rem_mul_r by lia.
  rewrite Z.mul_comm, Z.div_add by lia.
  rewrite (Z.div_small (t mod 1000)) by (apply Z.mod_pos_bound; lia).
  reflexivity.
Qed.

Lemma string_app_inj_suffix (s1 s2 t1 t2 : string) :
  String.length t1 = String.length t2 ->
  (s1 ++ t1)%string = (s2 ++ t2)%string -> s1 = s2 /\ t1 = t2.
Proof.
  intros Hlen H. apply (f_equal chars) in H. rewrite !chars_app in H.
  apply app_inj_2 in H as [H1 H2]; [|now rewrite !chars_length].
  split; now apply chars_inj.
Qed.

Lemma format_dt_eq (strftime : datetime -> string) (t t' : datetime) :
  format_dt strftime t = format_dt strftime t' <->
  strftime t = strftime t' /\ t / 1000 mod 1000 = t' / 1000 mod 1000.
Proof.
  unfold format_dt. cbv zeta. rewrite !millisecond_of. split.
  - intros H. apply string_app_inj_suffix in H as [H1 H2]; [|reflexivity].
    split; [exact H1|].
    apply pad3_inj in H2; [exact H2|apply Z.mod_pos_bound; lia ..].
  - intros [-> ->]. reflexivity.
Qed.

(** X4.  [format_dt] keeps of a timestamp what [strftime] writes of it
    and the millisecond, on three digits, and nothing else: two
    timestamps are rendered alike exactly when [strftime] renders them
    alike and they have the same millisecond.  The microseconds below
    the millisecond are cut off, never rounded up. *)
Theorem format_dt_millisecond (strftime : datetime -> string) (t t' : datetime) :
  (format_dt strftime t = format_dt strftime t' <->
   strftime t = strftime t' /\ t / 1000 mod 1000 = t' / 1000 mod 1000) /\
  String.length (format_dt strftime t) = (String.length (strftime t) + 3)%nat /\
  format_dt strftime t = (strftime t ++ pad3 (t / 1000 mod 1000))%string.
Proof.
  split; [apply format_dt_eq|].
  unfold format_dt. cbv zeta. rewrite millisecond_of. split; [|reflexivity].
  rewrite <- !chars_length, chars_app, length_app. reflexivity.
Qed.

Section FetchOrdersShortRange.

Variable strftime : datetime -> string.
Variable get_deliveries : string -> string -> result (list value).

(** X5.  A range that starts and ends within the same millisecond is
    not empty for the loop: as long as [start] is before the end, one
    request is made, and its two bounds are the same string. *)
Theorem fetch_orders_within_a_millisecond (start end_ now : datetime) :
  valid_dt start -> start + DAY <= DT_MAX ->
  start < Z.min end_ now ->
  strftime start = strftime (Z.min end_ now) ->
  start / 1000 = Z.min end_ now / 1000 ->
  let s := format_dt strftime start in
  let w := {| win_start := start; win_end := Z.min end_ now |} in
  format_dt strftime (Z.min end_ now) = s /\
  fetch_orders strftime get_deliveries start end_ now =
    match get_deliveries s s with
    | Ok batch => (Ok batch, [w])
    | Raise HTTPError => (Ok [], [w])
    | Raise ex => (Raise ex, [w])
    end.
Proof.
  intros [Hs0 _] Hmax Hlt Hstr Hms s w.
  assert (Hfmt : format_dt strftime (Z.min end_ now) = s).
  { subst s. symmetry. apply format_dt_eq. split; [exact Hstr|].
    now rewrite Hms. }
  split; [exact Hfmt|].
  set (e := Z.min end_ now) in *.
  assert (Hnear : e < start + DAY).
  { assert (HD : DAY = 86400000000) by reflexivity.
    pose proof (Z.div_mod start 1000 ltac:(lia)).
    pose proof (Z.div_mod e 1000 ltac:(lia)).
    pose proof (Z.mod_pos_bound start 1000 ltac:(lia)).
    pose proof (Z.mod_pos_bound e 1000 ltac:(lia)).
    lia. }
  rewrite fetch_orders_eq. fold e.
  rewrite fetch_loop_eq.
  destruct (Z_lt_dec start e) as [_|Hn]; [|contradiction].
  rewrite dt_add_day_ok by lia. cbv zeta.
  rewrite Z.min_r by lia. fold w.
  unfold call. simpl win_start. simpl win_end. rewrite Hfmt. fold s.
  assert (Hstop : forall acc calls,
            fetch_loop strftime get_deliveries e e acc calls = (Ok acc, calls)).
  { intros acc calls. rewrite fetch_loop_eq.
    destruct (Z_lt_dec e e); [lia | reflexivity]. }
  destruct (get_deliveries s s) as [batch|ex].
  - apply Hstop.
  - destruct ex; try reflexivity. apply Hstop.
Qed.

End FetchOrdersShortRange.

Lemma fetch_orders_within_a_millisecond_witness :
  valid_dt 7 /\ 7 + DAY <= DT_MAX /\ 7 < Z.min 12 100 /\
  day_stamp 7 = day_stamp (Z.min 12 100) /\ 7 / 1000 = Z.min 12 100 / 1000 /\
  format_dt day_stamp (Z.min 12 100) = format_dt day_stamp 7 /\
  fetch_orders day_stamp refused_on_day0 7 12 100 =
    (Ok [], [{| win_start := 7; win_end := 12 |}]).
Proof.
  assert (H0 : valid_dt 7) by (vm_compute; split; discriminate).
  assert (H1 : 7 + DAY <= DT_MAX) by (vm_compute; discriminate).
  assert (H2 : 7 < Z.min 12 100) by (vm_compute; reflexivity).
  assert (H3 : day_stamp 7 = day_stamp (Z.min 12 100)) by (vm_compute; reflexivity).
  assert (H4 : 7 / 1000 = Z.min 12 100 / 1000) by (vm_compute; reflexivity).
  destruct (fetch_orders_within_a_millisecond day_stamp refused_on_day0
              7 12 100 H0 H1 H2 H3 H4) as [Hfmt Hrun].
  split; [exact H0|]. split; [exact H1|]. split; [exact H2|].
  split; [exact H3|]. split; [exact H4|]. split; [exact Hfmt|].
  rewrite Hrun. vm_compute. reflexivity.
Defined.

(** ** The characters of a string *)

(** The bound on the number of characters does not matter once it is
    large enough, and the length of the string is. *)
Lemma characters_from_enough (n : nat) :
  forall m s, (length s <= n)%nat -> (length s <= m)%nat ->
  characters_from n s = characters_from m s.
Proof.
  induction n as [|n IH]; intros m s Hn Hm.
  - destruct s; [|simpl in Hn; lia]. now destruct m.
  - destruct s as [|b0 s]; [now destruct m|].
    destruct m as [|m]; [simpl in Hm; lia|].
    cbn [characters_from]. f_equal. apply IH; rewrite length_drop; simpl in *; lia.
Qed.

Lemma characters_from_code_point (p t : list ascii) (c : N) :
  code_point p = Some c ->
  characters_from (length (p ++ t)) (p ++ t) =
  String.string_of_list_ascii p :: characters_from (length t) t.
Proof.
  intros Hp. destruct (code_point_width p c Hp) as (b0 & p' & -> & Hlen).
  assert (Hw : Nat.max 1 (width b0) = length (b0 :: p')) by (rewrite <- Hlen; simpl; lia).
  change (characters_from (length ((b0 :: p') ++ t)) ((b0 :: p') ++ t))
    with (String.string_of_list_ascii
            (take (Nat.max 1 (width b0)) ((b0 :: p') ++ t))
          :: characters_from (length (p' ++ t))
               (drop (Nat.max 1 (width b0)) ((b0 :: p') ++ t))).
  rewrite Hw, take_app_length, drop_app_length. f_equal.
  apply characters_from_enough; rewrite ?length_app; lia.
Qed.

(** The characters that the matcher goes through are those of
    [characters]. *)
Lemma characters_from_next_chars (n : nat) :
  forall d t cs,
  next_chars n d = Some (cs, []) ->
  length (characters_from (length (d ++ t)) (d ++ t)) =
  (n + length (characters_from (length t) t))%nat.
Proof.
  induction n as [|n IH]; intros d t cs; simpl.
  - intros [= <- ->]. reflexivity.
  - destruct (next_char d) as [[c d1]|] eqn:Hc; simpl; [|discriminate].
    destruct (next_chars n d1) as [[cs1 d2]|] eqn:Hcs; simpl; [|discriminate].
    intros [= <- ->].
    apply next_char_app in Hc as (p & -> & Hp).
    rewrite <- app_assoc, (characters_from_code_point p (d1 ++ t) c Hp).
    simpl. now rewrite (IH d1 t cs1 Hcs).
Qed.

Lemma characters_app_length (n : nat) (d t : string) (cs : list N) :
  next_chars n (chars d) = Some (cs, []) ->
  length (characters (d ++ t)) = (n + length (characters t))%nat.
Proof.
  intros Hd. unfold characters.
  rewrite <- !chars_length, chars_app. now apply characters_from_next_chars with cs.
Qed.

(** [len(s)] of an ASCII string is the number of its bytes. *)
Lemma characters_ascii_length (d t : string) :
  is_ascii d = true ->
  length (characters (d ++ t)) = (String.length d + length (characters t))%nat.
Proof.
  intros Hd. apply characters_app_length with (map N_of_ascii (chars d)).
  apply next_chars_ascii; [exact Hd|]. now rewrite chars_length.
Qed.

Lemma characters_nil (s : string) : characters s = [] <-> s = EmptyString.
Proof. destruct s; simpl; split; (reflexivity || discriminate). Qed.

(** ** The strings [PHONE_PATTERN] accepts *)

(** X6.  [PHONE_PATTERN.match] accepts exactly the strings made of
    [+380], one of the fifteen operator codes and seven decimal digits,
    of whatever script, that are not one ASCII digit seven times, and
    these strings followed by one newline; so an accepted string has 13
    characters, or 14 of which the last is a newline.  Among the ASCII
    strings these are the strings of the form the specification gives,
    with a newline after them or without.  A number written with the
    digits of another script is accepted, also when its seven digits are
    the same.  Nothing is stripped or normalised. *)
Theorem phone_pattern_accepted_strings :
  (forall s,
     re_match PHONE_PATTERN s = true <->
     exists op d,
       (s = ("+380" ++ op ++ d)%string \/ s = ("+380" ++ op ++ d ++ newline)%string) /\
       op ∈ operator_codes /\ decimal_digits 7 d = true /\ d ∉ repeated_suffixes) /\
  (forall s,
     re_match PHONE_PATTERN s = true ->
     length (characters s) = 13%nat \/
     length (characters s) = 14%nat /\ exists s', s = (s' ++ newline)%string) /\
  (forall s,
     is_ascii s = true ->
     (re_match PHONE_PATTERN s = true <->
      well_formed_phone s \/
      exists s', s = (s' ++ newline)%string /\ well_formed_phone s')) /\
  re_match PHONE_PATTERN phone_arabic = true /\
  re_match PHONE_PATTERN phone_arabic_repeated = true /\
  length (characters phone_arabic) = 13%nat /\
  is_ascii phone_arabic = false.
Proof.
  assert (Hop2 : forall op, op ∈ operator_codes ->
            is_ascii op = true /\ String.length op = 2%nat).
  { intros op Hop. unfold operator_codes in Hop.
    repeat (apply elem_of_cons in Hop as [->|Hop]; [split; reflexivity|]).
    inversion Hop. }
  split; [|split; [|split; [exact phone_pattern_well_formed|]]].
  - intros s. rewrite phone_pattern_spec. split.
    + intros (op & d & tail & -> & Hop & Hd & Hrep & [->| ->]);
        exists op, d; (split; [|tauto]).
      * left. now rewrite string_app_empty.
      * right. reflexivity.
    + intros (op & d & [->| ->] & Hop & Hd & Hrep).
      * exists op, d, EmptyString. rewrite string_app_empty. tauto.
      * exists op, d, newline. tauto.
  - intros s. rewrite phone_pattern_spec.
    intros (op & d & tail & -> & Hop & Hd & Hrep & Htail).
    apply Hop2 in Hop as [Hopa Hopl].
    unfold decimal_digits in Hd.
    destruct (next_chars 7 (chars d)) as [[cs [|b rest]]|] eqn:Hcs; try discriminate.
    rewrite (characters_ascii_length "+380" _ eq_refl).
    rewrite (characters_ascii_length op _ Hopa), Hopl.
    rewrite (characters_app_length 7 d tail cs Hcs).
    destruct Htail as [->| ->]; simpl; [left; reflexivity|].
    right. split; [reflexivity|].
    exists ("+380" ++ op ++ d)%string. now rewrite !string_app_assoc.
  - repeat split; vm_compute; reflexivity.
Qed.

(** ** When [summarize] raises *)

Lemma for_each_raise {S A : Type} (body : S -> A -> result S) (l : list A) :
  forall st e, for_each body st l = Raise e ->
  exists l1 x l2 st1,
    l = l1 ++ x :: l2 /\ for_each body st l1 = Ok st1 /\ body st1 x = Raise e.
Proof.
  induction l as [|x l IH]; intros st e Hrun; simpl in Hrun; [discriminate|].
  destruct (body st x) as [st'|e'] eqn:Hbody; simpl in Hrun.
  - apply IH in Hrun as (l1 & y & l2 & st1 & -> & Hl1 & Hy).
    exists (x :: l1), y, l2, st1. simpl. rewrite Hbody. simpl. auto.
  - injection Hrun as ->. exists [], x, l, st. auto.
Qed.

(** The exception of one iteration of the loop, and the record it is
    raised for. *)
Lemma summarize_body_raise (st : Locals) (o : value) (e : exn) :
  summarize_body st o = Raise e ->
  e = AttributeError /\ (is_dict o = false \/ is_dict (view o) = false) \/
  e = TypeError /\ is_dict o = true /\ is_dict (view o) = true /\
    has_customer (view o) = true /\ has_phone (view o) = true /\
    forall p, field (view o) "phone" <> VStr p.
Proof.
  unfold has_customer, has_phone, summarize_body, view.
  destruct o as [| | | | |l|d]; simpl; try (intros [= <-]; left; auto).
  destruct (truthy (default VNone (assoc "order" d))) eqn:Horder.
  - destruct (default VNone (assoc "order" d)) as [| | | | |l'|d'] eqn:Hod;
      simpl; try (intros [= <-]; left; auto).
    destruct (truthy (default VNone (assoc "customer" d'))); simpl; [|discriminate].
    destruct (truthy (default VNone (assoc "phone" d'))) eqn:Hph; simpl; [|discriminate].
    destruct (default VNone (assoc "phone" d')); simpl;
      try (intros [= <-]; right; repeat split; auto; discriminate).
  - simpl.
    destruct (truthy (default VNone (assoc "customer" d))); simpl; [|discriminate].
    destruct (truthy (default VNone (assoc "phone" d))) eqn:Hph; simpl; [|discriminate].
    destruct (default VNone (assoc "phone" d)); simpl;
      try (intros [= <-]; right; repeat split; auto; discriminate).
Qed.

Lemma classified_iff (o : value) :
  is_Some (classify o) <->
  is_dict o = true /\ is_dict (view o) = true /\
  (has_customer (view o) = true -> has_phone (view o) = true ->
   exists p, field (view o) "phone" = VStr p).
Proof.
  unfold classify, classify_record.
  destruct (is_dict o); simpl.
  2: { split; [intros [? [=]] | intros [[=] _]]. }
  destruct (is_dict (view o)); simpl.
  2: { split; [intros [? [=]] | intros (_ & [=] & _)]. }
  destruct (has_customer (view o)); simpl.
  2: { split; [intros _; repeat split; discriminate | eauto]. }
  destruct (has_phone (view o)); simpl.
  2: { split; [intros _; repeat split; discriminate | eauto]. }
  destruct (field (view o) "phone") eqn:Hph;
    (split; [intros [c Hc]; try discriminate Hc; repeat split; eauto
            | intros (_ & _ & Hp); destruct (Hp eq_refl eq_refl) as [p [=]]; eauto]).
Qed.

(** X7.  [summarize] returns a record exactly when every order is a
    JSON object, what a truthy [order] field holds is one too, and a
    truthy phone next to a truthy customer is a string.  Otherwise it
    raises at the first order that is not so, and returns nothing:
    [AttributeError] when the order, or what its [order] field holds, is
    not an object, [TypeError] when the phone is not a string. *)
Theorem summarize_failure (orders : list value) :
  let fit (o : value) :=
    is_dict o = true /\ is_dict (view o) = true /\
    (has_customer (view o) = true -> has_phone (view o) = true ->
     exists p, field (view o) "phone" = VStr p) in
  ((exists r, summarize orders = Ok r) <-> Forall fit orders) /\
  (forall e, summarize orders = Raise e ->
   exists l1 o l2,
     orders = l1 ++ o :: l2 /\ Forall fit l1 /\ ~ fit o /\
     (e = AttributeError /\ (is_dict o = false \/ is_dict (view o) = false) \/
      e = TypeError /\ is_dict o = true /\ is_dict (view o) = true /\
        has_customer (view o) = true /\ has_phone (view o) = true /\
        forall p, field (view o) "phone" <> VStr p)).
Proof.
  intros fit.
  assert (Hfit : forall l, Forall fit l <-> Forall (fun o => is_Some (classify o)) l).
  { intros l. apply Forall_iff. intros o. symmetry. apply classified_iff. }
  split.
  - rewrite Hfit. split.
    + intros [r Hr]. apply summarize_inv in Hr as (st & Hst & _).
      now apply for_each_summarize in Hst as [Hall _].
    + intros Hall. destruct (for_each_total orders Hall locals0) as [st Hst].
      unfold summarize. rewrite Hst. simpl. eauto.
  - intros e Hrun. unfold summarize in Hrun.
    destruct (for_each summarize_body locals0 orders) as [st|e'] eqn:Hloop;
      simpl in Hrun; [discriminate|]. injection Hrun as ->.
    apply for_each_raise in Hloop as (l1 & o & l2 & st1 & -> & Hl1 & Ho).
    exists l1, o, l2. split; [reflexivity|].
    split; [apply Hfit; now apply for_each_summarize in Hl1 as [Hall _]|].
    split.
    + intros Hf. apply classified_iff in Hf as [c Hc].
      pose proof (summarize_body_classify st1 o) as Hb. rewrite Hc in Hb. congruence.
    + now apply summarize_body_raise in Ho.
Qed.

(** ** Phones seen more than once *)

(** The number of times [p] is in [l]. *)
Local Abbreviation occurrences p l := (count (String.eqb p) l).

Lemma occurrences_pos (p : string) (l : list string) :
  (0 < occurrences p l)%nat <-> p ∈ l.
Proof.
  induction l as [|q l IH]; simpl; [split; [lia | inversion 1]|].
  rewrite elem_of_cons. destruct (String.eqb_spec p q); [split; [auto | lia]|].
  simpl. rewrite IH. split; [auto | intros [?|?]; [contradiction | assumption]].
Qed.

Lemma occurrences_snoc (p q : string) (l : list string) :
  occurrences p (l ++ [q]) = ((if String.eqb p q then 1 else 0) + occurrences p l)%nat.
Proof. rewrite count_app. simpl. lia. Qed.

(** [counter_add] keeps the keys in the order of their first occurrence
    and adds one to the count of its key. *)
Lemma counter_add_keys (p : string) (cnt : list (string * nat)) :
  (counter_add p cnt).*1 = if decide (p ∈ cnt.*1) then cnt.*1 else cnt.*1 ++ [p].
Proof.
  induction cnt as [|[q c] cnt IH]; csimpl.
  - reflexivity.
  - destruct (String.eqb_spec p q) as [->|Hne]; csimpl.
    + rewrite decide_True by (now left). reflexivity.
    + rewrite IH. case_decide as Hin.
      * rewrite decide_True by (now right). reflexivity.
      * rewrite decide_False; [reflexivity|].
        intros [?|?]%elem_of_cons; contradiction.
Qed.

Lemma counter_add_map (p : string) (cnt : list (string * nat)) :
  (list_to_map (counter_add p cnt) : gmap string nat) =
  <[p := S (default 0%nat ((list_to_map cnt : gmap string nat) !! p))]> (list_to_map cnt).
Proof.
  induction cnt as [|[q c] cnt IH]; simpl; [reflexivity|].
  destruct (String.eqb_spec p q) as [->|Hne]; simpl.
  - rewrite lookup_insert_eq. simpl. now rewrite insert_insert_eq.
  - rewrite IH, lookup_insert_ne by congruence.
    apply insert_insert_ne. congruence.
Qed.

(** What [Counter] holds: one item for each string of the list, with the
    number of its occurrences. *)
Lemma Counter_fold (l : list string) :
  forall cnt l0,
  NoDup cnt.*1 ->
  (forall p, p ∈ cnt.*1 <-> p ∈ l0) ->
  (forall p, default 0%nat ((list_to_map cnt : gmap string nat) !! p) = occurrences p l0) ->
  let cnt' := fold_left (fun cnt p => counter_add p cnt) l cnt in
  NoDup cnt'.*1 /\
  (forall p, p ∈ cnt'.*1 <-> p ∈ l0 ++ l) /\
  (forall p, default 0%nat ((list_to_map cnt' : gmap string nat) !! p)
             = occurrences p (l0 ++ l)).
Proof.
  induction l as [|q l IH]; intros cnt l0 Hnd Hkeys Hocc; simpl.
  - rewrite app_nil_r. auto.
  - specialize (IH (counter_add q cnt) (l0 ++ [q])).
    rewrite <- !app_assoc in IH. simpl in IH. apply IH; clear IH.
    + rewrite counter_add_keys. destruct (decide (q ∈ cnt.*1)) as [Hin|Hnin]; [exact Hnd|].
      apply NoDup_app. split; [exact Hnd|]. split; [|repeat constructor; set_solver].
      intros x Hx Hq. apply list_elem_of_singleton in Hq as ->. contradiction.
    + intros p. rewrite counter_add_keys, elem_of_app, list_elem_of_singleton, <- Hkeys.
      destruct (decide (q ∈ cnt.*1)) as [Hin|Hnin].
      * split; [auto | intros [?| ->]; assumption].
      * now rewrite elem_of_app, list_elem_of_singleton.
    + intros p. rewrite counter_add_map, occurrences_snoc, <- !Hocc.
      destruct (String.eqb_spec p q) as [->|Hne].
      * now rewrite lookup_insert_eq.
      * now rewrite lookup_insert_ne by congruence.
Qed.

Lemma Counter_spec (l : list string) :
  NoDup (Counter l).*1 /\
  (forall p c, (p, c) ∈ Counter l <-> p ∈ l /\ c = occurrences p l).
Proof.
  destruct (Counter_fold l [] []) as (Hnd & Hkeys & Hocc);
    [constructor | reflexivity | reflexivity |].
  simpl in Hkeys, Hocc. fold (Counter l) in Hnd, Hkeys, Hocc.
  split; [exact Hnd|].
  intros p c. rewrite (elem_of_list_to_map (M := gmap string) _ _ _ Hnd). split.
  - intros Hp. split.
    + apply Hkeys. apply list_elem_of_fmap. exists (p, c). split; [reflexivity|].
      now apply (elem_of_list_to_map (M := gmap string)).
    + rewrite <- Hocc, Hp. reflexivity.
  - intros [Hin ->]. apply Hkeys, list_elem_of_fmap in Hin as ([p' c'] & -> & Hin).
    apply (elem_of_list_to_map (M := gmap string)) in Hin; [|exact Hnd].
    simpl. rewrite <- Hocc, Hin. reflexivity.
Qed.

Lemma Counter_keys (l : list string) : (Counter l).*1 ≡ₚ remove_dups l.
Proof.
  destruct (Counter_spec l) as [Hnd Hc].
  apply NoDup_Permutation; [exact Hnd | apply NoDup_remove_dups|].
  intros p. rewrite elem_of_remove_dups, list_elem_of_fmap. split.
  - intros ([p' c] & -> & Hin). now apply Hc in Hin as [? _].
  - intros Hin. exists (p, occurrences p l). split; [reflexivity | apply Hc; auto].
Qed.

(** The record of [summarize], field by field. *)
Lemma summarize_fields (orders : list value) (r : SummaryRecord) :
  summarize orders = Ok r ->
  Forall (fun o => is_Some (classify o)) orders /\
  total r = length orders /\
  no_client r = count is_no_client orders /\
  no_phone r = count is_no_phone orders /\
  invalid r = sorted_set (filter (fun p => ~ phone_valid p) (phones_considered orders)) /\
  inv_count r = length (filter (fun p => ~ phone_valid p) (phones_considered orders)) /\
  zero r = count is_zero_sum orders /\
  unique r = length (Counter (phones_considered orders)) /\
  dup r = filter (fun pc => (1 < snd pc)%nat) (Counter (phones_considered orders)).
Proof.
  intros Hrun.
  apply summarize_inv in Hrun as (st & Hst & Ht & Hnc & Hnp & Hi & Hic & Hz & Hu & Hd).
  apply for_each_summarize in Hst as (Hall & Enc & Enp & Eph & Ei & Ez).
  simpl in *. rewrite Eph in Hu, Hd. rewrite Ei in Hi, Hic. 
  rewrite Hnc, Hnp, Hz, Enc, Enp, Ez. auto 10.
Qed.

Lemma summarize_returns (orders : list value) :
  (exists r, summarize orders = Ok r) <-> Forall (fun o => is_Some (classify o)) orders.
Proof.
  split.
  - intros [r Hr]. now apply summarize_fields in Hr as [Hall _].
  - intros Hall. destruct (for_each_total orders Hall locals0) as [st Hst].
    unfold summarize. rewrite Hst. simpl. eauto.
Qed.

(** The items of [Counter] with a count above one. *)
Lemma Counter_dup (phones : list string) :
  let d := filter (fun pc => (1 < snd pc)%nat) (Counter phones) in
  NoDup d.*1 /\
  (forall p c, (p, c) ∈ d <-> c = occurrences p phones /\ (1 < c)%nat).
Proof.
  intros d. destruct (Counter_spec phones) as [Hnd Hc]. split.
  - eapply sublist_NoDup; [exact Hnd|]. apply fmap_sublist, sublist_filter.
  - intros p c. subst d. rewrite list_elem_of_filter, Hc. simpl. split.
    + intros (Hlt & _ & ->). auto.
    + intros [-> Hlt]. split; [exact Hlt|]. split; [|reflexivity].
      apply occurrences_pos. lia.
Qed.

(** X8.  In the record [summarize] returns, [unique] is the number of
    distinct phones among the orders that have a customer and a phone,
    and [dup] holds, once each, exactly the phones that occur more than
    once among them, each with the number of its occurrences. *)
Theorem summarize_duplicates (orders : list value) (r : SummaryRecord) :
  summarize orders = Ok r ->
  let phones := phones_considered orders in
  unique r = length (remove_dups phones) /\
  NoDup (dup r).*1 /\
  (forall p c, (p, c) ∈ dup r <-> c = count (String.eqb p) phones /\ (1 < c)%nat) /\
  (forall p, p ∈ (dup r).*1 <-> (1 < count (String.eqb p) phones)%nat).
Proof.
  intros Hrun phones.
  apply summarize_fields in Hrun as (_ & _ & _ & _ & _ & _ & _ & Hu & Hd).
  fold phones in Hu, Hd.
  destruct (Counter_dup phones) as [Hnd Hpairs]. rewrite <- Hd in Hnd, Hpairs.
  split; [|split; [|split]].
  - rewrite Hu, <- (length_fmap fst). now rewrite Counter_keys.
  - exact Hnd.
  - exact Hpairs.
  - intros p. rewrite list_elem_of_fmap. split.
    + intros ([p' c] & -> & Hin). simpl. apply Hpairs in Hin as [-> Hlt]. exact Hlt.
    + intros Hlt. exists (p, occurrences p phones). split; [reflexivity|].
      apply Hpairs. auto.
Qed.

Lemma summarize_duplicates_witness :
  summarize [order1; order1] =
    Ok {| total := 2; no_client := 0; no_phone := 0; invalid := [];
          inv_count := 0; zero := 0; unique := 1; dup := [(phone1, 2%nat)] |} /\
  1%nat = length (remove_dups (phones_considered [order1; order1])).
Proof.
  assert (Hrun : summarize [order1; order1] =
    Ok {| total := 2; no_client := 0; no_phone := 0; invalid := [];
          inv_count := 0; zero := 0; unique := 1; dup := [(phone1, 2%nat)] |})
    by (vm_compute; reflexivity).
  split; [exact Hrun|].
  exact (proj1 (summarize_duplicates [order1; order1] _ Hrun)).
Defined.

(** ** [summarize] and the order and grouping of the orders *)

Lemma phones_considered_app (a b : list value) :
  phones_considered (a ++ b) = phones_considered a ++ phones_considered b.
Proof. apply omap_app. Qed.

Lemma unique_length (l : list string) :
  length (Counter l) = size (list_to_set l : gset string).
Proof.
  rewrite <- (length_fmap fst), Counter_keys.
  rewrite <- (size_list_to_set (C := gset string)) by apply NoDup_remove_dups.
  f_equal. apply set_eq. intros p.
  now rewrite !elem_of_list_to_set, elem_of_remove_dups.
Qed.

Lemma sorted_set_elem_of (l : list string) (p : string) : p ∈ sorted_set l <-> p ∈ l.
Proof. apply sorted_set_spec. Qed.

(** X9.  The summary of two lists of orders put one after the other, as
    [main] does with the orders of the selected organisations: it exists
    exactly when both lists have one, its counts are the sums of theirs,
    its invalid phones are theirs together, and the number of distinct
    phones is at least that of each list and at most their sum. *)
Theorem summarize_concatenation (a b : list value) :
  ((exists r, summarize (a ++ b) = Ok r) <->
   (exists ra, summarize a = Ok ra) /\ (exists rb, summarize b = Ok rb)) /\
  (forall ra rb r,
     summarize a = Ok ra -> summarize b = Ok rb -> summarize (a ++ b) = Ok r ->
     total r = (total ra + total rb)%nat /\
     no_client r = (no_client ra + no_client rb)%nat /\
     no_phone r = (no_phone ra + no_phone rb)%nat /\
     inv_count r = (inv_count ra + inv_count rb)%nat /\
     zero r = (zero ra + zero rb)%nat /\
     (forall p, p ∈ invalid r <-> p ∈ invalid ra \/ p ∈ invalid rb) /\
     (unique ra <= unique r)%nat /\ (unique rb <= unique r)%nat /\
     (unique r <= unique ra + unique rb)%nat).
Proof.
  split.
  - rewrite !summarize_returns. apply Forall_app.
  - intros ra rb r Ha Hb Hab.
    apply summarize_fields in Ha as (_ & Hta & Hnca & Hnpa & Hia & Hica & Hza & Hua & _).
    apply summarize_fields in Hb as (_ & Htb & Hncb & Hnpb & Hib & Hicb & Hzb & Hub & _).
    apply summarize_fields in Hab as (_ & Ht & Hnc & Hnp & Hi & Hic & Hz & Hu & _).
    rewrite phones_considered_app in Hi, Hic, Hu.
    rewrite filter_app in Hi, Hic.
    rewrite Ht, Hta, Htb, Hnc, Hnca, Hncb, Hnp, Hnpa, Hnpb, Hic, Hica, Hicb,
      Hz, Hza, Hzb, !count_app, !length_app.
    do 5 (split; [reflexivity|]).
    split.
    { intros p. rewrite Hi, Hia, Hib, !sorted_set_elem_of. apply elem_of_app. }
    rewrite Hu, Hua, Hub, !unique_length, list_to_set_app_L.
    split; [apply subseteq_size; set_solver|].
    split; [apply subseteq_size; set_solver|].
    rewrite size_union_alt.
    assert (size ((list_to_set (phones_considered b) : gset string)
                    ∖ list_to_set (phones_considered a))
            <= size (list_to_set (phones_considered b) : gset string))%nat
      as Hsz by (apply subseteq_size, subseteq_difference_l; reflexivity).
    lia.
Qed.

Lemma summarize_concatenation_witness :
  exists ra rb r,
    summarize [order1] = Ok ra /\ summarize [order1; VDict []] = Ok rb /\
    summarize ([order1] ++ [order1; VDict []]) = Ok r /\
    total r = (total ra + total rb)%nat /\ (unique r <= unique ra + unique rb)%nat.
Proof.
  destruct (summarize [order1]) as [ra|] eqn:Ha; [|vm_compute in Ha; discriminate].
  destruct (summarize [order1; VDict []]) as [rb|] eqn:Hb; [|vm_compute in Hb; discriminate].
  destruct (summarize ([order1] ++ [order1; VDict []])) as [r|] eqn:Hab;
    [|vm_compute in Hab; discriminate].
  exists ra, rb, r.
  destruct (proj2 (summarize_concatenation [order1] [order1; VDict []]) ra rb r Ha Hb Hab)
    as (Ht & _ & _ & _ & _ & _ & _ & _ & Hu).
  auto.
Defined.

Lemma count_Permutation {A : Type} (f : A -> bool) (l l' : list A) :
  l ≡ₚ l' -> count f l = count f l'.
Proof. induction 1; simpl; lia. Qed.

Lemma sorted_set_Permutation (l l' : list string) :
  l ≡ₚ l' -> sorted_set l = sorted_set l'.
Proof. intros H. unfold sorted_set. now rewrite (list_to_set_perm_L (C := gset string) _ _ H). Qed.

(** X10.  The order in which the orders come does not matter for the
    summary: for the same orders in another order [summarize] returns a
    record with the same counts, the same list of invalid phones and the
    same duplicates with the same numbers; only the order of the items of
    [dup] can differ. *)
Theorem summarize_permutation (orders orders' : list value) (r : SummaryRecord) :
  orders ≡ₚ orders' -> summarize orders = Ok r ->
  exists r', summarize orders' = Ok r' /\
    total r' = total r /\ no_client r' = no_client r /\ no_phone r' = no_phone r /\
    invalid r' = invalid r /\ inv_count r' = inv_count r /\ zero r' = zero r /\
    unique r' = unique r /\ dup r' ≡ₚ dup r.
Proof.
  intros Hperm Hrun.
  assert (Hret : exists r', summarize orders' = Ok r').
  { apply summarize_returns. rewrite <- Hperm. apply summarize_returns. eauto. }
  destruct Hret as [r' Hrun']. exists r'. split; [exact Hrun'|].
  assert (Hph : phones_considered orders ≡ₚ phones_considered orders').
  { unfold phones_considered. now rewrite Hperm. }
  assert (Hbad : filter (fun p => ~ phone_valid p) (phones_considered orders)
                 ≡ₚ filter (fun p => ~ phone_valid p) (phones_considered orders')).
  { now rewrite Hph. }
  apply summarize_fields in Hrun as (_ & Ht & Hnc & Hnp & Hi & Hic & Hz & Hu & Hdup).
  apply summarize_fields in Hrun' as (_ & Ht' & Hnc' & Hnp' & Hi' & Hic' & Hz' & Hu' & Hdup').
  destruct (Counter_dup (phones_considered orders)) as [Hnd Hd].
  destruct (Counter_dup (phones_considered orders')) as [Hnd' Hd'].
  rewrite <- Hdup in Hnd, Hd. rewrite <- Hdup' in Hnd', Hd'.
  rewrite Ht, Ht', Hnc, Hnc', Hnp, Hnp', Hi, Hi', Hic, Hic', Hz, Hz', Hu, Hu'.
  rewrite !(count_Permutation _ _ _ Hperm), (sorted_set_Permutation _ _ Hbad),
    !unique_length, (list_to_set_perm_L (C := gset string) _ _ Hph).
  rewrite Hperm at 1. rewrite Hbad.
  do 7 (split; [reflexivity|]).
  apply NoDup_Permutation.
  - eapply NoDup_fmap_1. exact Hnd'.
  - eapply NoDup_fmap_1. exact Hnd.
  - intros [p c]. rewrite Hd, Hd', (count_Permutation _ _ _ Hph). reflexivity.
Qed.

Lemma summarize_permutation_witness :
  [order1; VDict []] ≡ₚ [VDict []; order1] /\
  exists r r', summarize [order1; VDict []] = Ok r /\
    summarize [VDict []; order1] = Ok r' /\ unique r' = unique r.
Proof.
  assert (Hperm : [order1; VDict []] ≡ₚ [VDict []; order1]) by apply perm_swap.
  split; [exact Hperm|].
  destruct (summarize [order1; VDict []]) as [r|] eqn:Hr; [|vm_compute in Hr; discriminate].
  destruct (summarize_permutation _ _ r Hperm Hr) as (r' & Hr' & _ & _ & _ & _ & _ & _ & Hu & _).
  exists r, r'. auto.
Defined.

(** ** The requests to the API *)

Lemma raise_for_status_spec (r : response) :
  (raise_for_status r = Raise HTTPError <-> 400 <= status_code r < 600) /\
  (raise_for_status r = Ok tt <-> ~ 400 <= status_code r < 600).
Proof.
  unfold raise_for_status.
  destruct (400 <=? status_code r) eqn:H1; destruct (status_code r <? 600) eqn:H2;
    simpl; split; split; try discriminate; try reflexivity; lia.
Qed.

Lemma raise_for_status_cases (r : response) :
  raise_for_status r = Raise HTTPError /\ 400 <= status_code r < 600 \/
  raise_for_status r = Ok tt /\ ~ 400 <= status_code r < 600.
Proof.
  destruct (raise_for_status_spec r) as [H1 H2].
  destruct (decide (400 <= status_code r < 600)) as [H|H]; [left | right];
    (split; [|exact H]); [apply H1 | apply H2]; exact H.
Qed.

Lemma add_batch_raise (orders : list value) (batch : value) (e : exn) :
  add_batch orders batch = Raise e -> e = AttributeError \/ e = TypeError.
Proof.
  unfold add_batch. destruct batch as [| | | | | |d]; simpl; try (intros [= <-]; auto).
  destruct (default (VList []) (assoc "orders" d)); simpl; intros [= <-]; auto.
Qed.

Lemma for_each_add_batch_raise (batches : list value) :
  forall orders e, for_each add_batch orders batches = Raise e ->
  e = AttributeError \/ e = TypeError.
Proof.
  intros orders e Hrun.
  apply for_each_raise in Hrun as (_ & b & _ & st & _ & _ & Hb).
  now apply add_batch_raise in Hb.
Qed.

Lemma for_each_add_batch (batches : list value) :
  forall oss acc,
  Forall2 orders_of_batch batches oss ->
  for_each add_batch acc batches = Ok (acc ++ concat oss).
Proof.
  induction batches as [|b batches IH]; intros oss acc Hall.
  - apply Forall2_nil_inv_l in Hall as ->. simpl. now rewrite app_nil_r.
  - apply Forall2_cons_inv_l in Hall as (os & oss' & (d & -> & Hd) & Hall & ->).
    assert (Hb : add_batch acc (VDict d) = Ok (acc ++ os)).
    { unfold add_batch, get_default.
      destruct Hd as [Hd|[Hd ->]]; rewrite Hd; reflexivity. }
    change (for_each add_batch acc (VDict d :: batches))
      with (add_batch acc (VDict d) ≫= fun st' => for_each add_batch st' batches).
    rewrite Hb. simpl. rewrite (IH _ _ Hall). now rewrite <- app_assoc.
Qed.

Lemma flatten_raise (data : value) (e : exn) :
  flatten data = Raise e -> e = AttributeError \/ e = TypeError.
Proof.
  unfold flatten. destruct data as [| | | | | |d]; simpl; try (intros [= <-]; auto).
  destruct (iter (default (VList []) (assoc "ordersByOrganizations" d))) as [bs|e']
    eqn:Hiter; simpl.
  - apply for_each_add_batch_raise.
  - intros [= <-].
    destruct (default (VList []) (assoc "ordersByOrganizations" d));
      simpl in Hiter; try discriminate; injection Hiter as <-; auto.
Qed.

Section ApiFacts.

Variable http : request -> result response.
Variable fmt : value -> string.
Variable token : value.
Variable url : string.
Variable org_id : value.

Lemma get_deliveries_cases (start end_ : string) :
  match http (deliveries_request fmt token url org_id start end_) with
  | Raise e => get_deliveries http fmt token url org_id start end_ = Raise e
  | Ok r =>
      (400 <= status_code r < 600 /\
       get_deliveries http fmt token url org_id start end_ = Raise HTTPError) \/
      (~ 400 <= status_code r < 600 /\
       match content r with
       | None => get_deliveries http fmt token url org_id start end_ = Raise JSONDecodeError
       | Some data => get_deliveries http fmt token url org_id start end_ = flatten data
       end)
  end.
Proof.
  unfold get_deliveries.
  destruct (http (deliveries_request fmt token url org_id start end_)) as [r|e];
    simpl; [|reflexivity].
  destruct (raise_for_status_cases r) as [[-> Hs]|[-> Hs]]; simpl; [left; auto|].
  right. split; [exact Hs|]. unfold json. destruct (content r); reflexivity.
Qed.

Local Abbreviation get_deliveries := (get_deliveries http fmt token url org_id).
Local Abbreviation deliveries_request := (deliveries_request fmt token url org_id).

(** X11.  [get_deliveries] raises [HTTPError] exactly when the answer to
    its request has a 4xx or 5xx status (or the sending itself raised
    it); whatever else it raises is what the sending raised,
    [JSONDecodeError], [AttributeError] or [TypeError]. *)
Theorem get_deliveries_http_error (start end_ : string) :
  (get_deliveries start end_ = Raise HTTPError <->
   http (deliveries_request start end_) = Raise HTTPError \/
   exists r, http (deliveries_request start end_) = Ok r /\ 400 <= status_code r < 600) /\
  (forall e, get_deliveries start end_ = Raise e ->
   http (deliveries_request start end_) = Raise e \/
   e = HTTPError \/ e = JSONDecodeError \/ e = AttributeError \/ e = TypeError).
Proof.
  pose proof (get_deliveries_cases start end_) as Hc.
  destruct (http (deliveries_request start end_)) as [r|e0].
  - destruct Hc as [[Hs Hc]|[Hs Hc]].
    + rewrite Hc. split.
      * split; [intros _; right; eauto | reflexivity].
      * intros e [= <-]. auto.
    + destruct (content r) as [data|]; rewrite Hc.
      * split.
        -- split.
           ++ intros He. apply flatten_raise in He as [?|?]; discriminate.
           ++ intros [[=]|(r' & [= <-] & Hs')]. contradiction.
        -- intros e He. apply flatten_raise in He as [->| ->]; auto.
      * split.
        -- split; [discriminate|]. intros [[=]|(r' & [= <-] & Hs')]. contradiction.
        -- intros e [= <-]. auto.
  - rewrite Hc. split.
    + split; [intros [= ->]; auto|]. intros [[= ->]|(r' & [=] & _)]. reflexivity.
    + intros e [= <-]. auto.
Qed.

(** X12.  From an answer without error status whose document has under
    [ordersByOrganizations] a list of objects, each with a list under
    [orders] or without that key, [get_deliveries] returns the orders of
    all the batches, in the order of the document; a document without
    [ordersByOrganizations] gives no orders. *)
Theorem get_deliveries_flattens (start end_ : string) (r : response)
    (d : list (string * value)) :
  http (deliveries_request start end_) = Ok r ->
  ~ 400 <= status_code r < 600 ->
  content r = Some (VDict d) ->
  (forall batches oss,
     assoc "ordersByOrganizations" d = Some (VList batches) ->
     Forall2 orders_of_batch batches oss ->
     get_deliveries start end_ = Ok (concat oss)) /\
  (assoc "ordersByOrganizations" d = None -> get_deliveries start end_ = Ok []).
Proof.
  intros Hhttp Hs Hd.
  pose proof (get_deliveries_cases start end_) as Hc.
  rewrite Hhttp in Hc. destruct Hc as [[Hs' _]|[_ Hc]]; [contradiction|].
  rewrite Hd in Hc. rewrite Hc. unfold flatten, get_default. split.
  - intros batches oss -> Hall. simpl.
    now rewrite (for_each_add_batch _ _ [] Hall).
  - intros ->. reflexivity.
Qed.

(** X13.  A [null] is not an empty list: when the document holds
    [null] (or a number, or a boolean) under [ordersByOrganizations], or
    one of its batches does under [orders], [get_deliveries] raises
    [TypeError], which the loop of [fetch_orders] does not catch. *)
Theorem get_deliveries_null (start end_ : string) (r : response)
    (d : list (string * value)) (v : value) :
  http (deliveries_request start end_) = Ok r ->
  ~ 400 <= status_code r < 600 ->
  content r = Some (VDict d) ->
  iter v = Raise TypeError ->
  (assoc "ordersByOrganizations" d = Some v ->
   get_deliveries start end_ = Raise TypeError) /\
  (forall l1 bd l2 oss,
     assoc "ordersByOrganizations" d = Some (VList (l1 ++ VDict bd :: l2)) ->
     Forall2 orders_of_batch l1 oss ->
     assoc "orders" bd = Some v ->
     get_deliveries start end_ = Raise TypeError).
Proof.
  intros Hhttp Hs Hd Hv.
  pose proof (get_deliveries_cases start end_) as Hc.
  rewrite Hhttp in Hc. destruct Hc as [[Hs' _]|[_ Hc]]; [contradiction|].
  rewrite Hd in Hc. rewrite Hc. unfold flatten, get_default. split.
  - intros ->. simpl. rewrite Hv. reflexivity.
  - intros l1 bd l2 oss -> Hall Hbd. simpl.
    assert (Happ : forall l acc acc', for_each add_batch acc l = Ok acc' ->
              for_each add_batch acc (l ++ VDict bd :: l2) = Raise TypeError).
    { assert (Hb : forall acc, add_batch acc (VDict bd) = Raise TypeError).
      { intros acc. unfold add_batch, get_default. rewrite Hbd. simpl.
        rewrite Hv. reflexivity. }
      induction l as [|b l IH]; intros acc acc' Hl.
      - change (for_each add_batch acc ([] ++ VDict bd :: l2))
          with (add_batch acc (VDict bd) ≫= fun st' => for_each add_batch st' l2).
        rewrite Hb. reflexivity.
      - change (for_each add_batch acc ((b :: l) ++ VDict bd :: l2))
          with (add_batch acc b ≫=
                fun st' => for_each add_batch st' (l ++ VDict bd :: l2)).
        change (for_each add_batch acc (b :: l))
          with (add_batch acc b ≫= fun st' => for_each add_batch st' l) in Hl.
        destruct (add_batch acc b) as [acc1|]; simpl in *; [eauto | discriminate]. }
    eapply Happ. apply (for_each_add_batch _ _ [] Hall).
Qed.

End ApiFacts.

Lemma get_deliveries_http_error_witness :
  get_deliveries example_server example_fmt (VStr "t1") "gone" (VStr "org1") "a" "b"
    = Raise HTTPError /\
  exists r, example_server (deliveries_request example_fmt (VStr "t1") "gone" (VStr "org1") "a" "b")
              = Ok r /\ 400 <= status_code r < 600.
Proof.
  split; [reflexivity|].
  destruct (proj1 (proj1 (get_deliveries_http_error example_server example_fmt
                            (VStr "t1") "gone" (VStr "org1") "a" "b")) eq_refl)
    as [H|H]; [discriminate H | exact H].
Defined.

Lemma get_deliveries_flattens_witness :
  get_deliveries example_server example_fmt (VStr "t1") "deliveries" (VStr "org1") "a" "b"
    = Ok [order1; order1].
Proof.
  assert (Hs : ~ 400 <= 200 < 600) by lia.
  refine (proj1 (get_deliveries_flattens example_server example_fmt
                   (VStr "t1") "deliveries" (VStr "org1") "a" "b" _ _ eq_refl Hs eq_refl)
            _ [[order1; order1]; []] eq_refl _).
  repeat constructor.
  - eexists. split; [reflexivity|]. left. reflexivity.
  - eexists. split; [reflexivity|]. right. split; reflexivity.
Defined.

Lemma get_deliveries_null_witness :
  iter VNone = Raise TypeError /\
  get_deliveries example_server example_fmt (VStr "t1") "null" (VStr "org1") "a" "b"
    = Raise TypeError.
Proof.
  assert (Hs : ~ 400 <= 200 < 600) by lia.
  split; [reflexivity|].
  exact (proj1 (get_deliveries_null example_server example_fmt
                  (VStr "t1") "null" (VStr "org1") "a" "b" _ _ VNone
                  eq_refl Hs eq_refl eq_refl) eq_refl).
Defined.

(** ** The collection loop and the API together *)

Section FetchOrdersExceptions.

Variable strftime : datetime -> string.
Variable get_deliveries : string -> string -> result (list value).

Lemma fetch_loop_raise (lo end_ cur : datetime) :
  forall all_orders calls e ws,
  lo <= cur ->
  fetch_loop strftime get_deliveries end_ cur all_orders calls = (Raise e, ws) ->
  e <> HTTPError /\
  (e = OverflowError /\ (lo < 0 \/ DT_MAX < end_ + DAY) \/
   exists w, last ws = Some w /\ call strftime get_deliveries w = Raise e).
Proof.
  pattern cur. apply (loop_ind end_). clear cur.
  intros cur IH all_orders calls e ws Hlo.
  rewrite fetch_loop_eq.
  destruct (Z_lt_dec cur end_) as [Hlt|Hge]; [|discriminate].
  assert (HD : 0 < DAY) by reflexivity.
  specialize (IH Hlt).
  destruct (dt_add cur DAY) as [c1|e'] eqn:Hadd.
  - apply dt_add_day in Hadd as [-> _]. cbv zeta. simpl win_end.
    set (w := {| win_start := cur; win_end := Z.min (cur + DAY) end_ |}).
    assert (Hlo' : lo <= Z.min (cur + DAY) end_) by lia.
    destruct (call strftime get_deliveries w) as [batch|ex] eqn:Hcall;
      [intros Hrun; eapply IH; eauto|].
    destruct ex; try (intros Hrun; eapply IH; eauto; fail); intros [= <- <-];
      (split; [discriminate|]); right; exists w; rewrite last_snoc; auto.
  - intros [= <- <-]. unfold dt_add in Hadd.
    destruct ((0 <=? cur + DAY) && (cur + DAY <=? DT_MAX)) eqn:Hb; [discriminate|].
    injection Hadd as <-. split; [discriminate|]. left. split; [reflexivity|].
    apply andb_false_iff in Hb as [Hb|Hb]; [left | right]; lia.
Qed.

(** X14.  No [HTTPError] ever leaves [fetch_orders]: an exception it
    raises is the one its last call of the collaborator raised, which is
    not [HTTPError], or the [OverflowError] of [cur + timedelta(days=1)],
    which needs a start before the first datetime or a clock within a
    day of the last one. *)
Theorem fetch_orders_exceptions (start end_ now : datetime) (e : exn)
    (ws : list DateWindow) :
  fetch_orders strftime get_deliveries start end_ now = (Raise e, ws) ->
  e <> HTTPError /\
  (e = OverflowError /\ (start < 0 \/ DT_MAX < now + DAY) \/
   exists w, last ws = Some w /\
     get_deliveries (format_dt strftime (win_start w)) (format_dt strftime (win_end w))
       = Raise e).
Proof.
  intros Hrun. rewrite fetch_orders_eq in Hrun.
  apply (fetch_loop_raise start) in Hrun as [Hne Hrun]; [|lia].
  split; [exact Hne|].
  destruct Hrun as [[-> Hov]|Hlast]; [left | right; exact Hlast].
  split; [reflexivity | lia].
Qed.

End FetchOrdersExceptions.

Lemma fetch_orders_exceptions_witness :
  fetch_orders day_stamp unreachable_on_day0 0 (2 * DAY) (10 * DAY)
    = (Raise ConnectionError, [{| win_start := 0; win_end := DAY |}]) /\
  ConnectionError <> HTTPError.
Proof.
  assert (Hrun : fetch_orders day_stamp unreachable_on_day0 0 (2 * DAY) (10 * DAY)
    = (Raise ConnectionError, [{| win_start := 0; win_end := DAY |}]))
    by (vm_compute; reflexivity).
  split; [exact Hrun|].
  exact (proj1 (fetch_orders_exceptions day_stamp unreachable_on_day0
                  0 (2 * DAY) (10 * DAY) _ _ Hrun)).
Defined.

Section Collection.

Variable http : request -> result response.
Variable fmt : value -> string.
Variable token : value.
Variable url : string.
Variable org_id : value.
Variable strftime : datetime -> string.

(** The request that the loop sends for a window. *)
Local Abbreviation request_for w :=
  (deliveries_request fmt token url org_id
     (format_dt strftime (win_start w)) (format_dt strftime (win_end w))).

Lemma window_orders_call (start end_ : string) (orders : list value) :
  window_orders http (deliveries_request fmt token url org_id start end_) orders ->
  get_deliveries http fmt token url org_id start end_ = Raise HTTPError /\ orders = [] \/
  get_deliveries http fmt token url org_id start end_ = Ok orders.
Proof.
  intros (r & Hhttp & Hr).
  pose proof (get_deliveries_cases http fmt token url org_id start end_) as Hc.
  rewrite Hhttp in Hc.
  destruct Hr as [[Hs ->]|(Hs & d & Hd & Hdoc)].
  - left. destruct Hc as [[_ Hc]|[Hs' _]]; [auto | contradiction].
  - right. destruct Hc as [[Hs' _]|[_ Hc]]; [contradiction|].
    rewrite Hd in Hc. rewrite Hc. unfold flatten, get_default.
    destruct Hdoc as [[-> ->]|(batches & oss & -> & Hall & ->)]; [reflexivity|].
    simpl. now rewrite (for_each_add_batch _ _ [] Hall).
Qed.

(** X15.  The collection against the API: when every window of the
    range is answered, with an error status or with a document of
    batches of orders, [fetch_orders] returns the orders of the answers
    without error status, window after window and batch after batch, and
    has sent one request for each window. *)
Theorem fetch_orders_from_api (start end_ now : datetime) (oss : list (list value)) :
  valid_dt start -> now + DAY <= DT_MAX ->
  Forall2 (fun w orders => window_orders http (request_for w) orders)
    (windows (Z.min end_ now) start) oss ->
  fetch_orders strftime (get_deliveries http fmt token url org_id) start end_ now
    = (Ok (concat oss), windows (Z.min end_ now) start).
Proof.
  intros [Hs0 _] Hnow Hall.
  rewrite fetch_orders_eq.
  assert (Hcalls : Forall (fun w => goes_on (call strftime
            (get_deliveries http fmt token url org_id) w)) (windows (Z.min end_ now) start)
          /\ map (batch_of strftime (get_deliveries http fmt token url org_id))
               (windows (Z.min end_ now) start) = oss).
  { induction Hall as [|w os ws oss' Hw _ [IH1 IH2]]; [split; [constructor | reflexivity]|].
    apply window_orders_call in Hw. split.
    - constructor; [|exact IH1]. unfold call.
      destruct Hw as [[-> _]| ->]; simpl; auto.
    - simpl. rewrite IH2. f_equal. unfold batch_of, call.
      destruct Hw as [[-> ->]| ->]; reflexivity. }
  destruct Hcalls as [Hgo Hmap].
  rewrite fetch_loop_windows; [|lia|lia|exact Hgo].
  now rewrite Hmap.
Qed.

End Collection.

Lemma fetch_orders_from_api_witness :
  valid_dt 0 /\ 10 * DAY + DAY <= DT_MAX /\
  fetch_orders day_stamp
    (get_deliveries example_server example_fmt (VStr "t1") "deliveries" (VStr "org1"))
    0 (2 * DAY) (10 * DAY)
  = (Ok (concat [[order1; order1]; [order1; order1]]),
     windows (Z.min (2 * DAY) (10 * DAY)) 0).
Proof.
  assert (H0 : valid_dt 0) by (vm_compute; split; discriminate).
  assert (H1 : 10 * DAY + DAY <= DT_MAX) by (vm_compute; discriminate).
  split; [exact H0|]. split; [exact H1|].
  apply (fetch_orders_from_api example_server example_fmt (VStr "t1") "deliveries"
           (VStr "org1") day_stamp 0 (2 * DAY) (10 * DAY) _ H0 H1).
  replace (windows (Z.min (2 * DAY) (10 * DAY)) 0)
    with [ {| win_start := 0; win_end := DAY |};
           {| win_start := DAY; win_end := 2 * DAY |} ] by (vm_compute; reflexivity).
  assert (Hs : ~ 400 <= 200 < 600) by lia.
  assert (Hdoc : forall req, req_url req = "deliveries" ->
            window_orders example_server req [order1; order1]).
  { intros req Hurl. eexists. split; [unfold example_server; rewrite Hurl; reflexivity|].
    right. split; [exact Hs|]. eexists. split; [reflexivity|]. right.
    exists [VDict [("organizationId", VStr "org1"); ("orders", VList [order1; order1])];
            VDict [("organizationId", VStr "org2")]]%string, [[order1; order1]; []].
    split; [reflexivity|]. split; [|reflexivity].
    repeat constructor.
    - eexists. split; [reflexivity|]. left. reflexivity.
    - eexists. split; [reflexivity|]. right. split; reflexivity. }
  repeat constructor; apply Hdoc; reflexivity.
Defined.

(** ** The token *)

Section Token.

Variable http : request -> result response.

(** X16.  [get_access_token] returns only a truthy token, the one the
    answer's document holds under [token]; it raises [RuntimeError]
    exactly when the answer has no error status and its document is an
    object without a truthy [token] (missing, [null], empty); and an
    answer with an error status gives [HTTPError], not [RuntimeError]. *)
Theorem get_access_token_result (login url : string) :
  (forall token, get_access_token http login url = Done token ->
     truthy token = true /\
     exists r d, http (token_request login url) = Ok r /\
       ~ 400 <= status_code r < 600 /\ content r = Some (VDict d) /\
       assoc "token" d = Some token) /\
  (get_access_token http login url = Fail RuntimeError <->
   exists r d, http (token_request login url) = Ok r /\
     ~ 400 <= status_code r < 600 /\ content r = Some (VDict d) /\
     truthy (default VNone (assoc "token" d)) = false) /\
  (forall r, http (token_request login url) = Ok r -> 400 <= status_code r < 600 ->
     get_access_token http login url = Fail (Exn HTTPError)).
Proof.
  unfold get_access_token.
  destruct (http (token_request login url)) as [r|e]; simpl.
  2: { split; [discriminate|]. split; [|discriminate].
       split; [discriminate | intros (? & ? & [=] & _)]. }
  destruct (raise_for_status_cases r) as [[-> Hs]|[-> Hs]]; simpl.
  { split; [discriminate|]. split; [|reflexivity].
    split; [discriminate | intros (r' & ? & [= <-] & Hs' & _); contradiction]. }
  unfold json. destruct (content r) as [data|] eqn:Hdata; simpl.
  2: { split; [discriminate|]. split; [|intros r' [= <-]; contradiction].
       split; [discriminate | intros (r' & ? & [= <-] & _ & Hc & _); congruence]. }
  destruct data as [| | | | | |d]; simpl;
    try (split; [discriminate|]; split; [|intros r' [= <-]; contradiction];
         split; [discriminate | intros (r' & ? & [= <-] & _ & Hc & _); congruence]).
  destruct (truthy (default VNone (assoc "token" d))) eqn:Htok; simpl.
  - split; [|split; [|intros r' [= <-]; contradiction]].
    + intros token [= <-]. split; [exact Htok|]. exists r, d.
      split; [reflexivity|]. split; [exact Hs|]. split; [exact Hdata|].
      destruct (assoc "token" d); [reflexivity | discriminate].
    + split; [discriminate|]. intros (r' & d' & [= <-] & _ & Hc & Hf). congruence.
  - split; [discriminate|]. split; [|intros r' [= <-]; contradiction].
    split; [|reflexivity]. intros _. exists r, d. auto.
Qed.

End Token.

Lemma get_access_token_result_witness :
  get_access_token example_server "login" "token" = Done (VStr "t1") /\
  truthy (VStr "t1") = true /\
  get_access_token example_server "login" "no-token" = Fail RuntimeError /\
  get_access_token example_server "login" "gone" = Fail (Exn HTTPError).
Proof.
  split; [reflexivity|].
  split; [exact (proj1 (proj1 (get_access_token_result example_server "login" "token")
                          (VStr "t1") eq_refl))|].
  split; reflexivity.
Defined.

(** ** What is written, and what is raised while writing *)

Lemma io_bind_fst {A B : Type} (m : IO A) (k : A -> IO B) :
  fst (m ≫= k) = match fst m with Done a => fst (k a) | Fail f => Fail f end.
Proof. destruct m as [[a|f] out]; simpl; [destruct (k a)|]; reflexivity. Qed.

Lemma io_bind_snd {A B : Type} (m : IO A) (k : A -> IO B) :
  snd (m ≫= k) = snd m ++ match fst m with Done a => snd (k a) | Fail _ => [] end.
Proof.
  destruct m as [[a|f] out]; simpl; [destruct (k a); reflexivity|].
  now rewrite app_nil_r.
Qed.

Lemma eval_bind {A B : Type} (m : outcome A) (k : A -> IO B) :
  (eval m ≫= k) = match m with Done a => k a | Fail f => (Fail f, []) end.
Proof. destruct m as [a|f]; simpl; [destruct (k a)|]; reflexivity. Qed.

Lemma print_bind {B : Type} (s : string) (k : unit -> IO B) :
  (print s ≫= k) = (fst (k tt), s :: snd (k tt)).
Proof. simpl. destruct (k tt). reflexivity. Qed.

Lemma for_io_lines {A : Type} (body : A -> IO unit) (line : A -> string) (l : list A) :
  Forall (fun x => body x = (Done tt, [line x])) l ->
  for_io body l = (Done tt, map line l).
Proof.
  induction 1 as [|x l Hx _ IH]; simpl; [reflexivity|].
  rewrite Hx, IH. reflexivity.
Qed.

Lemma for_enumerate_cons {A : Type} (body : Z -> A -> IO unit) (i : Z) (x : A)
    (l : list A) :
  for_enumerate body i (x :: l) =
  match body i x with
  | (Done _, out) => let (r, out') := for_enumerate body (i + 1) l in (r, out ++ out')
  | (Fail f, out) => (Fail f, out)
  end.
Proof. reflexivity. Qed.

(** A loop that writes one line for each item it gets through, and stops
    at the first item that is not as [P] asks. *)
Lemma for_enumerate_lines {A : Type} (body : Z -> A -> IO unit) (P : A -> Prop)
    (Q : failure -> Prop) `{!forall x, Decision (P x)} :
  (forall i x, P x -> exists line, body i x = (Done tt, [line])) ->
  (forall i x, ~ P x -> exists f, Q f /\ body i x = (Fail f, [])) ->
  forall l i,
  (Forall P l ->
   exists lines, for_enumerate body i l = (Done tt, lines) /\ length lines = length l) /\
  (~ Forall P l -> exists f lines, Q f /\ for_enumerate body i l = (Fail f, lines)).
Proof.
  intros Hok Hfail. induction l as [|x l IH]; intros i.
  - split; [exists []; auto | intros Hn; destruct Hn; constructor].
  - rewrite for_enumerate_cons.
    destruct (decide (P x)) as [Hx|Hx].
    + destruct (Hok i x Hx) as [line ->].
      destruct (IH (i + 1)) as [IHok IHfail]. split.
      * intros Hall. apply Forall_cons in Hall as [_ Hall].
        destruct (IHok Hall) as (lines & -> & Hlen).
        exists (line :: lines). simpl. auto.
      * intros Hall.
        destruct IHfail as (f & lines & Hf & ->).
        { intros Hn. apply Hall. constructor; assumption. }
        exists f, (line :: lines). auto.
    + destruct (Hfail i x Hx) as (f & Hf & ->). split.
      * intros Hall. apply Forall_cons in Hall as [Hx' _]. contradiction.
      * intros _. exists f, []. auto.
Qed.


(** ** The choice of the organisations *)

Lemma split_cons (sep : ascii) (s : string) :
  exists p ps, split sep s = p :: ps.
Proof.
  induction s as [|c s (p & ps & IH)]; simpl; [eauto|].
  destruct (Ascii.eqb c sep); [eauto|]. rewrite IH. eauto.
Qed.

(** Splitting what a separator joins. *)
Lemma split_app (sep : ascii) (a b : string) :
  split sep (a ++ String sep b) = split sep a ++ split sep b.
Proof.
  induction a as [|c a IH]; simpl.
  - now rewrite Ascii.eqb_refl.
  - destruct (Ascii.eqb c sep); [now rewrite IH|].
    rewrite IH. destruct (split_cons sep a) as (p & ps & ->). reflexivity.
Qed.

Lemma list_index_spec {A : Type} (l : list A) (idx : Z) :
  let n := Z.of_nat (length l) in
  (0 <= idx < n -> list_index l idx = l !! Z.to_nat idx) /\
  (- n <= idx < 0 -> list_index l idx = l !! Z.to_nat (n + idx)) /\
  (idx < - n \/ n <= idx -> list_index l idx = None) /\
  (forall x, list_index l idx = Some x -> x ∈ l).
Proof.
  intros n. unfold list_index. fold n.
  split; [|split; [|split]].
  - intros H. destruct (idx <? 0) eqn:E1; [lia|].
    destruct ((0 <=? idx) && (idx <? n)) eqn:E2; [reflexivity|].
    apply andb_false_iff in E2 as [?|?]; lia.
  - intros H. destruct (idx <? 0) eqn:E1; [|lia].
    destruct ((0 <=? idx + n) && (idx + n <? n)) eqn:E2.
    + now rewrite Z.add_comm.
    + apply andb_false_iff in E2 as [?|?]; lia.
  - intros H. destruct (idx <? 0) eqn:E1.
    + destruct ((0 <=? idx + n) && (idx + n <? n)) eqn:E2; [|reflexivity].
      apply andb_true_iff in E2 as [? ?]. lia.
    + destruct ((0 <=? idx) && (idx <? n)) eqn:E2; [|reflexivity].
      apply andb_true_iff in E2 as [? ?]. lia.
  - intros x. destruct (_ && _); [|discriminate]. apply list_elem_of_lookup_2.
Qed.

Section SelectOrgsFacts.

Variable fmt : value -> string.
Variable int_of : string -> option Z.

(** What one item of the answer selects. *)
Local Abbreviation chosen orgs p :=
  (match pick int_of orgs p with Done o => Some o | Fail _ => None end).

Lemma selection_omap (orgs : value) (inp : string) :
  selection int_of orgs inp = omap (fun p => chosen orgs p) (split "," inp).
Proof.
  unfold selection.
  assert (H : forall ps acc,
            fold_left (fun sel p => match pick int_of orgs p with
                                    | Done o => sel ++ [o]
                                    | Fail _ => sel
                                    end) ps acc
            = acc ++ omap (fun p => chosen orgs p) ps).
  { induction ps as [|p ps IH]; intros acc; simpl; [now rewrite app_nil_r|].
    rewrite IH. destruct (pick int_of orgs p); [now rewrite <- app_assoc | reflexivity]. }
  apply H.
Qed.

Lemma selection_app (orgs : value) (a b : string) :
  selection int_of orgs (a ++ String "," b)%string
  = selection int_of orgs a ++ selection int_of orgs b.
Proof. now rewrite !selection_omap, split_app, omap_app. Qed.

Lemma selection_elem_of (l : list value) (inp : string) :
  Forall (fun o => o ∈ l) (selection int_of (VList l) inp).
Proof.
  rewrite selection_omap. apply Forall_forall. intros o Ho.
  apply list_elem_of_omap in Ho as (p & _ & Hp).
  unfold pick in Hp. destruct (int_of p) as [k|]; [|discriminate]. simpl in Hp.
  destruct (list_index l (k - 1)) as [x|] eqn:Hx; [|discriminate].
  injection Hp as <-. now apply list_index_spec in Hx.
Qed.

Lemma selection_length (orgs : value) (inp : string) :
  (length (selection int_of orgs inp) <= length (split "," inp))%nat.
Proof.
  rewrite selection_omap.
  induction (split "," inp) as [|p ps IH]; csimpl; [lia|].
  destruct (pick int_of orgs p); csimpl; lia.
Qed.

(** The organisations are not there to choose from: the selection is
    empty. *)
Lemma selection_none (orgs : value) (inp : string) :
  (forall l, orgs <> VList l) -> (forall c s, orgs <> VStr (String c s)) ->
  selection int_of orgs inp = [].
Proof.
  intros Hl Hs. rewrite selection_omap.
  induction (split "," inp) as [|p ps IH]; csimpl; [reflexivity|].
  rewrite IH. unfold pick. destruct (int_of p) as [k|]; [|reflexivity].
  destruct orgs as [| | | |s|l|d]; simpl; try reflexivity.
  - destruct s as [|c s]; [|now destruct (Hs c s)].
    unfold list_index. simpl. now destruct (_ && _).
  - now destruct (Hl l).
Qed.

Lemma show_org_listed (i : Z) (o : value) :
  (listed o -> exists line, show_org fmt i o = (Done tt, [line])) /\
  (~ listed o -> exists f, (f = Exn AttributeError \/ f = KeyError) /\
                           show_org fmt i o = (Fail f, [])).
Proof.
  unfold show_org, org_line. destruct o as [| | | | | |d]; simpl;
    try (split; [contradiction | eauto]).
  destruct (assoc "id" d) as [id|] eqn:Hid.
  - split; [|intros []; eauto]. intros _.
    destruct (truthy (default VNone (assoc "name" d))); simpl; rewrite ?Hid; simpl; eauto.
  - split; [intros [? [=]]|]. intros _.
    destruct (truthy (default VNone (assoc "name" d))); simpl; rewrite ?Hid; simpl; eauto.
Qed.

Lemma listing (os : list value) (i : Z) :
  (Forall listed os ->
   exists lines, for_enumerate (show_org fmt) i os = (Done tt, lines) /\
     length lines = length os) /\
  (~ Forall listed os ->
   exists f lines, (f = Exn AttributeError \/ f = KeyError) /\
     for_enumerate (show_org fmt) i os = (Fail f, lines)).
Proof.
  apply (for_enumerate_lines (show_org fmt) listed
           (fun f => f = Exn AttributeError \/ f = KeyError));
    intros; now apply show_org_listed.
Qed.

Lemma select_orgs_list (l : list value) (inp : string) :
  Forall listed l ->
  exists lines, length lines = length l /\
    select_orgs fmt int_of (VList l) inp =
    (match selection int_of (VList l) inp with
     | [] => Fail (SystemExit "Ничего не выбрано")
     | sel => Done sel
     end,
     (newline ++ "Организации:")%string :: lines ++ ["Выберите через запятую: "%string]).
Proof.
  intros Hall. destruct (proj1 (listing l 1) Hall) as (lines & Hrun & Hlen).
  exists lines. split; [exact Hlen|].
  unfold select_orgs. simpl. rewrite Hrun. simpl.
  destruct (selection int_of (VList l) inp); simpl; now rewrite ?app_nil_r.
Qed.

Lemma select_orgs_done (orgs : value) (inp : string) (sel : list value) :
  fst (select_orgs fmt int_of orgs inp) = Done sel ->
  exists l, orgs = VList l /\ Forall listed l.
Proof.
  unfold select_orgs.
  destruct (iter orgs) as [os|e] eqn:Hiter; simpl; [|discriminate].
  destruct (decide (Forall listed os)) as [Hall|Hall].
  - destruct (proj1 (listing os 1) Hall) as (lines & -> & _). simpl.
    destruct orgs as [| | | |s|l|d]; try discriminate.
    + rewrite selection_none; [simpl; discriminate | discriminate|].
      intros c s' [= ->]. simpl in Hiter. injection Hiter as <-.
      apply Forall_cons in Hall as [[] _].
    + injection Hiter as <-. eauto.
    + rewrite selection_none; [simpl; discriminate | discriminate ..].
  - destruct (proj2 (listing os 1) Hall) as (f & lines & _ & ->). discriminate.
Qed.

(** What is returned is not empty and was listed. *)
Lemma select_orgs_selected (orgs : value) (inp : string) (sel : list value) :
  fst (select_orgs fmt int_of orgs inp) = Done sel ->
  sel <> [] /\ Forall listed sel.
Proof.
  intros Hrun. destruct (select_orgs_done _ _ _ Hrun) as (l & -> & Hall).
  destruct (select_orgs_list l inp Hall) as (lines & _ & Heq).
  rewrite Heq in Hrun. simpl in Hrun.
  pose proof (selection_elem_of l inp) as Hin.
  destruct (selection int_of (VList l) inp) as [|o sel']; [discriminate|].
  injection Hrun as <-. split; [discriminate|].
  apply Forall_forall. intros x Hx. rewrite Forall_forall in Hin, Hall. auto.
Qed.

(** X17.  When [select_orgs] returns, the organisations it was given
    are a list of objects that all have an [id] (so the [o['id']] of
    [main] finds one), and what it returns is not empty, holds only
    organisations of that list and no more of them than the answer has
    items; it has written a line for each organisation between the
    heading and the prompt. *)
Theorem select_orgs_returns (orgs : value) (inp : string) (sel : list value) :
  fst (select_orgs fmt int_of orgs inp) = Done sel ->
  exists l, orgs = VList l /\ Forall listed l /\
    sel <> [] /\ Forall (fun o => o ∈ l /\ listed o) sel /\
    (length sel <= length (split "," inp))%nat /\
    length (snd (select_orgs fmt int_of orgs inp)) = (length l + 2)%nat.
Proof.
  intros Hrun. destruct (select_orgs_done _ _ _ Hrun) as (l & -> & Hall).
  exists l. split; [reflexivity|]. split; [exact Hall|].
  destruct (select_orgs_list l inp Hall) as (lines & Hlen & Heq).
  rewrite Heq in Hrun |- *. simpl in Hrun |- *.
  pose proof (selection_elem_of l inp) as Hin.
  pose proof (selection_length (VList l) inp) as Hle.
  destruct (selection int_of (VList l) inp) as [|o sel'] eqn:Hsel; [discriminate|].
  injection Hrun as <-.
  split; [discriminate|]. split.
  - apply Forall_forall. intros x Hx. rewrite Forall_forall in Hin, Hall. auto.
  - split; [exact Hle|]. rewrite length_app. simpl. lia.
Qed.

(** X18.  The numbers of the answer: with [n] organisations listed, an
    item that reads as [k] selects the organisation of line [k] for
    [1 <= k <= n], and for [-n < k <= 0] the one counted from the end
    ([0] the last one, [-1] the one before); any other item is passed
    over, and so is one that does not read as an integer. *)
Theorem select_orgs_numbers (l : list value) (p : string) :
  Forall listed l -> split "," p = [p] ->
  let n := Z.of_nat (length l) in
  let exit := Fail (SystemExit "Ничего не выбрано") in
  (forall k, int_of p = Some k -> 1 <= k <= n ->
     exists o, l !! Z.to_nat (k - 1) = Some o /\
       fst (select_orgs fmt int_of (VList l) p) = Done [o]) /\
  (forall k, int_of p = Some k -> - n < k <= 0 ->
     exists o, l !! Z.to_nat (n + k - 1) = Some o /\
       fst (select_orgs fmt int_of (VList l) p) = Done [o]) /\
  (forall k, int_of p = Some k -> k <= - n \/ n < k ->
     fst (select_orgs fmt int_of (VList l) p) = exit) /\
  (int_of p = None -> fst (select_orgs fmt int_of (VList l) p) = exit).
Proof.
  intros Hall Hsplit n exit.
  destruct (select_orgs_list l p Hall) as (lines & _ & ->). simpl.
  rewrite selection_omap, Hsplit. simpl. unfold pick.
  split; [|split; [|split]].
  - intros k -> Hk. simpl.
    destruct (list_index_spec l (k - 1)) as (H1 & _). fold n in H1.
    rewrite H1 by lia.
    destruct (lookup_lt_is_Some_2 l (Z.to_nat (k - 1))) as [o Ho]; [lia|].
    rewrite Ho. eauto.
  - intros k -> Hk. simpl.
    destruct (list_index_spec l (k - 1)) as (_ & H2 & _). fold n in H2.
    rewrite H2 by lia. replace (n + (k - 1)) with (n + k - 1) by lia.
    destruct (lookup_lt_is_Some_2 l (Z.to_nat (n + k - 1))) as [o Ho]; [lia|].
    rewrite Ho. eauto.
  - intros k -> Hk. simpl.
    destruct (list_index_spec l (k - 1)) as (_ & _ & H3 & _). fold n in H3.
    rewrite H3 by lia. reflexivity.
  - intros ->. reflexivity.
Qed.

(** X19.  Two answers joined by a comma select what the first selects
    followed by what the second selects, so an organisation named twice
    is selected twice; and an answer selects nothing, which ends the run
    with [SystemExit], exactly when none of its items selects. *)
Theorem select_orgs_comma (l : list value) (a b : string) :
  Forall listed l ->
  let run inp := fst (select_orgs fmt int_of (VList l) inp) in
  run (a ++ String "," b)%string =
    match run a, run b with
    | Done sa, Done sb => Done (sa ++ sb)
    | Done sa, Fail _ => Done sa
    | Fail _, Done sb => Done sb
    | Fail f, Fail _ => Fail f
    end /\
  (forall sa, run a = Done sa -> run (a ++ String "," a)%string = Done (sa ++ sa)) /\
  (run a = Fail (SystemExit "Ничего не выбрано") <->
   forall p, p ∈ split "," a -> pick int_of (VList l) p = Fail ValueError \/
                                 pick int_of (VList l) p = Fail IndexError).
Proof.
  intros Hall run.
  assert (Hrun : forall inp, run inp =
            match selection int_of (VList l) inp with
            | [] => Fail (SystemExit "Ничего не выбрано")
            | sel => Done sel
            end).
  { intros inp. subst run. simpl.
    destruct (select_orgs_list l inp Hall) as (lines & _ & ->). reflexivity. }
  split; [|split].
  - rewrite !Hrun, selection_app.
    destruct (selection int_of (VList l) a) as [|x sa];
      destruct (selection int_of (VList l) b) as [|y sb]; simpl;
      rewrite ?app_nil_r; reflexivity.
  - intros sa. rewrite !Hrun, selection_app.
    destruct (selection int_of (VList l) a) as [|x sa']; [discriminate|].
    intros [= <-]. reflexivity.
  - rewrite Hrun, selection_omap. split.
    + intros Hnone p Hp.
      destruct (omap _ (split "," a)) as [|x sel] eqn:Hsel; [|discriminate].
      assert (Hp' : chosen (VList l) p = None).
      { destruct (chosen (VList l) p) as [o|] eqn:Ho; [|reflexivity].
        assert (o ∈ omap (fun p => chosen (VList l) p) (split "," a))
          by (apply list_elem_of_omap; eauto).
        rewrite Hsel in H. inversion H. }
      unfold pick in *. destruct (int_of p) as [k|]; [|auto]. simpl in *.
      destruct (list_index l (k - 1)); [discriminate | auto].
    + intros Hnone.
      assert (Hsel : omap (fun p => chosen (VList l) p) (split "," a) = []).
      { induction (split "," a) as [|p ps IH]; [reflexivity|]. csimpl.
        destruct (Hnone p) as [-> | ->]; [now left|..]; apply IH;
          intros q Hq; apply Hnone; now right. }
      now rewrite Hsel.
Qed.

End SelectOrgsFacts.

Lemma example_orgs_listed : Forall listed example_orgs.
Proof. repeat constructor; simpl; eauto. Qed.

Lemma select_orgs_returns_witness :
  fst (select_orgs example_fmt example_int (VList example_orgs) "2,x,1")
    = Done [example_org2; example_org1] /\
  exists l, VList example_orgs = VList l /\ Forall listed l.
Proof.
  assert (Hrun : fst (select_orgs example_fmt example_int (VList example_orgs) "2,x,1")
    = Done [example_org2; example_org1])
    by (vm_compute; reflexivity).
  split; [exact Hrun|].
  destruct (select_orgs_returns example_fmt example_int _ _ _ Hrun)
    as (l & Hl & Hall & _).
  exists l. auto.
Defined.

Lemma select_orgs_numbers_witness :
  Forall listed example_orgs /\ split "," "0" = ["0"%string] /\
  exists o, example_orgs !! Z.to_nat (Z.of_nat (length example_orgs) + 0 - 1) = Some o /\
    fst (select_orgs example_fmt example_int (VList example_orgs) "0") = Done [o].
Proof.
  split; [exact example_orgs_listed|]. split; [reflexivity|].
  destruct (select_orgs_numbers example_fmt example_int example_orgs "0"
              example_orgs_listed eq_refl) as (_ & Hback & _).
  apply (Hback 0); [reflexivity | simpl; lia].
Defined.

Lemma select_orgs_comma_witness :
  Forall listed example_orgs /\
  fst (select_orgs example_fmt example_int (VList example_orgs) "1,1")
    = Done ([example_org1] ++ [example_org1]).
Proof.
  split; [exact example_orgs_listed|].
  destruct (select_orgs_comma example_fmt example_int example_orgs "1" "1"
              example_orgs_listed) as (_ & Htwice & _).
  apply Htwice. vm_compute. reflexivity.
Defined.

(** ** The details of an order *)

Section DetailsFacts.

Variable fmt : value -> string.
Variable int_of : string -> option Z.

Lemma show_field_dict (d : list (string * value)) (kl : string * string) :
  show_field fmt (VDict d) kl =
  (Done tt, [(snd kl ++ ": " ++ fmt (default VNone (assoc (fst kl) d)))%string]).
Proof. reflexivity. Qed.

(** X20.  [print_details] reads the fields of what the [order] field
    holds and never those of the record itself: for a record of which
    [summarize] and the listing take the fields as its own, because its
    [order] field is missing or falsy, it writes every field as [None]
    and no customer, address, item, payment or discount; and for any
    order that is an object with an object under [order], what it writes
    starts with the heading and the fourteen fields of that object. *)
Theorem print_details_reads_order_field (obj : value) :
  (is_dict obj = true -> truthy (field obj "order") = false ->
   view obj = obj /\
   print_details fmt obj =
     (Done tt,
      (newline ++ "=== Детали ===")%string
        :: map (fun kl => (snd kl ++ ": " ++ fmt VNone)%string) FIELDS
        ++ ["Позиции:"%string])) /\
  (forall d od, obj = VDict d -> assoc "order" d = Some (VDict od) -> od <> [] ->
   exists rest,
     snd (print_details fmt obj) =
       (newline ++ "=== Детали ===")%string
         :: map (fun kl => (snd kl ++ ": " ++ fmt (default VNone (assoc (fst kl) od)))%string)
              FIELDS
         ++ rest).
Proof.
  split.
  - intros Hdict Hfalsy. split; [unfold view; now rewrite Hfalsy|].
    destruct obj as [| | | | | |d]; try discriminate. simpl in Hfalsy.
    unfold print_details. simpl get. rewrite eval_bind. simpl lift. cbv iota beta.
    rewrite Hfalsy. reflexivity.
  - intros d od -> Hod Hne.
    unfold print_details. rewrite eval_bind.
    change (lift (get (VDict d) "order")) with (Done (default VNone (assoc "order" d))).
    rewrite Hod. change (default VNone (Some (VDict od))) with (VDict od). cbv iota beta.
    replace (truthy (VDict od)) with true by (destruct od; [contradiction | reflexivity]).
    cbv zeta iota. rewrite print_bind. cbn [snd]. rewrite io_bind_snd.
    rewrite (for_io_lines _
               (fun kl => (snd kl ++ ": " ++ fmt (default VNone (assoc (fst kl) od)))%string)).
    + cbn [snd fst]. eexists. reflexivity.
    + apply Forall_forall. intros kl _. apply show_field_dict.
Qed.

(** An order that the listing of [select_and_show] can show. *)
Local Abbreviation shown o := (is_dict o = true /\ is_dict (view o) = true).

Lemma show_order_shown (i : Z) (o : value) :
  (shown o -> exists line, show_order fmt i o = (Done tt, [line])) /\
  (~ shown o -> show_order fmt i o = (Fail (Exn AttributeError), [])).
Proof.
  unfold show_order, view.
  destruct o as [| | | | | |d]; simpl;
    try (split; [intros [[=] _] | reflexivity]).
  destruct (truthy (default VNone (assoc "order" d))) eqn:Ht.
  - destruct (default VNone (assoc "order" d)) as [| | | | | |od]; simpl;
      try (split; [intros [_ [=]] | reflexivity]).
    split; [eauto | intros []; auto].
  - simpl. split; [eauto | intros []; auto].
Qed.

Lemma select_and_show_cases (o : value) (orders : list value) (inp : string) :
  (Forall (fun o => shown o) (o :: orders) ->
   exists lines, length lines = S (length orders) /\
     select_and_show fmt int_of (o :: orders) inp =
     (Done tt,
      lines ++ ["Детали №: "%string] ++
      match int_of inp with
      | Some k =>
          match list_index (o :: orders) (k - 1) with
          | Some x => snd (print_details fmt x)
          | None => []
          end
      | None => []
      end)) /\
  (~ Forall (fun o => shown o) (o :: orders) ->
   fst (select_and_show fmt int_of (o :: orders) inp) = Fail (Exn AttributeError)).
Proof.
  unfold select_and_show. cbv iota. simpl negb. cbv iota.
  destruct (for_enumerate_lines (show_order fmt) (fun o => shown o)
              (fun f => f = Exn AttributeError)) with
    (l := o :: orders) (i := 1) as [Hok Hfail].
  { intros i x Hx. now apply show_order_shown. }
  { intros i x Hx. eexists. split; [reflexivity|]. now apply show_order_shown. }
  split.
  - intros Hall. destruct (Hok Hall) as (lines & Hrun & Hlen).
    exists lines. split; [exact Hlen|].
    rewrite Hrun. simpl. f_equal. f_equal.
    destruct (int_of inp) as [k|]; simpl; [|reflexivity].
    destruct (list_index (o :: orders) (k - 1)) as [x|]; simpl; [|reflexivity].
    destruct (print_details fmt x) as [r out]. reflexivity.
  - intros Hall.
    destruct (Hfail Hall) as (f & lines & -> & ->). reflexivity.
Qed.

Lemma select_and_show_done (orders : list value) (inp : string) :
  Forall (fun o => shown o) orders ->
  fst (select_and_show fmt int_of orders inp) = Done tt.
Proof.
  destruct orders as [|o orders]; [reflexivity|]. intros Hall.
  destruct (proj1 (select_and_show_cases o orders inp) Hall) as (lines & _ & ->).
  reflexivity.
Qed.

(** X21.  [select_and_show] writes nothing and asks nothing for an
    empty list.  Otherwise it raises only in its listing, and then
    [AttributeError], when an order, or what its [order] field holds, is
    not an object; after the listing and the prompt it shows the details
    of at most one order, the one at the index the answer names (counted
    from the end for an answer below 1), and whatever [print_details]
    raises is dropped: what it had written stays, and the function
    returns. *)
Theorem select_and_show_result (orders : list value) (inp : string) :
  (orders = [] -> select_and_show fmt int_of orders inp = (Done tt, [])) /\
  (fst (select_and_show fmt int_of orders inp) = Done tt <->
   Forall (fun o => is_dict o = true /\ is_dict (view o) = true) orders) /\
  (forall f, fst (select_and_show fmt int_of orders inp) = Fail f ->
   f = Exn AttributeError) /\
  (orders <> [] ->
   Forall (fun o => is_dict o = true /\ is_dict (view o) = true) orders ->
   exists lines, length lines = length orders /\
     snd (select_and_show fmt int_of orders inp) =
     lines ++ ["Детали №: "%string] ++
     match int_of inp with
     | Some k =>
         match list_index orders (k - 1) with
         | Some o => snd (print_details fmt o)
         | None => []
         end
     | None => []
     end).
Proof.
  destruct orders as [|o orders].
  - split; [reflexivity|]. split; [split; [constructor | reflexivity]|].
    split; [discriminate | intros []; reflexivity].
  - destruct (select_and_show_cases o orders inp) as [Hok Hfail].
    split; [discriminate|].
    destruct (decide (Forall (fun o => shown o) (o :: orders))) as [Hall|Hall].
    + destruct (Hok Hall) as (lines & Hlen & Hrun). rewrite Hrun. simpl fst.
      split; [tauto|]. split; [discriminate|].
      intros _ _. exists lines. auto.
    + rewrite (Hfail Hall). split; [split; [discriminate | contradiction]|].
      split; [now intros f [= <-] | contradiction].
Qed.

End DetailsFacts.

Lemma print_details_reads_order_field_witness :
  is_dict order1 = true /\ truthy (field order1 "order") = false /\
  view order1 = order1 /\
  length (snd (print_details example_fmt order1)) = 16%nat.
Proof.
  assert (H1 : is_dict order1 = true) by reflexivity.
  assert (H2 : truthy (field order1 "order") = false) by reflexivity.
  destruct (proj1 (print_details_reads_order_field example_fmt order1) H1 H2) as [Hview Hrun].
  split; [exact H1|]. split; [exact H2|]. split; [exact Hview|].
  rewrite Hrun. reflexivity.
Defined.


Lemma select_and_show_result_witness :
  fst (select_and_show example_fmt example_int [order1; VDict []] "0") = Done tt /\
  length (snd (select_and_show example_fmt example_int [order1; VDict []] "0")) = 19%nat.
Proof.
  split.
  - apply (select_and_show_result example_fmt example_int [order1; VDict []] "0").
    repeat constructor.
  - vm_compute. reflexivity.
Defined.

(** ** The run *)

Lemma for_io_fst {A : Type} (body : A -> IO unit) (l : list A) :
  Forall (fun x => fst (body x) = Done tt) l -> fst (for_io body l) = Done tt.
Proof.
  induction 1 as [|x l Hx _ IH]; simpl; [reflexivity|].
  destruct (body x) as [r out]. simpl in Hx. subst r.
  destruct (for_io body l) as [r' out']. exact IH.
Qed.

Lemma report_org_listed (fmt : value -> string) (o : value) :
  listed o -> fst (report_org fmt o) = Done tt.
Proof.
  unfold report_org. destruct o as [| | | | | |d]; simpl; try contradiction.
  intros [id ->]. reflexivity.
Qed.

(** The report is written without an exception for organisations that
    [select_orgs] has listed. *)
Lemma print_report_done (fmt : value -> string) (sumry : SummaryRecord)
    (frm to : string) (orgs : list value) :
  Forall listed orgs -> fst (print_report fmt sumry frm to orgs) = Done tt.
Proof.
  intros Hall. unfold print_report.
  rewrite print_bind. cbn [fst].
  rewrite io_bind_fst, for_io_fst.
  2: { eapply Forall_impl; [exact Hall|]. apply report_org_listed. }
  rewrite !print_bind. cbn [fst].
  rewrite io_bind_fst, for_io_fst by (apply Forall_forall; reflexivity).
  rewrite ?print_bind. cbn [fst].
  apply for_io_fst. apply Forall_forall. reflexivity.
Qed.

Lemma summarize_shown (orders : list value) (r : SummaryRecord) :
  summarize orders = Ok r ->
  Forall (fun o => is_dict o = true /\ is_dict (view o) = true) orders.
Proof.
  intros Hrun. assert (Hall : exists r, summarize orders = Ok r) by eauto.
  apply summarize_returns in Hall.
  eapply Forall_impl; [exact Hall|]. intros o Ho. apply classified_iff in Ho. tauto.
Qed.

(** One step of a sequence whose first statement has returned. *)
Ltac outcome_step :=
  match goal with
  | |- context [@mbind outcome _ ?A ?B ?k (Done ?a)] =>
      change (@mbind outcome _ A B k (Done a)) with (k a); cbv beta
  end.

Ltac outcome_step_in H :=
  match type of H with
  | context [@mbind outcome _ ?A ?B ?k (Done ?a)] =>
      change (@mbind outcome _ A B k (Done a)) with (k a) in H; cbv beta in H
  end.

Section MainFacts.

Variable http : nat -> request -> result response.
Variable fmt : value -> string.
Variable int_of : string -> option Z.
Variable strptime : string -> option datetime.
Variable strftime : datetime -> string.
Variable clock : nat -> datetime.

Local Abbreviation run := (main http fmt int_of strptime strftime clock).
Local Abbreviation gather := (collect http fmt strptime strftime clock).
Local Abbreviation fetch := (fetch_orders_for http fmt strptime strftime clock).

Lemma main_eq (args : Args) (answer1 answer2 : string) :
  main http fmt int_of strptime strftime clock args answer1 answer2 =
  (token ← eval (get_access_token (http 0%nat) (args_login args) (args_token_url args));
   orgs ← eval (lift (get_organizations (http 1%nat) fmt token (args_orgs_url args)));
   sel ← select_orgs fmt int_of orgs answer1;
   all_orders ← eval (collect http fmt strptime strftime clock token args 0 sel []);
   sumry ← eval (lift (summarize all_orders));
   _ ← print_report fmt sumry (args_f args) (args_t args) sel;
   select_and_show fmt int_of all_orders answer2).
Proof. reflexivity. Qed.

(** The stages of [main], and nothing else, decide how it ends. *)
Lemma main_stages (args : Args) (answer1 answer2 : string) :
  fst (run args answer1 answer2) =
  (token ← get_access_token (http 0%nat) (args_login args) (args_token_url args);
   orgs ← lift (get_organizations (http 1%nat) fmt token (args_orgs_url args));
   sel ← fst (select_orgs fmt int_of orgs answer1);
   all_orders ← gather token args 0%nat sel [];
   _ ← lift (summarize all_orders);
   Done tt).
Proof.
  rewrite main_eq. rewrite eval_bind.
  destruct (get_access_token _ _ _) as [token|f]; [|reflexivity]. outcome_step.
  rewrite eval_bind.
  destruct (get_organizations _ _ _ _) as [orgs|e]; [|reflexivity].
  cbn [lift]. outcome_step. rewrite io_bind_fst.
  destruct (fst (select_orgs fmt int_of orgs answer1)) as [sel|f] eqn:Hsel; [|reflexivity].
  outcome_step.
  apply select_orgs_selected in Hsel as [_ Hlisted].
  rewrite eval_bind.
  destruct (collect http fmt strptime strftime clock token args 0 sel []) as [all_orders|f];
    [|reflexivity].
  outcome_step. rewrite eval_bind.
  destruct (summarize all_orders) as [sumry|e] eqn:Hsum; [|reflexivity].
  cbn [lift]. outcome_step. rewrite io_bind_fst, print_report_done by exact Hlisted.
  apply select_and_show_done. eapply summarize_shown. exact Hsum.
Qed.

(** X22.  [main] ends with an exception exactly when one of its five
    stages does, and then with that exception: the token, the
    organisations, their choice, the collection, the summary.  Once
    [summarize] has returned, writing the report and showing the details
    raise nothing, whatever the second answer is: the run ends normally,
    and the report is what was written after the choice and before the
    listing of the orders. *)
Theorem main_outcome (args : Args) (answer1 answer2 : string) :
  fst (run args answer1 answer2) =
    (token ← get_access_token (http 0%nat) (args_login args) (args_token_url args);
     orgs ← lift (get_organizations (http 1%nat) fmt token (args_orgs_url args));
     sel ← fst (select_orgs fmt int_of orgs answer1);
     all_orders ← gather token args 0%nat sel [];
     _ ← lift (summarize all_orders);
     Done tt) /\
  (forall token orgs sel all_orders sumry,
     get_access_token (http 0%nat) (args_login args) (args_token_url args) = Done token ->
     get_organizations (http 1%nat) fmt token (args_orgs_url args) = Ok orgs ->
     fst (select_orgs fmt int_of orgs answer1) = Done sel ->
     gather token args 0%nat sel [] = Done all_orders ->
     summarize all_orders = Ok sumry ->
     run args answer1 answer2 =
       (Done tt,
        snd (select_orgs fmt int_of orgs answer1)
        ++ snd (print_report fmt sumry (args_f args) (args_t args) sel)
        ++ snd (select_and_show fmt int_of all_orders answer2))).
Proof.
  split; [apply main_stages|].
  intros token orgs sel all_orders sumry Htok Horgs Hsel Hcol Hsum.
  pose proof (main_stages args answer1 answer2) as Hfst.
  rewrite Htok in Hfst. outcome_step_in Hfst. rewrite Horgs in Hfst. cbn [lift] in Hfst.
  outcome_step_in Hfst. rewrite Hsel in Hfst. outcome_step_in Hfst.
  rewrite Hcol in Hfst. outcome_step_in Hfst. rewrite Hsum in Hfst. cbn [lift] in Hfst.
  outcome_step_in Hfst.
  rewrite (surjective_pairing (run args answer1 answer2)), Hfst. f_equal.
  rewrite main_eq, Htok, eval_bind, Horgs. cbn [lift]. rewrite eval_bind.
  rewrite io_bind_snd, Hsel, eval_bind, Hcol, eval_bind, Hsum. cbn [lift].
  rewrite io_bind_snd.
  apply select_orgs_selected in Hsel as [_ Hlisted].
  rewrite print_report_done by exact Hlisted. reflexivity.
Qed.

Lemma collect_parts (token : value) (args : Args) (sel : list value) :
  forall i acc all_orders,
  gather token args i sel acc = Done all_orders ->
  exists parts,
    Forall2 (fun io part =>
               exists org_id, getitem (snd io) "id" = Done org_id /\
                 fetch (fst io) token (args_deliv_url args) org_id
                   (args_f args) (args_t args) = Done part)
      (zip (seq i (length sel)) sel) parts /\
    all_orders = acc ++ concat parts.
Proof.
  induction sel as [|o sel IH]; intros i acc all_orders; simpl.
  - intros [= <-]. exists []. split; [constructor | now rewrite app_nil_r].
  - destruct (getitem o "id") as [org_id|] eqn:Hid; simpl; [|discriminate].
    destruct (fetch_orders_for http fmt strptime strftime clock i token
                (args_deliv_url args) org_id (args_f args) (args_t args))
      as [more|] eqn:Hmore; simpl; [|discriminate].
    intros Hrun. apply IH in Hrun as (parts & Hparts & ->).
    exists (more :: parts). split; [|now rewrite <- app_assoc].
    constructor; [|exact Hparts]. exists org_id. auto.
Qed.

(** X23.  The orders that [main] summarises are those that
    [fetch_orders] returns for the selected organisations, one call for
    each in the order of the selection, put one after the other; and
    [total] in the summary is the number of all of them. *)
Theorem main_collects (token : value) (args : Args) (sel all_orders : list value) :
  gather token args 0%nat sel [] = Done all_orders ->
  exists parts,
    Forall2 (fun io part =>
               exists org_id, getitem (snd io) "id" = Done org_id /\
                 fetch (fst io) token (args_deliv_url args) org_id
                   (args_f args) (args_t args) = Done part)
      (zip (seq 0 (length sel)) sel) parts /\
    all_orders = concat parts /\
    forall sumry, summarize all_orders = Ok sumry ->
      total sumry = sum_list (length <$> parts).
Proof.
  intros Hrun. apply collect_parts in Hrun as (parts & Hparts & ->).
  exists parts. split; [exact Hparts|]. split; [reflexivity|].
  intros sumry Hsum. apply summarize_fields in Hsum as (_ & -> & _).
  simpl. clear. induction parts as [|p parts IH]; simpl; [reflexivity|].
  now rewrite length_app, IH.
Qed.

(** X24.  A date that [strptime] cannot read is found late: when the
    token and the organisations have been obtained and the user has made
    a choice, and [--from] or [--to] is not in the format, [main] ends
    with the [ValueError] of [strptime], and nothing more is written than
    what [select_orgs] wrote. *)
Theorem main_value_error (args : Args) (answer1 answer2 : string)
    (token orgs : value) (sel : list value) :
  get_access_token (http 0%nat) (args_login args) (args_token_url args) = Done token ->
  get_organizations (http 1%nat) fmt token (args_orgs_url args) = Ok orgs ->
  fst (select_orgs fmt int_of orgs answer1) = Done sel ->
  strptime (args_f args) = None \/ strptime (args_t args) = None ->
  run args answer1 answer2 =
  (Fail ValueError, snd (select_orgs fmt int_of orgs answer1)).
Proof.
  intros Htok Horgs Hsel Hbad.
  assert (Hcol : gather token args 0%nat sel [] = Fail ValueError).
  { apply select_orgs_selected in Hsel as [Hne Hlisted].
    destruct sel as [|o sel]; [contradiction|].
    apply Forall_cons in Hlisted as [Ho _]. simpl.
    destruct o as [| | | | | |d]; try contradiction. destruct Ho as [id Hid].
    simpl. rewrite Hid. simpl. unfold fetch_orders_for, parse.
    destruct Hbad as [-> | ->]; [reflexivity|].
    destruct (strptime (args_f args)); reflexivity. }
  rewrite (surjective_pairing (run args answer1 answer2)). f_equal.
  - rewrite main_stages, Htok. outcome_step. rewrite Horgs. cbn [lift]. outcome_step.
    rewrite Hsel. outcome_step. rewrite Hcol. reflexivity.
  - rewrite main_eq, Htok, eval_bind, Horgs. cbn [lift]. rewrite eval_bind.
    rewrite io_bind_snd, Hsel, eval_bind, Hcol. cbn [snd]. now rewrite app_nil_r.
Qed.

End MainFacts.

Lemma main_collects_witness :
  collect (fun _ => example_server) example_fmt example_strptime day_stamp
    (fun _ => 10 * DAY) (VStr "t1") example_args 0 [example_org1; example_org2] []
    = Done [order1; order1; order1; order1; order1; order1; order1; order1] /\
  exists parts,
    [order1; order1; order1; order1; order1; order1; order1; order1] = concat parts /\
    length parts = 2%nat.
Proof.
  assert (Hrun : collect (fun _ => example_server) example_fmt example_strptime day_stamp
    (fun _ => 10 * DAY) (VStr "t1") example_args 0 [example_org1; example_org2] []
    = Done [order1; order1; order1; order1; order1; order1; order1; order1])
    by (vm_compute; reflexivity).
  split; [exact Hrun|].
  destruct (main_collects _ _ _ _ _ _ _ _ _ Hrun) as (parts & Hparts & Hall & _).
  exists parts. split; [exact Hall|].
  apply Forall2_length in Hparts. rewrite <- Hparts. reflexivity.
Defined.

Lemma main_value_error_witness :
  example_main {| args_login := "login"; args_f := "from"; args_t := "2024";
                  args_token_url := "token"; args_orgs_url := "orgs";
                  args_deliv_url := "deliveries" |} "1" "1"
    = (Fail ValueError, snd (select_orgs example_fmt example_int example_organizations "1")).
Proof.
  apply main_value_error with (token := VStr "t1") (sel := [example_org1]).
  - reflexivity.
  - reflexivity.
  - vm_compute. reflexivity.
  - right. reflexivity.
Defined.

Lemma main_outcome_witness :
  fst (example_main example_args "2,1" "0") = Done tt.
Proof.
  unfold example_main. rewrite (proj1 (main_outcome _ _ _ _ _ _ _ _ _)). vm_compute. reflexivity.
Defined.

(** ** Nothing to choose from *)

Section NoOrganizations.

Variable http : request -> result response.
Variable fmt : value -> string.
Variable int_of : string -> option Z.

(** X25.  From an answer whose document has no [organizations], or an
    empty list there, [get_organizations] returns an empty list, and
    [select_orgs] then ends the run with [SystemExit] whatever the user
    answers; from a document with [null] there it returns [None], and
    [select_orgs] raises [TypeError] before it asks. *)
Theorem no_organizations (token : value) (url : string) (r : response)
    (d : list (string * value)) :
  http (organizations_request fmt token url) = Ok r ->
  ~ 400 <= status_code r < 600 ->
  content r = Some (VDict d) ->
  (assoc "organizations" d = None \/ assoc "organizations" d = Some (VList []) ->
   get_organizations http fmt token url = Ok (VList []) /\
   forall inp, select_orgs fmt int_of (VList []) inp =
     (Fail (SystemExit "Ничего не выбрано"),
      [(newline ++ "Организации:")%string; "Выберите через запятую: "%string])) /\
  (assoc "organizations" d = Some VNone ->
   get_organizations http fmt token url = Ok VNone /\
   forall inp, select_orgs fmt int_of VNone inp =
     (Fail (Exn TypeError), [(newline ++ "Организации:")%string])).
Proof.
  intros Hhttp Hs Hd.
  assert (Hget : get_organizations http fmt token url
                 = Ok (default (VList []) (assoc "organizations" d))).
  { unfold get_organizations. rewrite Hhttp. simpl.
    destruct (raise_for_status_cases r) as [[_ Hs']|[-> _]]; [contradiction|]. simpl.
    unfold json. rewrite Hd. reflexivity. }
  split.
  - intros Hnone. split; [rewrite Hget; destruct Hnone as [-> | ->]; reflexivity|].
    intros inp. destruct (select_orgs_list fmt int_of [] inp) as (lines & Hlen & ->);
      [constructor|].
    destruct lines; [|discriminate]. rewrite selection_omap.
    assert (Hsel : omap (fun p => match pick int_of (VList []) p with
                                  | Done o => Some o
                                  | Fail _ => None
                                  end) (split "," inp) = []).
    { induction (split "," inp) as [|p ps IH]; [reflexivity|]. csimpl. rewrite IH.
      unfold pick. destruct (int_of p) as [k|]; [|reflexivity]. simpl.
      unfold list_index. simpl. now destruct (_ && _). }
    rewrite Hsel. reflexivity.
  - intros Hnull. split; [rewrite Hget, Hnull; reflexivity|].
    intros inp. reflexivity.
Qed.

End NoOrganizations.

Lemma no_organizations_witness :
  get_organizations example_server example_fmt (VStr "t1") "token" = Ok (VList []) /\
  fst (select_orgs example_fmt example_int (VList []) "1") =
    Fail (SystemExit "Ничего не выбрано").
Proof.
  assert (Hs : ~ 400 <= 200 < 600) by lia.
  destruct (no_organizations example_server example_fmt example_int (VStr "t1") "token"
              _ _ eq_refl Hs eq_refl) as [Hnone _].
  destruct (Hnone (or_introl eq_refl)) as [Hget Hexit].
  split; [exact Hget|]. now rewrite Hexit.
Defined.

(** ** The report *)

Lemma sorted_set_length (l : list string) :
  (length (sorted_set l) <= length l)%nat.
Proof.
  destruct (sorted_set_spec l) as (_ & Hnd & Hin).
  apply submseteq_length, NoDup_submseteq; [exact Hnd|].
  intros p. apply Hin.
Qed.

Lemma report_org_line (fmt : value -> string) (o : value) :
  listed o -> exists line, report_org fmt o = (Done tt, [line]).
Proof.
  unfold report_org. destruct o as [| | | | | |d]; simpl; try contradiction.
  intros [id ->]. simpl. eauto.
Qed.

Lemma for_io_count {A : Type} (body : A -> IO unit) (l : list A) :
  Forall (fun x => exists line, body x = (Done tt, [line])) l ->
  exists lines, for_io body l = (Done tt, lines) /\ length lines = length l.
Proof.
  induction 1 as [|x l [line Hx] _ (lines & IH & Hlen)]; [exists []; auto|].
  exists (line :: lines).
  change (for_io body (x :: l)) with (body x ≫= fun _ => for_io body l).
  rewrite Hx. simpl. rewrite IH. simpl. auto.
Qed.

(** X26.  For the record of [summarize] and organisations that
    [select_orgs] returned, [print_report] raises nothing and writes
    five lines, one for each organisation, one for each distinct invalid
    phone and one for each duplicated phone; the invalid phones it lists
    are at most as many as the number [inv_count] it prints, and fewer
    when an invalid phone comes more than once. *)
Theorem print_report_lines (fmt : value -> string) (orders orgs : list value)
    (sumry : SummaryRecord) (frm to : string) :
  summarize orders = Ok sumry -> Forall listed orgs ->
  fst (print_report fmt sumry frm to orgs) = Done tt /\
  length (snd (print_report fmt sumry frm to orgs))
    = (5 + length orgs + length (invalid sumry) + length (dup sumry))%nat /\
  (length (invalid sumry) <= inv_count sumry)%nat /\
  (length (dup sumry) <= unique sumry)%nat.
Proof.
  intros Hsum Hall. split; [now apply print_report_done|].
  split.
  - unfold print_report.
    assert (Horgs : exists lines, for_io (report_org fmt) orgs = (Done tt, lines) /\
                      length lines = length orgs).
    { apply for_io_count. eapply Forall_impl; [exact Hall|]. apply report_org_line. }
    destruct Horgs as (lines & Horgs & Hlen).
    rewrite Horgs.
    rewrite (for_io_lines _ (fun tel => ("  ! " ++ tel)%string))
      by (apply Forall_forall; reflexivity).
    rewrite (for_io_lines _ (fun pc => ("  * " ++ fst pc ++ ": " ++ fmt_nat fmt (snd pc))%string))
      by (apply Forall_forall; reflexivity).
    cbn [mbind io_bind print fst snd length app].
    repeat (rewrite ?length_app, ?length_map; cbn [length]). rewrite Hlen. lia.
  - apply summarize_fields in Hsum as (_ & _ & _ & _ & Hi & Hic & _ & Hu & Hd).
    rewrite Hi, Hic, Hu, Hd. split; [apply sorted_set_length | apply length_filter].
Qed.

Lemma print_report_lines_witness :
  exists sumry,
    summarize [order1; order1] = Ok sumry /\
    length (snd (print_report example_fmt sumry "a" "b" example_orgs)) = 8%nat.
Proof.
  destruct (summarize [order1; order1]) as [sumry|] eqn:Hsum;
    [|vm_compute in Hsum; discriminate].
  exists sumry. split; [reflexivity|].
  destruct (print_report_lines example_fmt [order1; order1] example_orgs sumry "a" "b"
              Hsum example_orgs_listed) as (_ & Hlen & _).
  rewrite Hlen. vm_compute in Hsum. injection Hsum as <-. reflexivity.
Defined.

(** ** The record as a whole *)

Lemma counter_add_sum (p : string) (cnt : list (string * nat)) :
  sum_list (snd <$> counter_add p cnt) = S (sum_list (snd <$> cnt)).
Proof.
  induction cnt as [|[q c] cnt IH]; csimpl; [reflexivity|].
  destruct (String.eqb p q); csimpl; [reflexivity|]. rewrite IH. lia.
Qed.

Lemma Counter_sum (l : list string) : sum_list (snd <$> Counter l) = length l.
Proof.
  unfold Counter.
  assert (H : forall cnt, sum_list (snd <$> fold_left (fun cnt p => counter_add p cnt) l cnt)
                          = (sum_list (snd <$> cnt) + length l)%nat).
  { induction l as [|p l IH]; intros cnt; simpl; [lia|].
    rewrite IH, counter_add_sum. lia. }
  apply H.
Qed.

Lemma sum_over_counts (cnt : list (string * nat)) :
  Forall (fun pc => (0 < snd pc)%nat) cnt ->
  sum_list (snd <$> cnt) =
  (length cnt
   + sum_list ((fun pc => snd pc - 1)%nat <$> filter (fun pc => (1 < snd pc)%nat) cnt))%nat.
Proof.
  induction 1 as [|[p c] cnt Hc _ IH]; [reflexivity|].
  rewrite filter_cons. csimpl in *. rewrite IH.
  destruct (decide (1 < c)%nat); csimpl; lia.
Qed.

(** X27.  The fields of the record fit together: every order is
    without customer, without phone, the first one with its phone, or a
    repetition, so [total] is [no_client + no_phone + unique] plus, for
    each phone of [dup], its count less one; and [zero], [inv_count] and
    [unique] are at most the number of orders with a customer and a
    phone. *)
Theorem summarize_record_consistent (orders : list value) (r : SummaryRecord) :
  summarize orders = Ok r ->
  total r = (no_client r + no_phone r + unique r
             + sum_list ((fun pc => snd pc - 1)%nat <$> dup r))%nat /\
  (zero r <= total r - no_client r - no_phone r)%nat /\
  (inv_count r <= total r - no_client r - no_phone r)%nat /\
  (unique r <= total r - no_client r - no_phone r)%nat.
Proof.
  intros Hrun.
  pose proof (summarize_fields _ _ Hrun)
    as (Hall & Ht & Hnc & Hnp & _ & Hic & Hz & Hu & Hd).
  pose proof (count_partition orders Hall) as Hpart.
  set (phones := phones_considered orders) in *.
  assert (Hpos : Forall (fun pc => (0 < snd pc)%nat) (Counter phones)).
  { apply Forall_forall. intros [p c] Hin.
    apply Counter_spec in Hin as [Hin ->]. simpl. now apply occurrences_pos. }
  pose proof (sum_over_counts _ Hpos) as Hsum. rewrite Counter_sum in Hsum.
  rewrite <- Hd, <- Hu in Hsum.
  assert (Hzero : (count is_zero_sum orders <= length phones)%nat).
  { subst phones. clear. induction orders as [|o orders IH]; [simpl; lia|].
    rewrite phones_considered_cons. simpl. unfold is_zero_sum at 1.
    destruct (classify o) as [[| |p z]|]; simpl; try lia. destruct z; lia. }
  assert (Hinv : (inv_count r <= length phones)%nat)
    by (rewrite Hic; apply length_filter).
  rewrite Ht, Hnc, Hnp, Hz. lia.
Qed.

Lemma summarize_record_consistent_witness :
  exists r, summarize (example_orders_with customer1) = Ok r /\
    total r = (no_client r + no_phone r + unique r
               + sum_list ((fun pc => snd pc - 1)%nat <$> dup r))%nat.
Proof.
  destruct (summarize (example_orders_with customer1)) as [r|] eqn:Hr;
    [|vm_compute in Hr; discriminate].
  exists r. split; [reflexivity|].
  exact (proj1 (summarize_record_consistent _ r Hr)).
Defined.

(** ** Orders that share objects *)

(** X28.  The summary depends on the orders as values only: on two
    stores whose lists of orders stand for the same JSON values,
    however the objects are shared between the orders, [summarize]
    returns the same record, or raises the same exception, the one it
    has for these values. *)
Theorem summarize_sharing (h1 h2 : heap) (orders1 orders2 : loc)
    (ps1 ps2 : list pyval) (vs : list value) :
  h1 !! orders1 = Some (OList ps1) -> Forall2 (fun p v => repr h1 v p) ps1 vs ->
  h2 !! orders2 = Some (OList ps2) -> Forall2 (fun p v => repr h2 v p) ps2 vs ->
  fst <$> summarize_h orders1 h1 = Some (summarize vs) /\
  fst <$> summarize_h orders2 h2 = Some (summarize vs).
Proof.
  intros H1 R1 H2 R2.
  destruct (summarize_h_refines h1 orders1 ps1 vs H1 R1) as [h1' ->].
  destruct (summarize_h_refines h2 orders2 ps2 vs H2 R2) as [h2' ->].
  split; reflexivity.
Qed.

Lemma summarize_sharing_witness :
  fst <$> summarize_h 1%positive example_heap = Some (summarize example_heap_orders) /\
  fst <$> summarize_h 7%positive example_heap_unshared
    = Some (summarize example_heap_orders).
Proof.
  apply (summarize_sharing example_heap example_heap_unshared 1%positive 7%positive
           [PRef 2%positive; PRef 3%positive] [PRef 2%positive; PRef 3%positive]
           example_heap_orders); try reflexivity;
    repeat constructor; simpl;
    repeat first [ reflexivity | split | eexists ].
Defined.

(** ** An organisation selected twice *)

Lemma filter_all {A : Type} (P : A -> Prop) `{!forall x, Decision (P x)} (l : list A) :
  Forall P l -> filter P l = l.
Proof.
  induction 1 as [|x l Hx _ IH]; [reflexivity|].
  rewrite filter_cons, decide_True by exact Hx. now rewrite IH.
Qed.

Section SelectedTwice.

Variable http : nat -> request -> result response.
Variable fmt : value -> string.
Variable strptime : string -> option datetime.
Variable strftime : datetime -> string.
Variable clock : nat -> datetime.

(** X29.  When the user names the same organisation twice, and the
    server and the clock are the same for the two collections, every
    order is there twice: [total] is even, every phone of an order with a
    customer and a phone is reported as a duplicate, and [dup] has as
    many items as [unique] counts. *)
Theorem main_same_organisation_twice (token : value) (args : Args) (o : value)
    (all_orders : list value) (sumry : SummaryRecord) :
  http 2%nat = http 3%nat -> clock 0%nat = clock 1%nat ->
  collect http fmt strptime strftime clock token args 0 [o; o] [] = Done all_orders ->
  summarize all_orders = Ok sumry ->
  (exists part, all_orders = part ++ part) /\
  Nat.Even (total sumry) /\
  (forall p, p ∈ phones_considered all_orders -> p ∈ (dup sumry).*1) /\
  length (dup sumry) = unique sumry.
Proof.
  intros Hhttp Hclock Hrun Hsum. simpl in Hrun.
  destruct (getitem o "id") as [org_id|]; simpl in Hrun; [|discriminate].
  unfold fetch_orders_for in Hrun. simpl plus in Hrun.
  rewrite <- Hhttp, <- Hclock in Hrun.
  destruct (parse strptime (args_f args)) as [start|]; simpl in Hrun; [|discriminate].
  destruct (parse strptime (args_t args)) as [end_|]; simpl in Hrun; [|discriminate].
  destruct (fst (fetch_orders _ _ _ _ _)) as [part|]; simpl in Hrun; [|discriminate].
  injection Hrun as <-.
  apply summarize_fields in Hsum as (_ & Ht & _ & _ & _ & _ & _ & Hu & Hd).
  rewrite phones_considered_app in *.
  set (ph := phones_considered part) in *.
  assert (Htwice : Forall (fun pc => (1 < snd pc)%nat) (Counter (ph ++ ph))).
  { apply Forall_forall. intros [p c] Hin.
    apply Counter_spec in Hin as [Hin ->]. simpl. rewrite count_app.
    assert (0 < count (String.eqb p) ph)%nat; [|lia].
    apply occurrences_pos. apply elem_of_app in Hin. tauto. }
  rewrite (filter_all _ _ Htwice) in Hd.
  split; [eauto|]. split; [|split].
  - rewrite Ht, length_app. exists (length part). lia.
  - intros p Hin. rewrite Hd. apply list_elem_of_fmap.
    exists (p, count (String.eqb p) (ph ++ ph)). split; [reflexivity|].
    apply Counter_spec. auto.
  - now rewrite Hd, Hu.
Qed.

End SelectedTwice.

Lemma main_same_organisation_twice_witness :
  exists all_orders sumry,
    collect (fun _ => example_server) example_fmt example_strptime day_stamp
      (fun _ => 10 * DAY) (VStr "t1") example_args 0 [example_org1; example_org1] []
      = Done all_orders /\
    summarize all_orders = Ok sumry /\
    length (dup sumry) = unique sumry.
Proof.
  destruct (collect (fun _ => example_server) example_fmt example_strptime day_stamp
      (fun _ => 10 * DAY) (VStr "t1") example_args 0 [example_org1; example_org1] [])
    as [all_orders|] eqn:Hrun; [|vm_compute in Hrun; discriminate].
  destruct (summarize all_orders) as [sumry|] eqn:Hsum.
  2: { vm_compute in Hrun. injection Hrun as <-. vm_compute in Hsum. discriminate. }
  exists all_orders, sumry.
  split; [first [reflexivity | exact Hrun]|]. split; [first [reflexivity | exact Hsum]|].
  now destruct (main_same_organisation_twice (fun _ => example_server) example_fmt
                   example_strptime day_stamp (fun _ => 10 * DAY) _ _ _ _ _
                   eq_refl eq_refl Hrun Hsum)
    as (_ & _ & _ & Hlen).
Defined.
